(** * Airport tracking and analytics: the safety monitoring engine

    A shallow embedding of the three services that make up the core of the
    repository:

    - [CollisionDetectionService] (pairwise proximity alerts),
    - [AltitudeCheckService] (low-altitude alerts outside airport zones),
    - [FlightMonitorService] (the flight view joined from the three stores),

    together with the parts of Redis, Neo4j and MongoDB they talk to.

    Conventions of the embedding.

    - A JavaScript number is a real number or [NaN]; rounding error and the
      infinities are outside the model.  [Math.sin], [Math.cos],
      [Math.atan2] and [Math.sqrt] are the real functions.
    - The stores are explicit state.  A service method is a computation in
      the state monad [M] over [World]; [await] is sequencing.
    - [Date.now()] and [new Date()] read a clock: the [n]-th reading of a
      run is [clock n], for an arbitrary [clock].
    - The stores answer every command: a driver that throws is not
      modelled, except for the query on a closed session in the zone lookup,
      where the service catches the failure and goes on with a value of its
      own.  Entries whose time to live has run out are not in the store. *)

From Stdlib Require Import Reals Lra Lia Ascii.
From stdpp Require Import base strings list gmap pretty sorting.

(** ** JavaScript numbers *)

Module JS.

Inductive num : Type :=
| NaN
| Fin (x : R).

#[global] Instance Rlt_decision (x y : R) : Decision (x < y)%R := Rlt_dec x y.
#[global] Instance R_eq_decision : EqDecision R := Req_dec_T.

Definition lift1 (f : R → R) (a : num) : num :=
  match a with
  | Fin x => Fin (f x)
  | NaN => NaN
  end.

Definition lift2 (f : R → R → R) (a b : num) : num :=
  match a, b with
  | Fin x, Fin y => Fin (f x y)
  | _, _ => NaN
  end.

Definition add : num → num → num := lift2 Rplus.
Definition sub : num → num → num := lift2 Rminus.
Definition mul : num → num → num := lift2 Rmult.
(** The services divide by the literals 2 and 180 only. *)
Definition div : num → num → num := lift2 Rdiv.

(** [a < b]: false as soon as one side is [NaN]. *)
Definition lt (a b : num) : bool :=
  match a, b with
  | Fin x, Fin y => bool_decide (x < y)%R
  | _, _ => false
  end.

(** [a >= b]: false as soon as one side is [NaN]. *)
Definition ge (a b : num) : bool :=
  match a, b with
  | Fin x, Fin y => bool_decide (¬ (x < y)%R)
  | _, _ => false
  end.

(** Truthiness of a number: [0] and [NaN] are falsy. *)
Definition truthy (a : num) : bool :=
  match a with
  | Fin x => bool_decide (x ≠ 0%R)
  | NaN => false
  end.

(** [a || b] on numbers. *)
Definition or_else (a b : num) : num := if truthy a then a else b.

Definition Math_PI : num := Fin PI.
Definition Math_sin : num → num := lift1 sin.
Definition Math_cos : num → num := lift1 cos.
Definition Math_abs : num → num := lift1 Rabs.

Definition Math_sqrt (a : num) : num :=
  match a with
  | Fin x => if bool_decide (x < 0)%R then NaN else Fin (sqrt x)
  | NaN => NaN
  end.

(** [Math.atan2(y, x)]: the angle of the point [(x, y)], in (-PI, PI]. *)
Definition atan2 (y x : R) : R :=
  if bool_decide (0 < x)%R then atan (y / x)
  else if bool_decide (x < 0)%R then
    if bool_decide (y < 0)%R then (atan (y / x) - PI)%R else (atan (y / x) + PI)%R
  else if bool_decide (0 < y)%R then (PI / 2)%R
  else if bool_decide (y < 0)%R then (- (PI / 2))%R
  else 0%R.

Definition Math_atan2 : num → num → num := lift2 atan2.

(** [Math.round(x)]: the integer nearest to [x], ties towards +infinity. *)
Definition round (x : R) : R := IZR (Int_part (x + / 2)).
Definition Math_round : num → num := lift1 round.

(** [parseFloat(x.toFixed(2))]: [toFixed] rounds the magnitude to two
    decimals, the larger candidate on a tie, and keeps the sign. *)
Definition toFixed2 (x : R) : R :=
  if bool_decide (x < 0)%R then (- (round (- x * 100) / 100))%R
  else (round (x * 100) / 100)%R.
Definition parseFloat_toFixed2 : num → num := lift1 toFixed2.

End JS.

Export JS.

Declare Scope num_scope.
Delimit Scope num_scope with num.
Bind Scope num_scope with num.
Infix "+" := add : num_scope.
Infix "-" := sub : num_scope.
Infix "*" := mul : num_scope.
Infix "/" := div : num_scope.
Infix "<?" := lt : num_scope.
Infix ">=?" := ge (at level 70) : num_scope.
Coercion Fin : R >-> num.

(** ** Data model *)

(** Severity tiers; the services write them as the strings ['CRITICAL'],
    ['HIGH'], ['MEDIUM'] and ['SAFE']. *)
Inductive Severity : Type := CRITICAL | HIGH | MEDIUM | SAFE.

#[global] Instance Severity_eq_dec : EqDecision Severity.
Proof. solve_decision. Defined.

(** The hash stored under [aircraft:<callsign>:position].  The numeric
    fields hold the value [parseFloat] gives on the stored text ([NaN] when
    the text is not a number); [on_ground] is the stored text itself. *)
Module Hash.
Record t : Type := mk {
  callsign : string;
  latitude : num;
  longitude : num;
  altitude : num;
  velocity : num;
  heading : num;
  on_ground : string;
  last_update : string
}.
End Hash.

(** A live aircraft as the ingestion hands it to [storeLivePositions].
    The API client passes the position on as it gets it: [latitude] and
    [longitude] are [None] for [null]; it gives the other fields a value. *)
Module Live.
Record t : Type := mk {
  callsign : string;
  latitude : option num;
  longitude : option num;
  altitude : num;
  velocity : num;
  heading : num;
  on_ground : bool;
  timestamp : string
}.
End Live.

(** The position object [checkCollisionRisks] builds for each aircraft. *)
Module Aircraft.
Record t : Type := mk {
  callsign : string;
  latitude : num;
  longitude : num;
  altitude : num;
  velocity : num;
  heading : num
}.
End Aircraft.

Module Snapshot.
Record t : Type := mk {
  latitude : num;
  longitude : num;
  altitude : num
}.
End Snapshot.

Module CollisionAlert.
Record t : Type := mk {
  id : string;
  aircraft1 : string;
  aircraft2 : string;
  distance : num;
  altitudeDiff : num;
  severity : Severity;
  positions : Snapshot.t * Snapshot.t;
  timestamp : N
}.
End CollisionAlert.

Module AltitudeAlert.
Record t : Type := mk {
  id : string;
  callsign : string;
  altitude : num;
  latitude : num;
  longitude : num;
  velocity : num;
  heading : num;
  severity : Severity;
  message : string;
  inAirportZone : bool;
  airportName : option string;
  zoneName : option string;
  distanceToAirport : option num;
  timestamp : N
}.
End AltitudeAlert.

Module AircraftInfo.
Record t : Type := mk {
  callsign : string;
  altitude : num;
  latitude : num;
  longitude : num;
  velocity : num;
  heading : num;
  inAirportZone : bool;
  airportName : option string;
  zoneName : option string;
  distanceToAirport : option num
}.
End AircraftInfo.

Module ZoneInfo.
Record t : Type := mk {
  inZone : bool;
  airportName : option string;
  airportCode : option string;
  zoneName : option string;
  distance : option num
}.
End ZoneInfo.

Module AltitudeResult.
Record t : Type := mk {
  alerts : list AltitudeAlert.t;
  totalAircraft : nat;
  monitoredAircraft : list AircraftInfo.t
}.
End AltitudeResult.

(** A document of the [flight_schedules] collection, with the fields the
    services read. *)
Module Schedule.
Record t : Type := mk {
  flightNumber : string;
  registration : option string;
  status : option string
}.
End Schedule.

(** A flight as it is handed to [storeSchedules].  An object need not
    have every property: [status] and [aircraft] are [None] when the flight
    has no such property; [aircraft] is the sub-document of the aircraft,
    given by its [registration].  A property that is there may be [null]. *)
Module ScheduleInput.
Record t : Type := mk {
  flightNumber : string;
  aircraft : option (option string);
  status : option (option string)
}.
End ScheduleInput.

Module Position.
Record t : Type := mk {
  latitude : num;
  longitude : num;
  altitude : num;
  velocity : num;
  heading : num
}.
End Position.

(** The flight view.  The schedule-only view has no [on_ground], [gate],
    [terminal] and [last_update] property. *)
Module Flight.
Record t : Type := mk {
  callsign : string;
  position : option Position.t;
  on_ground : option bool;
  gate : option string;
  terminal : option string;
  status : string;
  schedule : option Schedule.t;
  last_update : option string
}.
End Flight.

Module GateRow.
Record t : Type := mk {
  gate : string;
  terminal : string;
  status : string;
  occupiedBy : option string;
  capacity : option N
}.
End GateRow.

Module Summary.
Record t : Type := mk {
  totalFlights : nat;
  inFlight : nat;
  onGround : nat;
  totalGates : nat;
  occupiedGates : nat;
  availableGates : nat;
  timestamp : N
}.
End Summary.

(** The answer of [getAircraftAltitudeStatus]. *)
Module AltitudeStatus.
Record t : Type := mk {
  callsign : string;
  altitude : num;
  position : num * num;
  inAirportZone : bool;
  isSafe : bool;
  minSafeAltitude : num;
  timestamp : N
}.
End AltitudeStatus.

(** ** Redis *)

(** What is stored under a string key or pushed on a list: the JSON text of
    an alert.  [JSON.parse] gives back what [JSON.stringify] was given. *)
Inductive Json : Type :=
| JCollision (a : CollisionAlert.t)
| JAltitude (a : AltitudeAlert.t).

(** The three kinds of keys the services use.  [hashes] lists the
    [aircraft:*] keys in the order [KEYS] reports them; a string value
    carries its [EX] time to live in seconds.  Entries whose time to live
    has run out are not in the store. *)
Record Redis : Type := mkRedis {
  hashes : list (string * Hash.t);
  strings : gmap string (Json * N);
  lists : gmap string (list Json)
}.

(** *** Glob patterns of [KEYS] *)

Inductive ClassItem : Type :=
| CLit (c : ascii)
| CRange (lo hi : ascii).

Inductive GlobTok : Type :=
| TStar
| TAny
| TLit (c : ascii)
| TClass (neg : bool) (items : list ClassItem).

Definition ascii_leb (a b : ascii) : bool := (nat_of_ascii a <=? nat_of_ascii b)%nat.

Definition mk_range (a b : ascii) : ClassItem :=
  if ascii_leb a b then CRange a b else CRange b a.

(** The tokens of a pattern.  [cls] is [Some (neg, items)] while the
    characters of a bracket class are read. *)
Fixpoint glob_tokens (cls : option (bool * list ClassItem)) (p : list ascii)
  : list GlobTok :=
  match cls with
  | None =>
    match p with
    | [] => []
    | "*"%char :: p' => TStar :: glob_tokens None p'
    | "?"%char :: p' => TAny :: glob_tokens None p'
    | "["%char :: "^"%char :: p' => glob_tokens (Some (true, [])) p'
    | "["%char :: p' => glob_tokens (Some (false, [])) p'
    | "\"%char :: c :: p' => TLit c :: glob_tokens None p'
    | c :: p' => TLit c :: glob_tokens None p'
    end
  | Some (neg, items) =>
    match p with
    | [] => [TClass neg items]
    | "]"%char :: p' => TClass neg items :: glob_tokens None p'
    | "\"%char :: c :: p' => glob_tokens (Some (neg, items ++ [CLit c])) p'
    | a :: "-"%char :: b :: p' => glob_tokens (Some (neg, items ++ [mk_range a b])) p'
    | c :: p' => glob_tokens (Some (neg, items ++ [CLit c])) p'
    end
  end.

Definition class_item_match (c : ascii) (i : ClassItem) : bool :=
  match i with
  | CLit d => bool_decide (c = d)
  | CRange lo hi => ascii_leb lo c && ascii_leb c hi
  end.

Definition class_match (neg : bool) (items : list ClassItem) (c : ascii) : bool :=
  xorb neg (existsb (class_item_match c) items).

Fixpoint toks_match (ts : list GlobTok) : list ascii → bool :=
  match ts with
  | [] => λ s, match s with [] => true | _ => false end
  | TStar :: ts' =>
    fix star (s : list ascii) : bool :=
      toks_match ts' s || match s with [] => false | _ :: s' => star s' end
  | TAny :: ts' => λ s, match s with [] => false | _ :: s' => toks_match ts' s' end
  | TLit c :: ts' =>
    λ s, match s with [] => false | d :: s' => bool_decide (c = d) && toks_match ts' s' end
  | TClass neg items :: ts' =>
    λ s, match s with [] => false | d :: s' => class_match neg items d && toks_match ts' s' end
  end.

Definition glob_match (pattern key : string) : bool :=
  toks_match (glob_tokens None (String.list_ascii_of_string pattern)) (String.list_ascii_of_string key).

(** *** Commands *)

Fixpoint assoc_lookup {V : Type} (key : string) (l : list (string * V)) : option V :=
  match l with
  | [] => None
  | (k, v) :: l' => if bool_decide (k = key) then Some v else assoc_lookup key l'
  end.

(** Writing a key: an existing entry is replaced where it stands, a new one
    goes to the end. *)
Fixpoint assoc_set {V : Type} (key : string) (v : V) (l : list (string * V))
  : list (string * V) :=
  match l with
  | [] => [(key, v)]
  | (k, v') :: l' =>
    if bool_decide (k = key) then (k, v) :: l' else (k, v') :: assoc_set key v l'
  end.

(** [KEYS pattern].  The patterns of the services start with [aircraft:],
    and the keys of that form are those of [hashes]. *)
Definition keys (pattern : string) (r : Redis) : list string :=
  filter (λ k, glob_match pattern k = true) (hashes r).*1.

(** [HGETALL] of a key that is not there gives the empty object: every
    field is [undefined], which reads as the empty text (callsign, flags)
    and as [NaN] under [parseFloat]. *)
Definition empty_hash : Hash.t := Hash.mk "" NaN NaN NaN NaN NaN "" "".

Definition hGetAll (key : string) (r : Redis) : Hash.t :=
  default empty_hash (assoc_lookup key (hashes r)).

Definition hSet (key : string) (h : Hash.t) (r : Redis) : Redis :=
  mkRedis (assoc_set key h (hashes r)) (strings r) (lists r).

(** [SET key value EX seconds]. *)
Definition set (key : string) (value : Json) (EX : N) (r : Redis) : Redis :=
  mkRedis (hashes r) (<[key := (value, EX)]> (strings r)) (lists r).

Definition get (key : string) (r : Redis) : option Json :=
  fst <$> strings r !! key.

Definition list_at (key : string) (r : Redis) : list Json :=
  default [] (lists r !! key).

Definition lPush (key : string) (value : Json) (r : Redis) : Redis :=
  mkRedis (hashes r) (strings r) (<[key := value :: list_at key r]> (lists r)).

(** The range of [LRANGE] and [LTRIM]: a negative index counts from the
    end, a start before the list is its beginning, and a range that ends
    before it starts is empty. *)
Definition list_range {A : Type} (l : list A) (start stop : Z) : list A :=
  let len := Z.of_nat (length l) in
  let s := if (start <? 0)%Z then Z.max 0 (len + start) else start in
  let e := if (stop <? 0)%Z then (len + stop)%Z else stop in
  if (e <? s)%Z then [] else take (Z.to_nat (e - s + 1)) (drop (Z.to_nat s) l).

Definition lRange (key : string) (start stop : Z) (r : Redis) : list Json :=
  list_range (list_at key r) start stop.

(** [LTRIM] keeps the range; a list left empty is removed. *)
Definition lTrim (key : string) (start stop : Z) (r : Redis) : Redis :=
  match list_range (list_at key r) start stop with
  | [] => mkRedis (hashes r) (strings r) (delete key (lists r))
  | l => mkRedis (hashes r) (strings r) (<[key := l]> (lists r))
  end.

(** [KEYS pattern] for the patterns that start with [alert:]: the keys
    of that form are string keys. *)
Definition string_keys (pattern : string) (r : Redis) : list string :=
  filter (λ k, glob_match pattern k = true) (map_to_list (strings r)).*1.

(** *** Arrays of alerts *)

(** [array.slice(0, end)]: a negative [end] counts from the end of the
    array. *)
Definition slice_0 {A : Type} (l : list A) (stop : Z) : list A :=
  let len := Z.of_nat (length l) in
  take (Z.to_nat (if (stop <? 0)%Z then Z.max (len + stop) 0 else stop)) l.

(** The [timestamp] of a parsed alert. *)
Definition json_timestamp (a : Json) : N :=
  match a with
  | JCollision a => CollisionAlert.timestamp a
  | JAltitude a => AltitudeAlert.timestamp a
  end.

(** [alerts.sort((a, b) => new Date(b.timestamp) - new Date(a.timestamp))]:
    the latest first; the sort of an array is stable. *)
Fixpoint insert_latest (x : Json) (l : list Json) : list Json :=
  match l with
  | [] => [x]
  | y :: l' =>
    if (json_timestamp y <=? json_timestamp x)%N then x :: l else y :: insert_latest x l'
  end.

Definition sort_latest_first (alerts : list Json) : list Json :=
  foldr insert_latest [] alerts.

(** ** Neo4j *)

Module Airport.
Record t : Type := mk {
  name : string;
  code : string;
  latitude : num;
  longitude : num
}.
End Airport.

Module Zone.
Record t : Type := mk {
  name : string;
  latitude : num;
  longitude : num;
  radiusMeters : num
}.
End Zone.

Module Gate.
Record t : Type := mk {
  node : nat;
  gateNumber : string;
  status : option string;
  capacity : option N
}.
End Gate.

(** The graph, by the patterns the queries match: [(a:Airport)],
    [(a:Airport)-[:HAS_ZONE]->(z:Zone)],
    [(g:Gate)-[:BELONGS_TO]->(t:Terminal)] with the terminal's
    [terminalName], and [(f:Flight)-[:ASSIGNED_TO]->(g:Gate)] with the
    flight's [callsign] and the node of the gate.  [point_distance] is the
    database's [point.distance], in meters.  [closed_session_answers] tells
    whether the driver still runs a query on a session that has been
    closed, or throws. *)
Record Neo4j : Type := mkNeo4j {
  airports : list Airport.t;
  has_zone : list (Airport.t * Zone.t);
  belongs_to : list (Gate.t * string);
  assigned_to : list (option string * nat);
  point_distance : num * num → num * num → num;
  closed_session_answers : bool
}.

(** ** MongoDB *)

Record MongoDB : Type := mkMongoDB {
  flight_schedules : list Schedule.t
}.

(** ** The world and the monad of the services *)

Record World : Type := mkWorld {
  redis : Redis;
  neo4j : Neo4j;
  mongodb : MongoDB;
  clock : nat → N;
  ticks : nat
}.

Definition M (A : Type) : Type := World → A * World.

(** How a call of a method that can throw ends. *)
Inductive Completion (A : Type) : Type :=
| Returned (a : A)
| Thrown (error : string).

Arguments Returned {A} a.
Arguments Thrown {A} error.

#[global] Instance M_ret : MRet M := λ A a w, (a, w).
#[global] Instance M_bind : MBind M := λ A B f m w, let '(a, w') := m w in f a w'.

(** Reading and updating the Redis store. *)
Definition redis_read {A : Type} (f : Redis → A) : M A := λ w, (f (redis w), w).
Definition redis_write (f : Redis → Redis) : M unit :=
  λ w, (tt, mkWorld (f (redis w)) (neo4j w) (mongodb w) (clock w) (ticks w)).
Definition getNeo4j : M Neo4j := λ w, (neo4j w, w).
Definition getMongoDB : M MongoDB := λ w, (mongodb w, w).

(** [Date.now()], in milliseconds; [new Date()] reads the same clock. *)
Definition Date_now : M N :=
  λ w, (clock w (ticks w), mkWorld (redis w) (neo4j w) (mongodb w) (clock w) (S (ticks w))).

(** The loop of the two [getAlertHistory]: the values under the keys that
    still have one. *)
Fixpoint read_alerts (keys : list string) (alerts : list Json) : M (list Json) :=
  match keys with
  | [] => mret alerts
  | key :: keys' =>
    data ← redis_read (get key);
    match data with
    | Some data => read_alerts keys' (alerts ++ [data])
    | None => read_alerts keys' alerts
    end
  end.

(** ** Collision detection *)

Module CollisionDetectionService.

Record t : Type := mk {
  SAFE_DISTANCE_KM : num;
  SAFE_ALTITUDE_DIFF_FT : num
}.

(** The constructor with no environment variable set. *)
Definition new : t := mk (Fin 5) (Fin 1000).

Definition toRad (degrees : num) : num := (degrees * Math_PI / Fin 180)%num.

(** Haversine formula.  Over the reals the term [a] is never above 1; in
    floating point it can be, by rounding, for two points that are nearly
    opposite on the sphere, and the distance is [NaN] then. *)
Definition calculateDistance (lat1 lon1 lat2 lon2 : num) : num :=
  let R := Fin 6371 in
  let dLat := toRad (lat2 - lat1) in
  let dLon := toRad (lon2 - lon1) in
  let a := (Math_sin (dLat / Fin 2) * Math_sin (dLat / Fin 2) +
            Math_cos (toRad lat1) * Math_cos (toRad lat2) *
            Math_sin (dLon / Fin 2) * Math_sin (dLon / Fin 2))%num in
  let c := (Fin 2 * Math_atan2 (Math_sqrt a) (Math_sqrt (Fin 1 - a)))%num in
  (R * c)%num.

Definition calculateSeverity (distance altitudeDiff : num) : Severity :=
  if (distance <? Fin 2)%num && (altitudeDiff <? Fin 500)%num then CRITICAL
  else if (distance <? Fin 3)%num && (altitudeDiff <? Fin 700)%num then HIGH
  else MEDIUM.

Definition snapshot (a : Aircraft.t) : Snapshot.t :=
  Snapshot.mk (Aircraft.latitude a) (Aircraft.longitude a) (Aircraft.altitude a).

Definition checkPairCollision (this : t) (aircraft1 aircraft2 : Aircraft.t)
  : M (option CollisionAlert.t) :=
  let distance :=
    calculateDistance (Aircraft.latitude aircraft1) (Aircraft.longitude aircraft1)
                      (Aircraft.latitude aircraft2) (Aircraft.longitude aircraft2) in
  let altitudeDiff := Math_abs (Aircraft.altitude aircraft1 - Aircraft.altitude aircraft2) in
  if (distance <? SAFE_DISTANCE_KM this)%num && (altitudeDiff <? SAFE_ALTITUDE_DIFF_FT this)%num
  then
    let severity := calculateSeverity distance altitudeDiff in
    now ← Date_now;
    timestamp ← Date_now;
    mret (Some (CollisionAlert.mk
      (Aircraft.callsign aircraft1 +:+ "-" +:+ Aircraft.callsign aircraft2 +:+ "-" +:+ pretty now)
      (Aircraft.callsign aircraft1)
      (Aircraft.callsign aircraft2)
      (parseFloat_toFixed2 distance)
      (Math_round altitudeDiff)
      severity
      (snapshot aircraft1, snapshot aircraft2)
      timestamp))
  else mret None.

Definition storeAlert (alert : CollisionAlert.t) : M unit :=
  let key := "alert:collision:" +:+ CollisionAlert.id alert in
  redis_write (set key (JCollision alert) 300);;
  redis_write (lPush "alerts:collision:active" (JCollision alert));;
  redis_write (lTrim "alerts:collision:active" 0 99).

(** The loop over the keys that fills [positions]. *)
Fixpoint read_positions (keys : list string) (positions : list Aircraft.t)
  : M (list Aircraft.t) :=
  match keys with
  | [] => mret positions
  | key :: keys' =>
    data ← redis_read (hGetAll key);
    if bool_decide (Hash.callsign data ≠ "") && bool_decide (Hash.on_ground data ≠ "true")
    then read_positions keys'
           (positions ++ [Aircraft.mk (Hash.callsign data) (Hash.latitude data)
                            (Hash.longitude data) (Hash.altitude data)
                            (Hash.velocity data) (Hash.heading data)])
    else read_positions keys' positions
  end.

(** The inner loop: [positions[i]] against [positions[j]] for the [j]
    after [i]. *)
Fixpoint check_against (this : t) (pi : Aircraft.t) (rest : list Aircraft.t)
    (alerts : list CollisionAlert.t) : M (list CollisionAlert.t) :=
  match rest with
  | [] => mret alerts
  | pj :: rest' =>
    alert ← checkPairCollision this pi pj;
    match alert with
    | Some alert => storeAlert alert;; check_against this pi rest' (alerts ++ [alert])
    | None => check_against this pi rest' alerts
    end
  end.

(** The outer loop. *)
Fixpoint check_pairs (this : t) (positions : list Aircraft.t)
    (alerts : list CollisionAlert.t) : M (list CollisionAlert.t) :=
  match positions with
  | [] => mret alerts
  | pi :: rest =>
    alerts ← check_against this pi rest alerts;
    check_pairs this rest alerts
  end.

Definition checkCollisionRisks (this : t) : M (list CollisionAlert.t) :=
  keys ← redis_read (keys "aircraft:*:position");
  if (length keys <? 2)%nat then mret []
  else
    positions ← read_positions keys [];
    check_pairs this positions [].

Definition getActiveAlerts : M (list Json) :=
  redis_read (lRange "alerts:collision:active" 0 (-1)).

(** [limit] is [None] when the caller gives none. *)
Definition getAlertHistory (limit : option Z) : M (list Json) :=
  let limit := default 50%Z limit in
  keys ← redis_read (string_keys "alert:collision:*");
  alerts ← read_alerts (slice_0 keys limit) [];
  mret (sort_latest_first alerts).

End CollisionDetectionService.

(** ** Altitude check *)

Module AltitudeCheckService.

Record t : Type := mk {
  MIN_SAFE_ALTITUDE_FT : num
}.

Definition new : t := mk (Fin 1000).

Definition is_NaN (a : num) : bool :=
  match a with NaN => true | Fin _ => false end.

(** [ORDER BY d LIMIT 1]: a row of least [d], the first of them; a row
    without a distance sorts last. *)
Fixpoint order_by_limit_1 {A : Type} (d : A → num) (rows : list A) : option A :=
  match rows with
  | [] => None
  | x :: rows' =>
    match order_by_limit_1 d rows' with
    | None => Some x
    | Some y =>
      if (d y <? d x)%num || (is_NaN (d x) && negb (is_NaN (d y))) then Some y else Some x
    end
  end.

(** The rows of the first query before [ORDER BY]: the zones whose circle
    holds the point, each with its airport and its distance. *)
Definition zones_holding (db : Neo4j) (latitude longitude : num)
  : list (Airport.t * Zone.t * num) :=
  filter (λ r, (r.2 <? Zone.radiusMeters r.1.2)%num = true)
    (map (λ az : Airport.t * Zone.t,
            (az, point_distance db (latitude, longitude)
                   (Zone.latitude az.2, Zone.longitude az.2)))
         (has_zone db)).

(** The rows of the second query before [ORDER BY]. *)
Definition airports_with_distance (db : Neo4j) (latitude longitude : num)
  : list (Airport.t * num) :=
  map (λ a, (a, point_distance db (latitude, longitude)
                  (Airport.latitude a, Airport.longitude a)))
      (airports db).

Definition unknown_zone : ZoneInfo.t := ZoneInfo.mk false None None None None.

(** The second query runs on the session the method has already closed:
    where the driver throws, the [catch] answers [unknown_zone]. *)
Definition getAirportZoneInfo (latitude longitude : num) : M ZoneInfo.t :=
  db ← getNeo4j;
  match order_by_limit_1 snd (zones_holding db latitude longitude) with
  | Some (a, z, distance) =>
    mret (ZoneInfo.mk true (Some (Airport.name a)) (Some (Airport.code a))
            (Some (Zone.name z)) (Some (parseFloat_toFixed2 (distance / Fin 1000))))
  | None =>
    if closed_session_answers db then
      match order_by_limit_1 snd (airports_with_distance db latitude longitude) with
      | Some (a, distance) =>
        mret (ZoneInfo.mk false (Some (Airport.name a)) (Some (Airport.code a))
                None (Some (parseFloat_toFixed2 (distance / Fin 1000))))
      | None => mret unknown_zone
      end
    else mret unknown_zone
  end.

Definition isInAirportZone (latitude longitude : num) : M bool :=
  info ← getAirportZoneInfo latitude longitude;
  mret (ZoneInfo.inZone info).

Definition calculateSeverity (altitude : num) : Severity :=
  if (altitude <? Fin 500)%num then CRITICAL
  else if (altitude <? Fin 750)%num then HIGH
  else MEDIUM.

Definition storeAlert (alert : AltitudeAlert.t) : M unit :=
  let key := "alert:low-altitude:" +:+ AltitudeAlert.id alert in
  redis_write (set key (JAltitude alert) 300);;
  redis_write (lPush "alerts:altitude:active" (JAltitude alert));;
  redis_write (lTrim "alerts:altitude:active" 0 99).

(** A value in a template literal: [null] prints as the text null. *)
Definition template (s : option string) : string := default "null" s.

(** One turn of the loop over the keys: the aircraft under [key] is added
    to [allAircraft], and its alert, if it has one, to [lowAltitudeAlerts]. *)
Definition check_key (this : t) (key : string)
    (lowAltitudeAlerts : list AltitudeAlert.t) (allAircraft : list AircraftInfo.t)
  : M (list AltitudeAlert.t * list AircraftInfo.t) :=
  data ← redis_read (hGetAll key);
  if bool_decide (Hash.callsign data = "") || bool_decide (Hash.on_ground data = "true")
  then mret (lowAltitudeAlerts, allAircraft)
  else
    let callsign := Hash.callsign data in
    let altitude := Hash.altitude data in
    let latitude := Hash.latitude data in
    let longitude := Hash.longitude data in
    let velocity := or_else (Hash.velocity data) (Fin 0) in
    let heading := or_else (Hash.heading data) (Fin 0) in
    airportZoneInfo ← getAirportZoneInfo latitude longitude;
    let aircraftInfo :=
      AircraftInfo.mk callsign altitude latitude longitude velocity heading
        (ZoneInfo.inZone airportZoneInfo) (ZoneInfo.airportName airportZoneInfo)
        (ZoneInfo.zoneName airportZoneInfo) (ZoneInfo.distance airportZoneInfo) in
    let allAircraft := allAircraft ++ [aircraftInfo] in
    if (altitude <? MIN_SAFE_ALTITUDE_FT this)%num then
      if negb (ZoneInfo.inZone airportZoneInfo) then
        now ← Date_now;
        timestamp ← Date_now;
        let alert :=
          AltitudeAlert.mk (callsign +:+ "-" +:+ pretty now)
            callsign altitude latitude longitude velocity heading
            (calculateSeverity altitude)
            "Aircraft flying below safe altitude outside airport zone"
            false None None (ZoneInfo.distance airportZoneInfo) timestamp in
        storeAlert alert;;
        mret (lowAltitudeAlerts ++ [alert], allAircraft)
      else
        now ← Date_now;
        timestamp ← Date_now;
        let alert :=
          AltitudeAlert.mk (callsign +:+ "-" +:+ pretty now)
            callsign altitude latitude longitude velocity heading
            SAFE
            ("Aircraft in " +:+ template (ZoneInfo.airportName airportZoneInfo) +:+ " "
               +:+ template (ZoneInfo.zoneName airportZoneInfo) +:+ " - Normal operations")
            true (ZoneInfo.airportName airportZoneInfo) (ZoneInfo.zoneName airportZoneInfo)
            (ZoneInfo.distance airportZoneInfo) timestamp in
        mret (lowAltitudeAlerts ++ [alert], allAircraft)
    else mret (lowAltitudeAlerts, allAircraft).

Fixpoint check_keys (this : t) (keys : list string)
    (lowAltitudeAlerts : list AltitudeAlert.t) (allAircraft : list AircraftInfo.t)
  : M (list AltitudeAlert.t * list AircraftInfo.t) :=
  match keys with
  | [] => mret (lowAltitudeAlerts, allAircraft)
  | key :: keys' =>
    r ← check_key this key lowAltitudeAlerts allAircraft;
    check_keys this keys' r.1 r.2
  end.

Definition checkLowAltitudeAircraft (this : t) : M AltitudeResult.t :=
  keys ← redis_read (keys "aircraft:*:position");
  r ← check_keys this keys [] [];
  mret (AltitudeResult.mk r.1 (length r.2) r.2).

Definition getActiveAlerts (this : t) : M AltitudeResult.t :=
  checkLowAltitudeAircraft this.

Definition checkAltitudeViolations (this : t) : M AltitudeResult.t :=
  checkLowAltitudeAircraft this.

(** The test [!data.altitude] is on the altitude text.  The entries of
    the store have one (the writers set every field), so that it fails for
    the key that is not there. *)
Definition getAircraftAltitudeStatus (this : t) (callsign : string)
  : M (option AltitudeStatus.t) :=
  let key := "aircraft:" +:+ callsign +:+ ":position" in
  data ← redis_read (λ r, assoc_lookup key (hashes r));
  match data with
  | None => mret None
  | Some data =>
    let altitude := Hash.altitude data in
    let latitude := Hash.latitude data in
    let longitude := Hash.longitude data in
    inAirportZone ← isInAirportZone latitude longitude;
    timestamp ← Date_now;
    mret (Some (AltitudeStatus.mk callsign altitude (latitude, longitude) inAirportZone
                  ((altitude >=? MIN_SAFE_ALTITUDE_FT this)%num || inAirportZone)
                  (MIN_SAFE_ALTITUDE_FT this) timestamp))
  end.

Definition getAlertHistory (limit : option Z) : M (list Json) :=
  let limit := default 50%Z limit in
  keys ← redis_read (string_keys "alert:low-altitude:*");
  alerts ← read_alerts (slice_0 keys limit) [];
  mret (sort_latest_first alerts).

End AltitudeCheckService.

(** ** Flight monitor *)

Module FlightMonitorService.

(** [s.trim()], for the white space of ASCII. *)
Fixpoint trim_start (s : string) : string :=
  match s with
  | EmptyString => EmptyString
  | String a s' => if Ascii.is_space a then trim_start s' else s
  end.

Definition trim (s : string) : string :=
  String.rev (trim_start (String.rev (trim_start s))).

(** Truthiness of a text that may be [null] or [undefined]. *)
Definition truthy_text (s : option string) : bool :=
  match s with
  | Some s => bool_decide (s ≠ "")
  | None => false
  end.

(** [s || null]. *)
Definition or_null (s : option string) : option string :=
  if truthy_text s then s else None.

Definition key_of (callsign : string) : string :=
  "aircraft:" +:+ callsign +:+ ":position".

Definition bool_toString (b : bool) : string := if b then "true" else "false".

(** [toString] of a position that is [null] throws, before the hash of
    the aircraft is written: the loop ends there and the aircraft after it
    are not stored.  The [expire] that follows each [hSet] renews the time
    to live, which is not part of the state. *)
Fixpoint storeLivePositions (positions : list Live.t) : M (Completion unit) :=
  match positions with
  | [] => mret (Returned tt)
  | aircraft :: positions' =>
    let key := key_of (Live.callsign aircraft) in
    match Live.latitude aircraft, Live.longitude aircraft with
    | Some latitude, Some longitude =>
      redis_write (hSet key
        (Hash.mk (Live.callsign aircraft) latitude longitude
           (Live.altitude aircraft) (Live.velocity aircraft) (Live.heading aircraft)
           (bool_toString (Live.on_ground aircraft)) (Live.timestamp aircraft)));;
      storeLivePositions positions'
    | _, _ => mret (Thrown "TypeError")
    end
  end.

(** [$set] with the properties of the flight: a property the flight has
    is written, also when it is [null], and a field of the document for
    which the flight has no property is kept. *)
Definition set_fields (flight : ScheduleInput.t) (doc : Schedule.t) : Schedule.t :=
  Schedule.mk (ScheduleInput.flightNumber flight)
    (default (Schedule.registration doc) (ScheduleInput.aircraft flight))
    (default (Schedule.status doc) (ScheduleInput.status flight)).

(** [updateOne] with [upsert]: the first document of the flight number
    gets the properties of the flight, and a flight number that has no
    document gets one at the end of the collection, made from the flight
    number of the filter and the properties of the flight. *)
Fixpoint upsert (flight : ScheduleInput.t) (docs : list Schedule.t) : list Schedule.t :=
  match docs with
  | [] => [set_fields flight (Schedule.mk (ScheduleInput.flightNumber flight) None None)]
  | doc :: docs' =>
    if bool_decide (Schedule.flightNumber doc = ScheduleInput.flightNumber flight)
    then set_fields flight doc :: docs'
    else doc :: upsert flight docs'
  end.

(** [bulkWrite] runs the operations in their order.  An operation sets
    the properties of its flight and [lastUpdated], which is not among the
    fields of [Schedule.t]. *)
Definition bulkWrite (operations : list (ScheduleInput.t * N)) (db : MongoDB) : MongoDB :=
  mkMongoDB (foldl (λ docs operation, upsert operation.1 docs)
               (flight_schedules db) operations).

Definition mongodb_write (f : MongoDB → MongoDB) : M unit :=
  λ w, (tt, mkWorld (redis w) (neo4j w) (f (mongodb w)) (clock w) (ticks w)).

(** [schedules.map(...)]: one operation for each flight, with the time at
    which it is made. *)
Fixpoint schedule_operations (schedules : list ScheduleInput.t)
  : M (list (ScheduleInput.t * N)) :=
  match schedules with
  | [] => mret []
  | flight :: schedules' =>
    lastUpdated ← Date_now;
    operations ← schedule_operations schedules';
    mret ((flight, lastUpdated) :: operations)
  end.

Definition storeSchedules (schedules : list ScheduleInput.t) : M unit :=
  if bool_decide (length schedules = 0) then mret tt
  else
    operations ← schedule_operations schedules;
    if bool_decide (0 < length operations) then mongodb_write (bulkWrite operations)
    else mret tt.

(** The rows of
    [(f:Flight {callsign})-[:ASSIGNED_TO]->(g:Gate)-[:BELONGS_TO]->(t:Terminal)]:
    gate number and terminal name. *)
Definition assignment_rows (db : Neo4j) (callsign : string) : list (string * string) :=
  fa ← filter (λ fa, fa.1 = Some callsign) (assigned_to db);
  gt ← filter (λ gt, Gate.node gt.1 = fa.2) (belongs_to db);
  [(Gate.gateNumber gt.1, gt.2)].

Definition getGateAssignment (callsign : string) : M (option (string * string)) :=
  db ← getNeo4j;
  mret (head (assignment_rows db callsign)).

(** [findOne] with the two alternatives of [$or]. *)
Definition getFlightSchedule (callsign : string) : M (option Schedule.t) :=
  db ← getMongoDB;
  mret (head (filter (λ s, Schedule.flightNumber s = trim callsign
                           ∨ Schedule.registration s = Some (trim callsign))
                (flight_schedules db))).

Definition determineStatus (liveData : Hash.t) (schedule : option Schedule.t) : string :=
  if bool_decide (Hash.on_ground liveData = "true") then "on_ground"
  else match schedule with
       | Some schedule =>
         if truthy_text (Schedule.status schedule)
         then default "" (Schedule.status schedule) else "in_flight"
       | None => "in_flight"
       end.

Definition live_view (data : Hash.t) (gateInfo : option (string * string))
    (schedule : option Schedule.t) : Flight.t :=
  Flight.mk (Hash.callsign data)
    (Some (Position.mk (Hash.latitude data) (Hash.longitude data) (Hash.altitude data)
             (Hash.velocity data) (Hash.heading data)))
    (Some (bool_decide (Hash.on_ground data = "true")))
    (or_null (fst <$> gateInfo))
    (or_null (snd <$> gateInfo))
    (determineStatus data schedule)
    schedule
    (Some (Hash.last_update data)).

Fixpoint read_flights (keys : list string) (flights : list Flight.t) : M (list Flight.t) :=
  match keys with
  | [] => mret flights
  | key :: keys' =>
    data ← redis_read (hGetAll key);
    if bool_decide (Hash.callsign data ≠ "") then
      gateInfo ← getGateAssignment (Hash.callsign data);
      schedule ← getFlightSchedule (Hash.callsign data);
      read_flights keys' (flights ++ [live_view data gateInfo schedule])
    else read_flights keys' flights
  end.

Definition getLiveFlights : M (list Flight.t) :=
  keys ← redis_read (keys "aircraft:*:position");
  if bool_decide (length keys = 0) then mret []
  else read_flights keys [].

(** The rows of the gate query before [ORDER BY]: a gate with its
    terminal, once for each flight assigned to it, and once with no flight
    when none is. *)
Definition gate_rows (db : Neo4j) : list (Gate.t * string * option string) :=
  gt ← belongs_to db;
  match filter (λ fa, fa.2 = Gate.node gt.1) (assigned_to db) with
  | [] => [(gt, None)]
  | fs => map (λ fa, (gt, fa.1)) fs
  end.

(** [ORDER BY t.terminalName, g.gateNumber]. *)
Definition gate_row_le (r1 r2 : Gate.t * string * option string) : Prop :=
  match String.compare r1.1.2 r2.1.2 with
  | Lt => True
  | Eq => String.leb (Gate.gateNumber r1.1.1) (Gate.gateNumber r2.1.1) = true
  | Gt => False
  end.

#[global] Instance gate_row_le_dec r1 r2 : Decision (gate_row_le r1 r2).
Proof. unfold gate_row_le. destruct (String.compare _ _); apply _. Defined.

Definition getGateStatus : M (list GateRow.t) :=
  db ← getNeo4j;
  mret (map (λ r : Gate.t * string * option string,
               GateRow.mk (Gate.gateNumber r.1.1) r.1.2
                 (if truthy_text (Gate.status r.1.1)
                  then default "" (Gate.status r.1.1) else "available")
                 r.2 (Gate.capacity r.1.1))
            (merge_sort gate_row_le (gate_rows db))).

Definition getFlightDetails (flightNumber : string) : M (option Flight.t) :=
  keys ← redis_read (keys ("aircraft:" +:+ flightNumber +:+ "*:position"));
  match keys with
  | key :: _ =>
    data ← redis_read (hGetAll key);
    gateInfo ← getGateAssignment (Hash.callsign data);
    schedule ← getFlightSchedule (Hash.callsign data);
    mret (Some (live_view data gateInfo schedule))
  | [] =>
    schedule ← getFlightSchedule flightNumber;
    match schedule with
    | Some schedule =>
      mret (Some (Flight.mk flightNumber None None None None
                    (if truthy_text (Schedule.status schedule)
                     then default "" (Schedule.status schedule) else "scheduled")
                    (Some schedule) None))
    | None => mret None
    end
  end.

Definition getFlightsByTerminal (terminalName : string) : M (list Flight.t) :=
  allFlights ← getLiveFlights;
  mret (filter (λ f, Flight.terminal f = Some terminalName) allFlights).

Definition flag (b : option bool) : bool := default false b.

Definition getSummary : M Summary.t :=
  flights ← getLiveFlights;
  gates ← getGateStatus;
  timestamp ← Date_now;
  mret (Summary.mk
    (length flights)
    (length (filter (λ f, flag (Flight.on_ground f) = false) flights))
    (length (filter (λ f, flag (Flight.on_ground f) = true) flights))
    (length gates)
    (length (filter (λ g, truthy_text (GateRow.occupiedBy g) = true) gates))
    (length (filter (λ g, truthy_text (GateRow.occupiedBy g) = false) gates))
    timestamp).

End FlightMonitorService.

(** * Specification *)

(** ** Computations *)

(** The result of a computation and the world it leaves. *)
Definition result {A : Type} (m : M A) (w : World) : A := (m w).1.
Definition world_after {A : Type} (m : M A) (w : World) : World := (m w).2.

(** The world after [n] more readings of the clock, and the world with
    another Redis store. *)
Definition advance (n : nat) (w : World) : World :=
  mkWorld (redis w) (neo4j w) (mongodb w) (clock w) (n + ticks w).

Definition with_redis (r : Redis) (w : World) : World :=
  mkWorld r (neo4j w) (mongodb w) (clock w) (ticks w).

(** ** The position store *)

(** How the ingestion writes the position store: one entry for each key,
    under the key made from the callsign the entry carries. *)
Definition store_wf (r : Redis) : Prop :=
  NoDup (hashes r).*1 ∧
  ∀ k h, (k, h) ∈ hashes r → k = FlightMonitorService.key_of (Hash.callsign h).

(** An entry the detectors go on with: it is there (the entry of a key
    that has expired reads as the empty object, without callsign), and its
    aircraft is not on the ground. *)
Definition airborne (h : Hash.t) : Prop :=
  Hash.callsign h ≠ "" ∧ Hash.on_ground h ≠ "true".

#[global] Instance airborne_dec h : Decision (airborne h).
Proof. unfold airborne. apply _. Defined.

(** The entries a cycle of a detector goes through. *)
Definition monitored (r : Redis) : list Hash.t := filter airborne (hashes r).*2.

(** ** Collision detection *)

Definition to_aircraft (h : Hash.t) : Aircraft.t :=
  Aircraft.mk (Hash.callsign h) (Hash.latitude h) (Hash.longitude h)
    (Hash.altitude h) (Hash.velocity h) (Hash.heading h).

(** The aircraft a cycle compares. *)
Definition positions_of (r : Redis) : list Aircraft.t :=
  map to_aircraft (filter airborne (hashes r).*2).

(** Haversine distance and altitude difference of two aircraft. *)
Definition distance_between (a b : Aircraft.t) : num :=
  CollisionDetectionService.calculateDistance
    (Aircraft.latitude a) (Aircraft.longitude a)
    (Aircraft.latitude b) (Aircraft.longitude b).

Definition altitude_difference (a b : Aircraft.t) : num :=
  Math_abs (Aircraft.altitude a - Aircraft.altitude b).

(** The condition under which [checkPairCollision] answers with an alert. *)
Definition unsafe (this : CollisionDetectionService.t) (a b : Aircraft.t) : bool :=
  (distance_between a b <? CollisionDetectionService.SAFE_DISTANCE_KM this)%num
  && (altitude_difference a b <? CollisionDetectionService.SAFE_ALTITUDE_DIFF_FT this)%num.

(** The alert of a pair, given the two readings of the clock. *)
Definition pair_alert (a b : Aircraft.t) (now timestamp : N) : CollisionAlert.t :=
  CollisionAlert.mk
    (Aircraft.callsign a +:+ "-" +:+ Aircraft.callsign b +:+ "-" +:+ pretty now)
    (Aircraft.callsign a) (Aircraft.callsign b)
    (parseFloat_toFixed2 (distance_between a b))
    (Math_round (altitude_difference a b))
    (CollisionDetectionService.calculateSeverity (distance_between a b)
       (altitude_difference a b))
    (CollisionDetectionService.snapshot a, CollisionDetectionService.snapshot b)
    timestamp.

(** An alert and the pair it was raised for. *)
Definition raised_for (alert : CollisionAlert.t) (p : Aircraft.t * Aircraft.t) : Prop :=
  ∃ now timestamp, alert = pair_alert p.1 p.2 now timestamp.

(** An alert about the two callsigns, in either order. *)
Definition alert_for (c1 c2 : string) (alert : CollisionAlert.t) : Prop :=
  (CollisionAlert.aircraft1 alert = c1 ∧ CollisionAlert.aircraft2 alert = c2) ∨
  (CollisionAlert.aircraft1 alert = c2 ∧ CollisionAlert.aircraft2 alert = c1).

#[global] Instance alert_for_dec c1 c2 alert : Decision (alert_for c1 c2 alert).
Proof. unfold alert_for. apply _. Defined.

(** A pair of aircraft with the two callsigns, in either order. *)
Definition pair_for (c1 c2 : string) (p : Aircraft.t * Aircraft.t) : Prop :=
  (Aircraft.callsign p.1 = c1 ∧ Aircraft.callsign p.2 = c2) ∨
  (Aircraft.callsign p.1 = c2 ∧ Aircraft.callsign p.2 = c1).

#[global] Instance pair_for_dec c1 c2 p : Decision (pair_for c1 c2 p).
Proof. unfold pair_for. apply _. Defined.

(** The pairs the two loops of [checkCollisionRisks] visit, in their order. *)
Fixpoint all_pairs {A : Type} (l : list A) : list (A * A) :=
  match l with
  | [] => []
  | x :: l' => map (pair x) l' ++ all_pairs l'
  end.

(** The haversine term of two points over the reals, and the distance on
    the sphere for a haversine term [a], in km. *)
Definition hav (lat1 lon1 lat2 lon2 : R) : R :=
  (sin ((lat2 - lat1) * PI / 180 / 2) * sin ((lat2 - lat1) * PI / 180 / 2) +
   cos (lat1 * PI / 180) * cos (lat2 * PI / 180) *
   sin ((lon2 - lon1) * PI / 180 / 2) * sin ((lon2 - lon1) * PI / 180 / 2))%R.

Definition central_distance (a : R) : R :=
  (6371 * (2 * atan (sqrt a / sqrt (1 - a))))%R.

(** ** The alerts in the store *)

(** What [storeAlert] does to the Redis store. *)
Definition stored (key_prefix list_key : string) (id : string) (value : Json) (r : Redis)
  : Redis :=
  lTrim list_key 0 99 (lPush list_key value (set (key_prefix +:+ id) value 300 r)).

Definition store_collision (r : Redis) (alert : CollisionAlert.t) : Redis :=
  stored "alert:collision:" "alerts:collision:active" (CollisionAlert.id alert)
    (JCollision alert) r.

Definition store_altitude (r : Redis) (alert : AltitudeAlert.t) : Redis :=
  stored "alert:low-altitude:" "alerts:altitude:active" (AltitudeAlert.id alert)
    (JAltitude alert) r.

(** The world after the alerts have been stored, one after the other. *)
Definition store_collision_alerts (alerts : list CollisionAlert.t) (w : World) : World :=
  foldl (λ w alert, world_after (CollisionDetectionService.storeAlert alert) w) w alerts.

Definition store_altitude_alerts (alerts : list AltitudeAlert.t) (w : World) : World :=
  foldl (λ w alert, world_after (AltitudeCheckService.storeAlert alert) w) w alerts.

(** ** Altitude check *)

(** The point lies in the circle of a zone of the graph. *)
Definition inside_zone (db : Neo4j) (latitude longitude : num)
    (az : Airport.t * Zone.t) : Prop :=
  az ∈ has_zone db ∧
  (point_distance db (latitude, longitude) (Zone.latitude az.2, Zone.longitude az.2)
     <? Zone.radiusMeters az.2)%num = true.

(** The answer of the zone lookup; it depends on the graph only. *)
Definition zone_info (db : Neo4j) (latitude longitude : num) : ZoneInfo.t :=
  result (AltitudeCheckService.getAirportZoneInfo latitude longitude)
    (mkWorld (mkRedis [] ∅ ∅) db (mkMongoDB []) (λ _, 0%N) 0).

(** The entry of the monitored snapshot for an entry of the position
    store. *)
Definition info_of (db : Neo4j) (h : Hash.t) : AircraftInfo.t :=
  let zone := zone_info db (Hash.latitude h) (Hash.longitude h) in
  AircraftInfo.mk (Hash.callsign h) (Hash.altitude h) (Hash.latitude h) (Hash.longitude h)
    (or_else (Hash.velocity h) (Fin 0)) (or_else (Hash.heading h) (Fin 0))
    (ZoneInfo.inZone zone) (ZoneInfo.airportName zone) (ZoneInfo.zoneName zone)
    (ZoneInfo.distance zone).

(** Below the altitude floor. *)
Definition low (this : AltitudeCheckService.t) (h : Hash.t) : Prop :=
  (Hash.altitude h <? AltitudeCheckService.MIN_SAFE_ALTITUDE_FT this)%num = true.

#[global] Instance low_dec this h : Decision (low this h).
Proof. unfold low. apply _. Defined.

(** The alert of a low aircraft, given the two readings of the clock. *)
Definition altitude_alert (db : Neo4j) (h : Hash.t) (now timestamp : N) : AltitudeAlert.t :=
  let zone := zone_info db (Hash.latitude h) (Hash.longitude h) in
  if ZoneInfo.inZone zone then
    AltitudeAlert.mk (Hash.callsign h +:+ "-" +:+ pretty now)
      (Hash.callsign h) (Hash.altitude h) (Hash.latitude h) (Hash.longitude h)
      (or_else (Hash.velocity h) (Fin 0)) (or_else (Hash.heading h) (Fin 0))
      SAFE
      ("Aircraft in " +:+ AltitudeCheckService.template (ZoneInfo.airportName zone) +:+ " "
         +:+ AltitudeCheckService.template (ZoneInfo.zoneName zone) +:+ " - Normal operations")
      true (ZoneInfo.airportName zone) (ZoneInfo.zoneName zone) (ZoneInfo.distance zone)
      timestamp
  else
    AltitudeAlert.mk (Hash.callsign h +:+ "-" +:+ pretty now)
      (Hash.callsign h) (Hash.altitude h) (Hash.latitude h) (Hash.longitude h)
      (or_else (Hash.velocity h) (Fin 0)) (or_else (Hash.heading h) (Fin 0))
      (AltitudeCheckService.calculateSeverity (Hash.altitude h))
      "Aircraft flying below safe altitude outside airport zone"
      false None None (ZoneInfo.distance zone) timestamp.

Definition altitude_raised_for (db : Neo4j) (alert : AltitudeAlert.t) (h : Hash.t) : Prop :=
  ∃ now timestamp, alert = altitude_alert db h now timestamp.

(** The alerts that are written to the store. *)
Definition is_risk (alert : AltitudeAlert.t) : Prop := AltitudeAlert.severity alert ≠ SAFE.

#[global] Instance is_risk_dec alert : Decision (is_risk alert).
Proof. unfold is_risk. apply _. Defined.


(** ** Flight monitor *)

(** A text without the special characters of a pattern. *)
Definition plain (s : string) : Prop :=
  Forall (λ c, c ≠ "*"%char ∧ c ≠ "?"%char ∧ c ≠ "["%char ∧ c ≠ "\"%char)
    (String.list_ascii_of_string s).

(** The status of a schedule when it has one, and the given text when it
    has none. *)
Definition status_or (schedule : Schedule.t) (otherwise : string) : string :=
  match Schedule.status schedule with
  | Some s => if decide (s = "") then otherwise else s
  | None => otherwise
  end.

(** ** Worlds of the examples *)

Definition empty_redis : Redis := mkRedis [] ∅ ∅.

(** A database whose [point.distance] is the haversine distance, in
    meters. *)
Definition haversine_meters (p q : num * num) : num :=
  (CollisionDetectionService.calculateDistance p.1 p.2 q.1 q.2 * Fin 1000)%num.

Definition empty_neo4j : Neo4j := mkNeo4j [] [] [] [] haversine_meters false.

Definition world_of (r : Redis) (g : Neo4j) (m : MongoDB) : World :=
  mkWorld r g m (λ n, N.of_nat n) 0.

Definition empty_world : World := world_of empty_redis empty_neo4j (mkMongoDB []).

(** The two aircraft of the end-to-end scenario, 500 ft apart in
    altitude. *)
Definition lat_a : R := (501 / 10)%R.
Definition lon_a : R := (86 / 10)%R.
Definition lat_b : R := (5013 / 100)%R.
Definition lon_b : R := (861 / 100)%R.

Definition hash_a : Hash.t :=
  Hash.mk "DLH401" (Fin lat_a) (Fin lon_a) (Fin 25000) (Fin 450) (Fin 90) "false" "t0".
Definition hash_b : Hash.t :=
  Hash.mk "UAL902" (Fin lat_b) (Fin lon_b) (Fin 25500) (Fin 450) (Fin 270) "false" "t0".

Definition scenario_a : Aircraft.t := to_aircraft hash_a.
Definition scenario_b : Aircraft.t := to_aircraft hash_b.

Definition scenario_redis : Redis :=
  mkRedis [(FlightMonitorService.key_of "DLH401", hash_a);
           (FlightMonitorService.key_of "UAL902", hash_b)] ∅ ∅.

Definition scenario_world : World :=
  world_of scenario_redis empty_neo4j (mkMongoDB []).

(** Alerts to fill the lists of active alerts, raised at time [n]. *)
Definition sample_collision_alert (n : nat) : CollisionAlert.t :=
  pair_alert scenario_a scenario_b (N.of_nat n) (N.of_nat n).

Definition sample_altitude_alert (n : nat) : AltitudeAlert.t :=
  AltitudeAlert.mk ("EZY8492-" +:+ pretty n) "EZY8492" (Fin 450) (Fin lat_a) (Fin lon_a)
    (Fin 140) (Fin 90) CRITICAL
    "Aircraft flying below safe altitude outside airport zone"
    false None None None (N.of_nat n).

(** Frankfurt and its approach zone of 10 km, and three aircraft: one low
    outside the zone, one low above the airport, one at cruising
    altitude. *)
Definition fra_lat : R := (500379 / 10000)%R.
Definition fra_lon : R := (85622 / 10000)%R.

Definition fra : Airport.t := Airport.mk "Frankfurt Airport" "FRA" (Fin fra_lat) (Fin fra_lon).
Definition fra_approach : Zone.t :=
  Zone.mk "Approach Zone" (Fin fra_lat) (Fin fra_lon) (Fin 10000).

Definition fra_neo4j : Neo4j :=
  mkNeo4j [fra] [(fra, fra_approach)] [] [] haversine_meters false.

Definition hash_low_out : Hash.t :=
  Hash.mk "EZY8492" (Fin (5025 / 100)) (Fin (875 / 100)) (Fin 450) (Fin 140) (Fin 90)
    "false" "t0".
Definition hash_low_in : Hash.t :=
  Hash.mk "RYR7384" (Fin fra_lat) (Fin fra_lon) (Fin 800) (Fin 130) (Fin 70) "false" "t0".

Definition altitude_redis : Redis :=
  mkRedis [(FlightMonitorService.key_of "EZY8492", hash_low_out);
           (FlightMonitorService.key_of "RYR7384", hash_low_in);
           (FlightMonitorService.key_of "DLH401", hash_a)] ∅ ∅.

Definition altitude_world : World := world_of altitude_redis fra_neo4j (mkMongoDB []).

(** A schedule of flight LH400, and a live aircraft whose callsign starts
    with that flight number. *)
Definition schedule_LH400 : Schedule.t := Schedule.mk "LH400" (Some "D-AIMA") (Some "active").

Definition scheduled_world : World :=
  world_of empty_redis empty_neo4j (mkMongoDB [schedule_LH400]).

Definition hash_LH4001 : Hash.t :=
  Hash.mk "LH4001" (Fin lat_a) (Fin lon_a) (Fin 5000) (Fin 250) (Fin 90) "false" "t0".

Definition prefix_world : World :=
  world_of (mkRedis [(FlightMonitorService.key_of "LH4001", hash_LH4001)] ∅ ∅)
    empty_neo4j (mkMongoDB [schedule_LH400]).

(** Two gates of one terminal, one of them with a flight, and two live
    aircraft, one of them on the ground. *)
Definition gates_neo4j : Neo4j :=
  mkNeo4j [fra] [(fra, fra_approach)]
    [(Gate.mk 1 "B2" None (Some 1%N), "Terminal 1");
     (Gate.mk 2 "A1" (Some "occupied") None, "Terminal 1")]
    [(Some "DLH401", 2)] haversine_meters false.

Definition hash_ground : Hash.t :=
  Hash.mk "BAW117" (Fin fra_lat) (Fin fra_lon) (Fin 0) (Fin 0) (Fin 0) "true" "t0".

Definition summary_world : World :=
  world_of (mkRedis [(FlightMonitorService.key_of "DLH401", hash_a);
                     (FlightMonitorService.key_of "BAW117", hash_ground)] ∅ ∅)
    gates_neo4j (mkMongoDB [schedule_LH400]).

(** ** Further vocabulary *)

(** The rank of a severity: the higher, the more severe. *)
Definition severity_rank (s : Severity) : nat :=
  match s with
  | CRITICAL => 3
  | HIGH => 2
  | MEDIUM => 1
  | SAFE => 0
  end.

(** The latest first. *)
Definition latest_first (a b : Json) : Prop := (json_timestamp b <= json_timestamp a)%N.

(** The entries [KEYS aircraft:*:position] and [HGETALL] hand to a cycle of
    a detector, in the order of the keys. *)
Definition read_hashes (r : Redis) : list Hash.t :=
  map (λ k, hGetAll k r) (keys "aircraft:*:position" r).

(** The values of the string keys that match a pattern. *)
Definition stored_under (pattern : string) (r : Redis) (a : Json) : Prop :=
  ∃ k ttl, glob_match pattern k = true ∧ strings r !! k = Some (a, ttl).

(** The view of a live entry, with the gate and the schedule the world
    has for its callsign. *)
Definition view_of (w : World) (h : Hash.t) : Flight.t :=
  FlightMonitorService.live_view h
    (result (FlightMonitorService.getGateAssignment (Hash.callsign h)) w)
    (result (FlightMonitorService.getFlightSchedule (Hash.callsign h)) w).

(** The order of the gate list: by terminal, then by gate number. *)
Definition gate_status_le (g1 g2 : GateRow.t) : Prop :=
  match String.compare (GateRow.terminal g1) (GateRow.terminal g2) with
  | Lt => True
  | Eq => String.leb (GateRow.gate g1) (GateRow.gate g2) = true
  | Gt => False
  end.

(** An aircraft that has a position. *)
Definition located (aircraft : Live.t) : Prop :=
  is_Some (Live.latitude aircraft) ∧ is_Some (Live.longitude aircraft).

#[global] Instance located_dec aircraft : Decision (located aircraft).
Proof. unfold located. apply _. Defined.

(** The hash [storeLivePositions] writes for an aircraft that has a
    position. *)
Definition hash_of (aircraft : Live.t) : Hash.t :=
  Hash.mk (Live.callsign aircraft)
    (default NaN (Live.latitude aircraft)) (default NaN (Live.longitude aircraft))
    (Live.altitude aircraft) (Live.velocity aircraft) (Live.heading aircraft)
    (FlightMonitorService.bool_toString (Live.on_ground aircraft))
    (Live.timestamp aircraft).

(** The aircraft of a batch before the first one without a position. *)
Fixpoint stored_prefix (positions : list Live.t) : list Live.t :=
  match positions with
  | [] => []
  | aircraft :: positions' =>
    if decide (located aircraft) then aircraft :: stored_prefix positions' else []
  end.

(** The document a flight is written to: the one of its flight number, or
    a new one when the collection has none. *)
Definition document_for (flight : ScheduleInput.t) (docs : list Schedule.t) : Schedule.t :=
  default (Schedule.mk (ScheduleInput.flightNumber flight) None None)
    (head (filter (λ d, Schedule.flightNumber d = ScheduleInput.flightNumber flight) docs)).

(** The flights assigned to a gate, and a gate that has one. *)
Definition flights_at (db : Neo4j) (gt : Gate.t * string) : list (option string * nat) :=
  filter (λ fa, fa.2 = Gate.node gt.1) (assigned_to db).

Definition occupied (db : Neo4j) (gt : Gate.t * string) : Prop := flights_at db gt ≠ [].

#[global] Instance occupied_dec db gt : Decision (occupied db gt).
Proof. unfold occupied. apply _. Defined.

(** The characters of a text after the white space at its start. *)
Fixpoint drop_spaces (l : list ascii) : list ascii :=
  match l with
  | [] => []
  | a :: l' => if Ascii.is_space a then drop_spaces l' else l
  end.

(** A batch as the ingestion hands it over: an aircraft, one without a
    position, and one more. *)
Definition live_DLH401 : Live.t :=
  Live.mk "DLH401" (Some (Fin lat_a)) (Some (Fin lon_a)) (Fin 25000) (Fin 450) (Fin 90)
    false "t0".

Definition live_nowhere : Live.t :=
  Live.mk "SWR12" None None (Fin 0) (Fin 0) (Fin 0) false "t0".

Definition live_UAL902 : Live.t :=
  Live.mk "UAL902" (Some (Fin lat_b)) (Some (Fin lon_b)) (Fin 25500) (Fin 450) (Fin 270)
    false "t0".

Definition live_batch : list Live.t := [live_DLH401; live_nowhere; live_UAL902].

(** Two flights for [storeSchedules]: a new status for flight LH400,
    without the aircraft, and a flight that has no document yet. *)
Definition update_LH400 : ScheduleInput.t :=
  ScheduleInput.mk "LH400" None (Some (Some "landed")).

Definition input_BA117 : ScheduleInput.t :=
  ScheduleInput.mk "BA117" (Some None) (Some (Some "scheduled")).






(** * Proofs *)

(** ** Numbers *)

Section Numbers.

Lemma lt_Fin (x y : R) : (Fin x <? Fin y)%num = true ↔ (x < y)%R.
Proof. unfold lt. apply bool_decide_eq_true. Qed.

Lemma lt_true_Fin (a b : num) :
  (a <? b)%num = true → ∃ x y, a = Fin x ∧ b = Fin y ∧ (x < y)%R.
Proof.
  destruct a as [| x], b as [| y]; try discriminate.
  intros H%lt_Fin. eauto.
Qed.


(** On numbers that are not [NaN], [>=] is the negation of [<]. *)
Lemma not_lt_ge (x : R) (b : num) :
  (Fin x <? b)%num = false → b ≠ NaN → (Fin x >=? b)%num = true.
Proof.
  destruct b as [| y]; [done |]. unfold ge, lt.
  intros H%bool_decide_eq_false _. by apply bool_decide_eq_true.
Qed.

End Numbers.

(** ** The monad *)

Section Monad.

Lemma bind_run {A B : Type} (m : M A) (f : A → M B) (w : World) :
  (m ≫= f) w = f (m w).1 (m w).2.
Proof. unfold mbind, M_bind. by destruct (m w). Qed.

Lemma ret_run {A : Type} (a : A) (w : World) : (mret a : M A) w = (a, w).
Proof. done. Qed.

Lemma redis_read_run {A : Type} (f : Redis → A) (w : World) :
  redis_read f w = (f (redis w), w).
Proof. done. Qed.

Lemma redis_write_run (f : Redis → Redis) (w : World) :
  redis_write f w = (tt, with_redis (f (redis w)) w).
Proof. done. Qed.

Lemma Date_now_run (w : World) : Date_now w = (clock w (ticks w), advance 1 w).
Proof. done. Qed.

Lemma advance_advance (n m : nat) (w : World) :
  advance n (advance m w) = advance (n + m) w.
Proof. unfold advance. cbn. f_equal. lia. Qed.

End Monad.

Create Rewrite HintDb run.
#[local] Hint Rewrite @bind_run @ret_run @redis_read_run redis_write_run Date_now_run : run.

Ltac run := autorewrite with run; cbn [fst snd].

(** ** Collision detection: one pair *)

Section Pair.

Import CollisionDetectionService.

Lemma checkPairCollision_run this a b w :
  checkPairCollision this a b w =
  if unsafe this a b
  then (Some (pair_alert a b (clock w (ticks w)) (clock w (S (ticks w)))), advance 2 w)
  else (None, w).
Proof.
  unfold checkPairCollision.
  change (calculateDistance _ _ _ _) with (distance_between a b).
  change (Math_abs _) with (altitude_difference a b).
  change (_ && _) with (unsafe this a b).
  destruct (unsafe this a b); [| done].
  run. by rewrite advance_advance.
Qed.

Lemma checkPairCollision_Some this a b w alert :
  result (checkPairCollision this a b) w = Some alert →
  unsafe this a b = true ∧
  alert = pair_alert a b (clock w (ticks w)) (clock w (S (ticks w))).
Proof.
  unfold result. rewrite checkPairCollision_run.
  destruct (unsafe this a b); cbn; [| done]. by intros [= <-].
Qed.

Lemma unsafe_true this a b :
  unsafe this a b = true ↔
  (distance_between a b <? SAFE_DISTANCE_KM this)%num = true ∧
  (altitude_difference a b <? SAFE_ALTITUDE_DIFF_FT this)%num = true.
Proof. unfold unsafe. by rewrite andb_true_iff. Qed.

End Pair.

(** ** The haversine distance over the reals *)

Section Haversine.

Local Open Scope R_scope.

Lemma calculateDistance_Fin lat1 lon1 lat2 lon2 :
  0 <= hav lat1 lon1 lat2 lon2 < 1 →
  CollisionDetectionService.calculateDistance (Fin lat1) (Fin lon1) (Fin lat2) (Fin lon2)
  = Fin (central_distance (hav lat1 lon1 lat2 lon2)).
Proof.
  intros [H0 H1].
  unfold CollisionDetectionService.calculateDistance, CollisionDetectionService.toRad.
  cbn [Math_PI sub mul div add lift2 Math_sin Math_cos lift1].
  fold (hav lat1 lon1 lat2 lon2).
  unfold Math_sqrt.
  rewrite !bool_decide_eq_false_2 by lra.
  cbn [Math_atan2 lift2 mul]. unfold atan2.
  rewrite bool_decide_eq_true_2; [done |].
  apply sqrt_lt_R0. lra.
Qed.

Lemma PI_gt_3 : 3 < PI.
Proof. pose proof PI2_3_2. lra. Qed.

Lemma sin_sq_le_pos (x : R) : 0 <= x → sin x * sin x <= x * x.
Proof.
  intros Hx. destruct (Rle_lt_or_eq_dec _ _ Hx) as [Hpos | <-].
  - pose proof (sin_lt_x x Hpos). pose proof (SIN_bound x).
    destruct (Rle_dec 1 x) as [H1 | H1]; [nra |].
    assert (0 <= sin x).
    { apply sin_ge_0; [lra |]. pose proof PI_gt_3. lra. }
    nra.
  - rewrite sin_0. lra.
Qed.

Lemma sin_sq_le (x : R) : sin x * sin x <= x * x.
Proof.
  destruct (Rle_dec 0 x) as [Hx | Hx]; [by apply sin_sq_le_pos |].
  pose proof (sin_sq_le_pos (- x) ltac:(lra)) as H.
  rewrite sin_neg in H. lra.
Qed.

(** The haversine term between the square of the sine of half the
    difference in latitude and the sum of the squares of the two half
    differences. *)
Lemma hav_bounds (lat1 lon1 lat2 lon2 : R) :
  -90 <= lat1 <= 90 → -90 <= lat2 <= 90 →
  let u := (lat2 - lat1) * PI / 180 / 2 in
  let v := (lon2 - lon1) * PI / 180 / 2 in
  sin u * sin u <= hav lat1 lon1 lat2 lon2 <= u * u + v * v.
Proof.
  intros H1 H2 u v. unfold hav. fold u v.
  pose proof PI_RGT_0 as Hpi.
  assert (0 <= cos (lat1 * PI / 180) <= 1) as Hc1.
  { split; [apply cos_ge_0; nra | apply COS_bound]. }
  assert (0 <= cos (lat2 * PI / 180) <= 1) as Hc2.
  { split; [apply cos_ge_0; nra | apply COS_bound]. }
  pose proof (sin_sq_le u) as Hu. pose proof (sin_sq_le v) as Hv.
  assert (0 <= sin v * sin v) as Hv0 by nra.
  set (su := sin u * sin u) in *. set (sv := sin v * sin v) in *.
  set (c1 := cos (lat1 * PI / 180)) in *. set (c2 := cos (lat2 * PI / 180)) in *.
  assert (0 <= c1 * c2 <= 1) as Hcc by nra.
  replace (c1 * c2 * sin v * sin v) with (c1 * c2 * sv) by (unfold sv; ring).
  assert (0 <= c1 * c2 * sv <= sv) as Hprod by nra.
  lra.
Qed.

Lemma hav_same (lat lon : R) : hav lat lon lat lon = 0.
Proof.
  unfold hav. replace ((lat - lat) * PI / 180 / 2) with 0 by lra.
  replace ((lon - lon) * PI / 180 / 2) with 0 by lra. rewrite sin_0. ring.
Qed.

Lemma central_distance_0 : central_distance 0 = 0.
Proof.
  unfold central_distance. rewrite sqrt_0. unfold Rdiv. rewrite Rmult_0_l, atan_0. ring.
Qed.

Lemma sin_lower_small (B : R) :
  0 <= B <= 1 → B - B * B * B / 6 - B * B * B * B * B * B * B / 5040 <= sin B.
Proof.
  intros HB. pose proof PI_gt_3.
  destruct (SIN B) as [Hlb _]; [lra | lra |].
  unfold sin_lb, sin_approx, sin_term in Hlb.
  cbn [sum_f_R0] in Hlb. rewrite !INR_IZR_INZ in Hlb.
  repeat match type of Hlb with
         | context [Z.of_nat ?n] =>
           let v := eval vm_compute in (Z.of_nat n) in
           change (Z.of_nat n) with v in Hlb
         end.
  cbn [pow Nat.mul Nat.add] in Hlb.
  assert (0 <= B * B * B * B * B) by (repeat apply Rmult_le_pos; lra).
  lra.
Qed.

(** The central angle [atan (sqrt a / sqrt (1 - a))] between two bounds. *)
Lemma half_angle_lower (a u : R) :
  0 <= a < 1 → 0 < u < PI / 2 → sin u * sin u <= a →
  u <= atan (sqrt a / sqrt (1 - a)).
Proof.
  intros Ha Hu Hsin.
  rewrite <- (atan_tan u) at 1 by lra.
  assert (0 < cos u) as Hcos by (apply cos_gt_0; lra).
  assert (0 <= sin u) as Hs by (apply sin_ge_0; lra).
  assert (0 < sqrt (1 - a)) as Hq by (apply sqrt_lt_R0; lra).
  pose proof (sqrt_sqrt a ltac:(lra)) as Ha2.
  pose proof (sqrt_sqrt (1 - a) ltac:(lra)) as Hq2.
  pose proof (sqrt_pos a) as Hp.
  pose proof (sin2_cos2 u) as Hsc. unfold Rsqr in Hsc.
  assert (sin u <= sqrt a) as H1 by nra.
  assert (sqrt (1 - a) <= cos u) as H2 by nra.
  assert (tan u <= sqrt a / sqrt (1 - a)) as Ht.
  { unfold tan. apply Rle_trans with (sqrt a / cos u).
    - apply Rmult_le_compat_r; [left; by apply Rinv_0_lt_compat | done].
    - apply Rmult_le_compat_l; [done |]. by apply Rinv_le_contravar. }
  destruct Ht as [Ht | ->]; [left; by apply atan_increasing | right; done].
Qed.

Lemma half_angle_upper (a b l : R) :
  0 <= a < 1 → 0 < b < PI / 2 → 0 < l <= sin b → a < l * l * (1 - a) →
  atan (sqrt a / sqrt (1 - a)) < b.
Proof.
  intros Ha Hb Hl Hal.
  rewrite <- (atan_tan b) by lra. apply atan_increasing.
  assert (0 < cos b) as Hcos by (apply cos_gt_0; lra).
  pose proof (COS_bound b) as Hcb.
  assert (0 < sqrt (1 - a)) as Hq by (apply sqrt_lt_R0; lra).
  pose proof (sqrt_sqrt a ltac:(lra)) as Ha2.
  pose proof (sqrt_sqrt (1 - a) ltac:(lra)) as Hq2.
  pose proof (sqrt_pos a) as Hp.
  assert (sqrt a < l * sqrt (1 - a)) as H1.
  { apply Rnot_le_lt. intros Hge.
    assert (0 <= l * sqrt (1 - a)) as H0 by (apply Rmult_le_pos; lra).
    pose proof (Rmult_le_compat _ _ _ _ H0 H0 Hge Hge) as Hsq.
    replace (l * sqrt (1 - a) * (l * sqrt (1 - a)))
      with (l * l * (sqrt (1 - a) * sqrt (1 - a))) in Hsq by ring.
    rewrite Ha2, Hq2 in Hsq. lra. }
  apply Rlt_le_trans with l.
  - apply Rmult_lt_reg_r with (sqrt (1 - a)); [done |].
    unfold Rdiv. rewrite Rmult_assoc, Rinv_l by lra. lra.
  - unfold tan. apply Rle_trans with (sin b); [lra |].
    apply Rmult_le_reg_r with (cos b); [done |].
    unfold Rdiv. rewrite Rmult_assoc, Rinv_l by lra. nra.
Qed.

(** The two aircraft of the scenario are between 3 km and 5 km apart. *)
Lemma scenario_distance :
  3 <= central_distance (hav lat_a lon_a lat_b lon_b) < 5.
Proof.
  pose proof (hav_bounds lat_a lon_a lat_b lon_b) as Hhav.
  unfold lat_a, lon_a, lat_b, lon_b in *.
  specialize (Hhav ltac:(lra) ltac:(lra)). cbv zeta in Hhav.
  replace ((5013 / 100 - 501 / 10) * PI / 180 / 2) with (PI / 12000) in Hhav by lra.
  replace ((861 / 100 - 86 / 10) * PI / 180 / 2) with (PI / 36000) in Hhav by lra.
  destruct Hhav as [Hlo Hhi].
  pose proof PI_gt_3 as Hpi3. pose proof PI_4 as Hpi4.
  assert (PI * PI <= 16) as Hpi2 by nra.
  set (a := hav _ _ _ _) in *. unfold central_distance.
  assert (0 <= a < 1) as Ha.
  { split; [| lra]. eapply Rle_trans; [| exact Hlo]. nra. }
  split.
  - pose proof (half_angle_lower a (PI / 12000) Ha ltac:(lra) Hlo). lra.
  - pose proof (sin_lower_small (5 / 12742) ltac:(lra)) as Hs.
    pose proof (half_angle_upper a (5 / 12742) (39 / 100000) Ha ltac:(lra)
                  ltac:(lra) ltac:(lra)).
    lra.
Qed.

(** The low aircraft of the example is more than 10 km from Frankfurt. *)
Lemma low_out_distance :
  10 < central_distance (hav (5025 / 100) (875 / 100) fra_lat fra_lon) ∧
  0 <= hav (5025 / 100) (875 / 100) fra_lat fra_lon < 1.
Proof.
  pose proof (hav_bounds (5025 / 100) (875 / 100) fra_lat fra_lon) as Hhav.
  unfold fra_lat, fra_lon in *.
  specialize (Hhav ltac:(lra) ltac:(lra)). cbv zeta in Hhav.
  replace ((500379 / 10000 - 5025 / 100) * PI / 180 / 2)
    with (- (2121 * PI / 3600000)) in Hhav by lra.
  replace ((85622 / 10000 - 875 / 100) * PI / 180 / 2)
    with (- (1878 * PI / 3600000)) in Hhav by lra.
  rewrite sin_neg in Hhav.
  replace (- sin (2121 * PI / 3600000) * - sin (2121 * PI / 3600000))
    with (sin (2121 * PI / 3600000) * sin (2121 * PI / 3600000)) in Hhav by ring.
  destruct Hhav as [Hlo Hhi].
  pose proof PI_gt_3 as Hpi3. pose proof PI_4 as Hpi4.
  assert (PI * PI <= 16) as Hpi2 by nra.
  set (a := hav _ _ _ _) in *. unfold central_distance.
  assert (0 <= a < 1) as Ha.
  { split; [| lra]. eapply Rle_trans; [| exact Hlo]. nra. }
  split; [| done].
  pose proof (half_angle_lower a (2121 * PI / 3600000) Ha ltac:(lra) Hlo). lra.
Qed.

End Haversine.

(** ** The model on small inputs *)

Section Examples.

Example glob_position_key_DLH401 :
  glob_match "aircraft:*:position" "aircraft:DLH401:position" = true.
Proof. reflexivity. Qed.

Example glob_position_not_alert :
  glob_match "aircraft:*:position" "alert:collision:DLH401-UAL902-17" = false.
Proof. reflexivity. Qed.

Example glob_prefix_LH4 :
  glob_match "aircraft:LH4*:position" "aircraft:LH4001:position" = true.
Proof. reflexivity. Qed.

Example glob_any : glob_match "h?llo" "hello" = true ∧ glob_match "h?llo" "hllo" = false.
Proof. split; reflexivity. Qed.

Example glob_class :
  glob_match "h[ae]llo" "hallo" = true ∧ glob_match "h[ae]llo" "hillo" = false ∧
  glob_match "h[^e]llo" "hallo" = true ∧ glob_match "h[a-c]llo" "hbllo" = true.
Proof. repeat split; reflexivity. Qed.

Example glob_escape :
  glob_match "h\*llo" "h*llo" = true ∧ glob_match "h\*llo" "hello" = false.
Proof. split; reflexivity. Qed.

Example list_range_all_of : list_range [1; 2; 3; 4] 0 (-1) = [1; 2; 3; 4].
Proof. reflexivity. Qed.

Example list_range_inner : list_range [1; 2; 3; 4] 1 (-2) = [2; 3].
Proof. reflexivity. Qed.

Example list_range_beyond : list_range [1; 2; 3; 4] 2 99 = [3; 4].
Proof. reflexivity. Qed.

Example list_range_before : list_range [1; 2; 3; 4] 0 (-9) = [].
Proof. reflexivity. Qed.

Example list_range_from_end : list_range [1; 2; 3; 4] (-9) 1 = [1; 2].
Proof. reflexivity. Qed.

Example trim_callsign : FlightMonitorService.trim "  LH400 " = "LH400".
Proof. reflexivity. Qed.

Example key_of_DLH401 : FlightMonitorService.key_of "DLH401" = "aircraft:DLH401:position".
Proof. reflexivity. Qed.

Example gate_status_sorted :
  result FlightMonitorService.getGateStatus summary_world =
  [GateRow.mk "A1" "Terminal 1" "occupied" (Some "DLH401") None;
   GateRow.mk "B2" "Terminal 1" "available" None (Some 1%N)].
Proof. reflexivity. Qed.

Example gate_assignment_DLH401 :
  result (FlightMonitorService.getGateAssignment "DLH401") summary_world
  = Some ("A1", "Terminal 1").
Proof. reflexivity. Qed.

Example schedule_by_registration :
  result (FlightMonitorService.getFlightSchedule " D-AIMA ") summary_world
  = Some schedule_LH400.
Proof. reflexivity. Qed.

Example summary_of_two_flights :
  result FlightMonitorService.getSummary summary_world = Summary.mk 2 1 1 2 1 1 0.
Proof. reflexivity. Qed.

Example live_flight_statuses :
  Flight.status <$> result FlightMonitorService.getLiveFlights summary_world
  = ["in_flight"; "on_ground"].
Proof. reflexivity. Qed.

End Examples.

(** ** Symmetry of the pair check *)

Section Symmetry.

Import CollisionDetectionService.

Lemma calculateDistance_hav (lat1 lon1 lat2 lon2 : R) :
  calculateDistance (Fin lat1) (Fin lon1) (Fin lat2) (Fin lon2) =
  (Fin 6371 * (Fin 2 * Math_atan2 (Math_sqrt (Fin (hav lat1 lon1 lat2 lon2)))
                         (Math_sqrt (Fin (1 - hav lat1 lon1 lat2 lon2)))))%num.
Proof. reflexivity. Qed.

Lemma hav_sym (lat1 lon1 lat2 lon2 : R) :
  hav lat1 lon1 lat2 lon2 = hav lat2 lon2 lat1 lon1.
Proof.
  unfold hav.
  replace ((lat1 - lat2) * PI / 180 / 2)%R with (- ((lat2 - lat1) * PI / 180 / 2))%R by lra.
  replace ((lon1 - lon2) * PI / 180 / 2)%R with (- ((lon2 - lon1) * PI / 180 / 2))%R by lra.
  rewrite !sin_neg. ring.
Qed.

Lemma calculateDistance_sym (lat1 lon1 lat2 lon2 : num) :
  calculateDistance lat1 lon1 lat2 lon2 = calculateDistance lat2 lon2 lat1 lon1.
Proof.
  destruct lat1 as [| x1], lon1 as [| y1], lat2 as [| x2], lon2 as [| y2];
    try reflexivity.
  by rewrite !calculateDistance_hav, (hav_sym x1 y1 x2 y2).
Qed.

Lemma distance_between_sym (a b : Aircraft.t) :
  distance_between a b = distance_between b a.
Proof. apply calculateDistance_sym. Qed.

Lemma altitude_difference_sym (a b : Aircraft.t) :
  altitude_difference a b = altitude_difference b a.
Proof.
  unfold altitude_difference.
  destruct (Aircraft.altitude a) as [| x], (Aircraft.altitude b) as [| y];
    try reflexivity.
  cbn. by rewrite Rabs_minus_sym.
Qed.

Lemma unsafe_sym this (a b : Aircraft.t) : unsafe this a b = unsafe this b a.
Proof. unfold unsafe. by rewrite distance_between_sym, altitude_difference_sym. Qed.

End Symmetry.

(** ** Keys and patterns *)

Section Keys.

Import FlightMonitorService.

Lemma list_ascii_of_string_app (s1 s2 : string) :
  String.list_ascii_of_string (s1 +:+ s2) =
  String.list_ascii_of_string s1 ++ String.list_ascii_of_string s2.
Proof. induction s1 as [| a s1 IH]; [done |]. cbn. by rewrite <- IH. Qed.

Lemma list_ascii_of_string_inj (s1 s2 : string) :
  String.list_ascii_of_string s1 = String.list_ascii_of_string s2 → s1 = s2.
Proof.
  intros H. rewrite <- (String.string_of_list_ascii_of_string s1),
    <- (String.string_of_list_ascii_of_string s2). by rewrite H.
Qed.

Lemma toks_match_lits (post : list ascii) : toks_match (map TLit post) post = true.
Proof.
  induction post as [| c post IH]; [done |].
  cbn. by rewrite bool_decide_eq_true_2, IH.
Qed.

Lemma toks_match_star (ts : list GlobTok) (mid s : list ascii) :
  toks_match ts s = true → toks_match (TStar :: ts) (mid ++ s) = true.
Proof.
  intros Hs. induction mid as [| c mid IH].
  - cbn. destruct s; cbn in *; by rewrite Hs.
  - cbn in *. rewrite IH. apply orb_true_r.
Qed.

Lemma toks_match_lits_app (pre : list ascii) (ts : list GlobTok) (s : list ascii) :
  toks_match (map TLit pre ++ ts) (pre ++ s) = toks_match ts s.
Proof.
  induction pre as [| c pre IH]; [done |].
  cbn. by rewrite bool_decide_eq_true_2, IH.
Qed.

(** A pattern [pre*post] without other special characters matches the
    keys that start with [pre] and end with [post], and no other. *)
Lemma toks_match_star_inv (ts : list GlobTok) (s : list ascii) :
  toks_match (TStar :: ts) s = true →
  ∃ mid rest, s = mid ++ rest ∧ toks_match ts rest = true.
Proof.
  induction s as [| c s IH].
  - cbn. rewrite orb_false_r. intros H. by exists [], [].
  - cbn. intros [H | H]%orb_true_iff.
    + by exists [], (c :: s).
    + destruct (IH H) as (mid & rest & -> & Hrest). by exists (c :: mid), rest.
Qed.

Lemma toks_match_lits_inv (pre : list ascii) (ts : list GlobTok) (s : list ascii) :
  toks_match (map TLit pre ++ ts) s = true →
  ∃ rest, s = pre ++ rest ∧ toks_match ts rest = true.
Proof.
  revert s. induction pre as [| c pre IH]; intros s.
  - intros H. by exists s.
  - destruct s as [| d s]; [done |]. cbn.
    intros [Hc Hs]%andb_true_iff. apply bool_decide_eq_true in Hc as ->.
    destruct (IH s Hs) as (rest & -> & Hrest). by exists rest.
Qed.

Lemma toks_match_nil_inv (s : list ascii) : toks_match [] s = true → s = [].
Proof. by destruct s. Qed.

Lemma glob_position_key (callsign : string) :
  glob_match "aircraft:*:position" (key_of callsign) = true.
Proof.
  unfold glob_match, key_of. rewrite !list_ascii_of_string_app.
  change (glob_tokens None (String.list_ascii_of_string "aircraft:*:position"))
    with (map TLit (String.list_ascii_of_string "aircraft:") ++
          TStar :: map TLit (String.list_ascii_of_string ":position")).
  rewrite toks_match_lits_app. apply toks_match_star, toks_match_lits.
Qed.

Lemma key_of_inj : Inj (=) (=) key_of.
Proof.
  intros c1 c2 H. unfold key_of in H.
  apply String.app_inj in H. apply list_ascii_of_string_inj.
  apply (f_equal String.list_ascii_of_string) in H.
  rewrite !list_ascii_of_string_app in H. by apply app_inv_tail in H.
Qed.

Lemma keys_all (r : Redis) :
  store_wf r → keys "aircraft:*:position" r = (hashes r).*1.
Proof.
  intros [_ Hkey]. unfold keys.
  assert (Forall (λ k, glob_match "aircraft:*:position" k = true) (hashes r).*1) as Hall.
  { apply Forall_forall. intros k [[k' h] [-> Hin]]%list_elem_of_fmap.
    rewrite (Hkey _ _ Hin). apply glob_position_key. }
  induction Hall as [| k ks Hk _ IH]; [done |].
  by rewrite filter_cons_True, IH.
Qed.

Lemma assoc_lookup_NoDup {V : Type} (l : list (string * V)) (k : string) (v : V) :
  NoDup l.*1 → (k, v) ∈ l → assoc_lookup k l = Some v.
Proof.
  induction l as [| [k' v'] l IH]; [by intros _ ?%elem_of_nil |].
  rewrite fmap_cons, NoDup_cons. cbn. intros [Hk' Hnd] Hin.
  apply elem_of_cons in Hin as [[= -> ->] | Hin].
  - by rewrite bool_decide_eq_true_2.
  - rewrite bool_decide_eq_false_2; [by apply IH |].
    intros ->. apply Hk', list_elem_of_fmap. by exists (k, v).
Qed.

Lemma hGetAll_keys (r : Redis) :
  NoDup (hashes r).*1 → map (λ k, hGetAll k r) (hashes r).*1 = (hashes r).*2.
Proof.
  intros Hnd. unfold hGetAll. rewrite <- list_fmap_compose.
  apply list_fmap_ext. intros i [k h] Hi. cbn.
  rewrite (assoc_lookup_NoDup _ k h Hnd); [done |].
  by eapply list_elem_of_lookup_2.
Qed.

Lemma store_wf_callsigns (r : Redis) :
  store_wf r → NoDup (Hash.callsign <$> (hashes r).*2).
Proof.
  intros [Hnd Hkey].
  apply (NoDup_fmap_1 key_of).
  replace (key_of <$> (Hash.callsign <$> (hashes r).*2)) with (hashes r).*1; [done |].
  rewrite <- !list_fmap_compose. apply list_fmap_ext. intros i [k h] Hi. cbn.
  apply Hkey. by eapply list_elem_of_lookup_2.
Qed.

End Keys.

(** ** The position store as the ingestion writes it *)

Section Ingestion.

Import FlightMonitorService.

Lemma assoc_set_keys {V : Type} (k : string) (v : V) (l : list (string * V)) :
  (assoc_set k v l).*1 = if decide (k ∈ l.*1) then l.*1 else l.*1 ++ [k].
Proof.
  induction l as [| [k' v'] l IH]; [done |]. cbn.
  destruct (decide (k' = k)) as [-> | Hne].
  - rewrite bool_decide_eq_true_2 by done. rewrite decide_True by left. done.
  - rewrite bool_decide_eq_false_2 by done. cbn. rewrite IH.
    destruct (decide (k ∈ l.*1)) as [Hin | Hin].
    + rewrite decide_True by (by right). done.
    + rewrite decide_False; [done |]. intros [? | ?]%elem_of_cons; congruence.
Qed.

Lemma elem_of_assoc_set {V : Type} (k : string) (v : V) (l : list (string * V))
    (k' : string) (v' : V) :
  (k', v') ∈ assoc_set k v l → (k' = k ∧ v' = v) ∨ (k', v') ∈ l.
Proof.
  induction l as [| [k0 v0] l IH]; cbn.
  - intros [= -> ->]%list_elem_of_singleton. by left.
  - destruct (bool_decide (k0 = k)) eqn:Hk.
    + apply bool_decide_eq_true in Hk as ->.
      intros [[= -> ->] | Hin]%elem_of_cons; [by left | right; by right].
    + intros [[= -> ->] | Hin]%elem_of_cons; [right; left |].
      destruct (IH Hin); [by left | right; by right].
Qed.

Lemma hSet_wf (h : Hash.t) (r : Redis) :
  store_wf r → store_wf (hSet (key_of (Hash.callsign h)) h r).
Proof.
  intros [Hnd Hkey]. split; cbn.
  - rewrite assoc_set_keys. case_decide; [done |].
    apply NoDup_app. split_and!; [done | | apply NoDup_singleton].
    intros k Hk ->%list_elem_of_singleton. done.
  - intros k h' [[-> ->] | Hin]%elem_of_assoc_set; [done | by apply Hkey].
Qed.

(** [storeLivePositions] keeps the position store well formed. *)
Lemma storeLivePositions_wf (positions : list Live.t) (w : World) :
  store_wf (redis w) → store_wf (redis (world_after (storeLivePositions positions) w)).
Proof.
  unfold world_after. revert w. induction positions as [| a positions IH]; intros w Hwf.
  - done.
  - cbn [storeLivePositions].
    destruct (Live.latitude a) as [latitude |]; [| done].
    destruct (Live.longitude a) as [longitude |]; [| done].
    rewrite bind_run, redis_write_run. cbn [fst snd].
    apply IH. cbn [redis with_redis].
    apply (hSet_wf (Hash.mk _ _ _ _ _ _ _ _)), Hwf.
Qed.

Lemma empty_store_wf : store_wf empty_redis.
Proof. split; [constructor | by intros k h ?%elem_of_nil]. Qed.

End Ingestion.

(** ** Collision detection: one cycle *)

Section Cycle.

Import CollisionDetectionService.

Lemma collision_storeAlert_run (alert : CollisionAlert.t) (w : World) :
  storeAlert alert w = (tt, with_redis (store_collision (redis w) alert) w).
Proof. reflexivity. Qed.

Lemma read_positions_run (ks : list string) (acc : list Aircraft.t) (w : World) :
  read_positions ks acc w =
  (acc ++ map to_aircraft (filter airborne (map (λ k, hGetAll k (redis w)) ks)), w).
Proof.
  revert acc. induction ks as [| k ks IH]; intros acc.
  - cbn. by rewrite app_nil_r.
  - cbn [read_positions map]. run.
    destruct (decide (airborne (hGetAll k (redis w)))) as [[Hc Hg] | Hn].
    + rewrite filter_cons_True by done.
      rewrite !bool_decide_eq_true_2 by done. cbn [andb].
      rewrite IH. by rewrite <- app_assoc.
    + rewrite filter_cons_False by done.
      replace (_ && _) with false; [apply IH |].
      symmetry. apply andb_false_iff.
      destruct (decide (Hash.callsign (hGetAll k (redis w)) = "")) as [He | He].
      * left. by apply bool_decide_eq_false; intros ?.
      * right. apply bool_decide_eq_false. intros Hg. by apply Hn.
Qed.

Lemma check_against_run this pi rest acc w :
  ∃ new,
    result (check_against this pi rest acc) w = acc ++ new ∧
    Forall2 raised_for new
      (filter (λ p, unsafe this p.1 p.2 = true) (map (pair pi) rest)) ∧
    world_after (check_against this pi rest acc) w =
      advance (2 * length new) (with_redis (foldl store_collision (redis w) new) w).
Proof.
  unfold result, world_after.
  revert acc w. induction rest as [| pj rest IH]; intros acc w.
  - exists []. cbn. rewrite app_nil_r. by destruct w.
  - cbn [check_against map]. run. rewrite checkPairCollision_run.
    destruct (unsafe this pi pj) eqn:Hu; cbn [fst snd].
    + rewrite filter_cons_True by done. run. rewrite collision_storeAlert_run. cbn [snd].
      edestruct IH as (new & -> & HF & ->).
      eexists (_ :: new). rewrite <- app_assoc. split_and!; [done | |].
      * constructor; [| done]. by eexists _, _.
      * cbn. unfold advance, with_redis. cbn. do 2 f_equal. lia.
    + rewrite filter_cons_False by (cbn; congruence). apply IH.
Qed.

Lemma check_pairs_run this ps acc w :
  ∃ new,
    result (check_pairs this ps acc) w = acc ++ new ∧
    Forall2 raised_for new (filter (λ p, unsafe this p.1 p.2 = true) (all_pairs ps)) ∧
    world_after (check_pairs this ps acc) w =
      advance (2 * length new) (with_redis (foldl store_collision (redis w) new) w).
Proof.
  unfold result, world_after.
  revert acc w. induction ps as [| pi ps IH]; intros acc w.
  - exists []. cbn. rewrite app_nil_r. by destruct w.
  - cbn [check_pairs all_pairs]. run.
    destruct (check_against_run this pi ps acc w) as (new1 & H1 & HF1 & Hw1).
    unfold result, world_after in H1, Hw1. rewrite H1, Hw1.
    edestruct IH as (new2 & -> & HF2 & ->).
    exists (new1 ++ new2). rewrite <- app_assoc. split_and!; [done | |].
    + rewrite filter_app. by apply Forall2_app.
    + rewrite foldl_app, length_app. unfold advance, with_redis. cbn.
      f_equal. lia.
Qed.

Lemma all_pairs_short {A : Type} (l : list A) : length l < 2 → all_pairs l = [].
Proof. destruct l as [| x [| y l]]; cbn; [done | done | lia]. Qed.

Lemma checkCollisionRisks_run this w :
  store_wf (redis w) →
  ∃ alerts,
    result (checkCollisionRisks this) w = alerts ∧
    Forall2 raised_for alerts
      (filter (λ p, unsafe this p.1 p.2 = true) (all_pairs (positions_of (redis w)))) ∧
    redis (world_after (checkCollisionRisks this) w) =
      foldl store_collision (redis w) alerts.
Proof.
  intros Hwf. unfold result, world_after, checkCollisionRisks. run.
  rewrite (keys_all _ Hwf).
  destruct (length (hashes (redis w)).*1 <? 2)%nat eqn:Hlen.
  - exists []. split_and!; [done | | done].
    apply Nat.ltb_lt in Hlen. rewrite length_fmap in Hlen.
    rewrite all_pairs_short; [constructor |].
    unfold positions_of. rewrite length_map.
    pose proof (length_filter airborne (hashes (redis w)).*2) as Hf.
    rewrite length_fmap in Hf. lia.
  - run. rewrite read_positions_run. cbn [fst snd app].
    rewrite hGetAll_keys by apply Hwf. fold (positions_of (redis w)).
    destruct (check_pairs_run this (positions_of (redis w)) [] w)
      as (new & H1 & HF & Hw).
    unfold result, world_after in H1, Hw. exists new. by rewrite H1, Hw.
Qed.

End Cycle.

(** ** Pairs of a list *)

Section Pairs.

Context {A : Type}.

Lemma elem_of_all_pairs (l : list A) (x y : A) :
  (x, y) ∈ all_pairs l → x ∈ l ∧ y ∈ l.
Proof.
  induction l as [| z l IH]; cbn; [by intros ?%elem_of_nil |].
  intros [Hin | Hin]%elem_of_app.
  - apply list_elem_of_fmap in Hin as (y' & [= -> ->] & Hy).
    split; [left | by right].
  - destruct (IH Hin). split; by right.
Qed.


End Pairs.

Section Counting.

Lemma filter_length_Forall2 {A B : Type} (R : A → B → Prop)
    (P : A → Prop) (Q : B → Prop) `{∀ a, Decision (P a)} `{∀ b, Decision (Q b)}
    (l : list A) (k : list B) :
  Forall2 R l k → (∀ a b, R a b → (P a ↔ Q b)) →
  length (filter P l) = length (filter Q k).
Proof.
  intros HF HPQ. induction HF as [| a b l k Hab _ IH]; [done |].
  destruct (decide (P a)) as [Ha | Ha].
  - rewrite !filter_cons_True; [cbn; by rewrite IH | by apply (HPQ a b) | done].
  - rewrite !filter_cons_False; [done | by rewrite <- (HPQ a b) | done].
Qed.

Lemma filter_length_mono {A : Type} (P Q : A → Prop)
    `{∀ a, Decision (P a)} `{∀ a, Decision (Q a)} (l : list A) :
  length (filter P (filter Q l)) ≤ length (filter P l).
Proof.
  induction l as [| a l IH]; [done |].
  destruct (decide (Q a)), (decide (P a));
    rewrite ?filter_cons_True, ?filter_cons_False by done;
    rewrite ?filter_cons_True, ?filter_cons_False by done; cbn; lia.
Qed.

Lemma filter_nil_not_elem {A : Type} (P : A → Prop) `{∀ a, Decision (P a)}
    (l : list A) :
  (∀ a, a ∈ l → ¬ P a) → filter P l = [].
Proof.
  intros Hl. induction l as [| a l IH]; [done |].
  rewrite filter_cons_False; [| apply Hl; left].
  apply IH. intros b Hb. apply Hl. by right.
Qed.

Lemma NoDup_fmap_filter_length {A B : Type} `{EqDecision B} (f : A → B) (c : B)
    (l : list A) :
  NoDup (f <$> l) → length (filter (λ y, f y = c) l) ≤ 1.
Proof.
  induction l as [| x l IH]; [cbn; lia |].
  rewrite fmap_cons, NoDup_cons. intros [Hx Hnd].
  destruct (decide (f x = c)) as [Hfx | Hfx].
  - rewrite filter_cons_True by done. cbn.
    rewrite filter_nil_not_elem; [cbn; lia |].
    intros y Hy Hfy. apply Hx, list_elem_of_fmap. exists y. by rewrite Hfy.
  - rewrite filter_cons_False by done. by apply IH.
Qed.

(** With distinct callsigns, the loops visit an unordered pair of
    callsigns once at most. *)
Lemma all_pairs_once (c1 c2 : string) (l : list Aircraft.t) :
  NoDup (Aircraft.callsign <$> l) →
  length (filter (pair_for c1 c2) (all_pairs l)) ≤ 1.
Proof.
  induction l as [| z l IH]; [cbn; lia |].
  rewrite fmap_cons, NoDup_cons. intros [Hz Hnd]. cbn [all_pairs].
  rewrite filter_app, length_app.
  assert (∀ y, y ∈ l → Aircraft.callsign y ≠ Aircraft.callsign z) as Hfresh.
  { intros y Hy Heq. apply Hz, list_elem_of_fmap. by exists y. }
  destruct (decide (Aircraft.callsign z = c1 ∨ Aircraft.callsign z = c2)) as [Hc | Hc].
  - rewrite (filter_nil_not_elem _ (all_pairs l)).
    { cbn. rewrite Nat.add_0_r.
      set (c := if decide (Aircraft.callsign z = c1) then c2 else c1).
      etrans; [| apply (NoDup_fmap_filter_length Aircraft.callsign c l Hnd)].
      clear IH Hnd Hz. induction l as [| y l IHl]; [done |].
      cbn [map].
      assert (pair_for c1 c2 (z, y) → Aircraft.callsign y = c) as Himp.
      { unfold pair_for, c. cbn. intros [[H1 H2] | [H1 H2]]; case_decide; congruence. }
      assert (∀ y', y' ∈ l → Aircraft.callsign y' ≠ Aircraft.callsign z) as Hfresh'.
      { intros y' Hy'. apply Hfresh. by right. }
      specialize (IHl Hfresh').
      destruct (decide (pair_for c1 c2 (z, y))) as [Hp | Hp].
      - rewrite filter_cons_True by done.
        rewrite (filter_cons_True (λ y0, Aircraft.callsign y0 = c)) by auto.
        cbn. lia.
      - rewrite filter_cons_False by done.
        destruct (decide (Aircraft.callsign y = c)).
        + rewrite (filter_cons_True (λ y0, Aircraft.callsign y0 = c)) by done. cbn. lia.
        + by rewrite (filter_cons_False (λ y0, Aircraft.callsign y0 = c)). }
    intros [x y] [Hx Hy]%elem_of_all_pairs.
    unfold pair_for. cbn.
    pose proof (Hfresh x Hx). pose proof (Hfresh y Hy).
    intros [[? ?] | [? ?]]; destruct Hc; congruence.
  - rewrite (filter_nil_not_elem _ (map (pair z) l)); [cbn; by apply IH |].
    intros p (y & -> & Hy)%list_elem_of_fmap. unfold pair_for. cbn.
    intros [[? ?] | [? ?]]; apply Hc; auto.
Qed.

End Counting.

(** ** Collision detection: main results *)

Section CollisionClaims.

Import CollisionDetectionService.

Lemma Forall2_elem_l {A B : Type} (R : A → B → Prop) (l : list A) (k : list B) (a : A) :
  Forall2 R l k → a ∈ l → ∃ b, b ∈ k ∧ R a b.
Proof.
  intros HF. induction HF as [| a' b l k Hab _ IH]; [by intros ?%elem_of_nil |].
  intros [-> | Hin]%elem_of_cons.
  - exists b. split; [left | done].
  - destruct (IH Hin) as (b' & ? & ?). exists b'. split; [by right | done].
Qed.

Lemma Forall2_elem_r {A B : Type} (R : A → B → Prop) (l : list A) (k : list B) (b : B) :
  Forall2 R l k → b ∈ k → ∃ a, a ∈ l ∧ R a b.
Proof.
  intros HF. induction HF as [| a b' l k Hab _ IH]; [by intros ?%elem_of_nil |].
  intros [-> | Hin]%elem_of_cons.
  - exists a. split; [left | done].
  - destruct (IH Hin) as (a' & ? & ?). exists a'. split; [by right | done].
Qed.

Lemma NoDup_fmap_elem_inj {A B : Type} (f : A → B) (l : list A) (x y : A) :
  NoDup (f <$> l) → x ∈ l → y ∈ l → f x = f y → x = y.
Proof.
  induction l as [| z l IH]; [by intros _ ?%elem_of_nil |].
  rewrite fmap_cons, NoDup_cons. intros [Hz Hnd].
  intros [-> | Hx]%elem_of_cons [-> | Hy]%elem_of_cons Hf; [done | | | by apply IH].
  - exfalso. apply Hz, list_elem_of_fmap. by exists y.
  - exfalso. apply Hz, list_elem_of_fmap. by exists x.
Qed.

Lemma positions_of_callsigns (r : Redis) :
  store_wf r → NoDup (Aircraft.callsign <$> positions_of r).
Proof.
  intros Hwf. unfold positions_of.
  change (map to_aircraft) with (fmap (M := list) to_aircraft).
  rewrite <- list_fmap_compose.
  eapply sublist_NoDup; [apply (store_wf_callsigns r Hwf) |].
  apply (fmap_sublist Hash.callsign). apply sublist_filter.
Qed.


Lemma raised_for_alert_for (alert : CollisionAlert.t) (p : Aircraft.t * Aircraft.t)
    (c1 c2 : string) :
  raised_for alert p → (alert_for c1 c2 alert ↔ pair_for c1 c2 p).
Proof. intros (now & ts & ->). reflexivity. Qed.


Lemma scenario_distance_between :
  ∃ d : R, distance_between scenario_a scenario_b = Fin d ∧ (3 <= d < 5)%R.
Proof.
  eexists. split; [| apply scenario_distance].
  unfold distance_between, scenario_a, scenario_b, to_aircraft, hash_a, hash_b.
  cbn [Aircraft.latitude Aircraft.longitude Hash.latitude Hash.longitude].
  apply calculateDistance_Fin.
  pose proof (hav_bounds lat_a lon_a lat_b lon_b) as Hhav.
  unfold lat_a, lon_a, lat_b, lon_b in *.
  specialize (Hhav ltac:(lra) ltac:(lra)). cbv zeta in Hhav.
  pose proof PI_4. pose proof PI_RGT_0.
  split; [nra | nra].
Qed.

Lemma scenario_altitude_difference :
  altitude_difference scenario_a scenario_b = Fin 500.
Proof.
  unfold altitude_difference, scenario_a, scenario_b, to_aircraft, hash_a, hash_b.
  cbn [Aircraft.altitude Hash.altitude sub lift2 Math_abs lift1]. f_equal.
  unfold Rabs. destruct (Rcase_abs _); lra.
Qed.

Lemma scenario_unsafe : unsafe new scenario_a scenario_b = true.
Proof.
  destruct scenario_distance_between as (d & Hd & Hlo & Hhi).
  apply unsafe_true. rewrite Hd, scenario_altitude_difference. cbn.
  split; apply bool_decide_eq_true; lra.
Qed.

Lemma scenario_severity :
  calculateSeverity (distance_between scenario_a scenario_b)
    (altitude_difference scenario_a scenario_b) = MEDIUM.
Proof.
  destruct scenario_distance_between as (d & Hd & Hlo & Hhi).
  rewrite Hd, scenario_altitude_difference. unfold calculateSeverity, lt.
  rewrite (bool_decide_eq_false_2 (d < 2)%R) by lra.
  rewrite (bool_decide_eq_false_2 (d < 3)%R) by lra. done.
Qed.

Lemma scenario_store_wf : store_wf (redis scenario_world).
Proof.
  split.
  - cbn. apply NoDup_cons. split; [| apply NoDup_singleton].
    rewrite list_elem_of_singleton. by vm_compute.
  - intros k h Hin. cbn in Hin.
    apply elem_of_cons in Hin as [[= -> ->] | Hin]; [done |].
    apply elem_of_cons in Hin as [[= -> ->] | Hin]; [done |].
    by apply elem_of_nil in Hin.
Qed.


(** [C2] When a pair is unsafe, [checkPairCollision] answers with an alert
    whose severity is the first that applies: CRITICAL below 2 km and 500
    ft, else HIGH below 3 km and 700 ft, else MEDIUM. *)
Theorem collision_severity_first_match (this : t) (a b : Aircraft.t) (w : World) :
  (distance_between a b <? SAFE_DISTANCE_KM this)%num = true →
  (altitude_difference a b <? SAFE_ALTITUDE_DIFF_FT this)%num = true →
  let d := distance_between a b in
  let h := altitude_difference a b in
  let critical := (d <? Fin 2)%num = true ∧ (h <? Fin 500)%num = true in
  let high := (d <? Fin 3)%num = true ∧ (h <? Fin 700)%num = true in
  ∃ alert,
    result (checkPairCollision this a b) w = Some alert ∧
    (critical → CollisionAlert.severity alert = CRITICAL) ∧
    (¬ critical → high → CollisionAlert.severity alert = HIGH) ∧
    (¬ critical → ¬ high → CollisionAlert.severity alert = MEDIUM).
Proof.
  intros Hd Hh d h critical high.
  unfold result. rewrite checkPairCollision_run.
  rewrite (proj2 (unsafe_true this a b) (conj Hd Hh)). cbn [fst].
  eexists. split; [done |]. cbn [pair_alert CollisionAlert.severity].
  unfold calculateSeverity. fold d h. subst critical high.
  destruct (d <? Fin 2)%num, (h <? Fin 500)%num, (d <? Fin 3)%num, (h <? Fin 700)%num;
    cbn; intuition congruence.
Qed.

Lemma collision_severity_first_match_witness :
  ∃ alert,
    result (checkPairCollision new scenario_a scenario_b) empty_world = Some alert ∧
    CollisionAlert.severity alert = MEDIUM.
Proof.
  destruct (collision_severity_first_match new scenario_a scenario_b empty_world)
    as (alert & Hres & _ & _ & Hmedium).
  - apply (proj1 (unsafe_true _ _ _) scenario_unsafe).
  - apply (proj1 (unsafe_true _ _ _) scenario_unsafe).
  - exists alert. split; [done |].
    destruct scenario_distance_between as (d & Hd & Hlo & Hhi).
    apply Hmedium; rewrite Hd; intros [Hlt%lt_Fin _]; lra.
Defined.

(** [C5] The pair check is symmetric: it answers with an alert for [(a, b)]
    exactly when it does for [(b, a)], and the two alerts agree on distance,
    altitude difference and severity.  In one cycle over a position store
    written by the ingestion there is one alert at most for two callsigns,
    whatever their order. *)
Theorem collision_symmetric_no_duplicates (this : t) (a b : Aircraft.t)
    (w1 w2 w : World) (c1 c2 : string) :
  store_wf (redis w) →
  match result (checkPairCollision this a b) w1,
        result (checkPairCollision this b a) w2 with
  | Some x, Some y =>
    CollisionAlert.distance x = CollisionAlert.distance y ∧
    CollisionAlert.altitudeDiff x = CollisionAlert.altitudeDiff y ∧
    CollisionAlert.severity x = CollisionAlert.severity y
  | None, None => True
  | _, _ => False
  end ∧
  length (filter (alert_for c1 c2) (result (checkCollisionRisks this) w)) ≤ 1.
Proof.
  intros Hwf. split.
  - unfold result. rewrite !checkPairCollision_run, (unsafe_sym this b a).
    destruct (unsafe this a b); cbn [fst]; [| done].
    unfold pair_alert.
    cbn [CollisionAlert.distance CollisionAlert.altitudeDiff CollisionAlert.severity].
    by rewrite (distance_between_sym b a), (altitude_difference_sym b a).
  - destruct (checkCollisionRisks_run this w Hwf) as (alerts & -> & HF & _).
    rewrite (filter_length_Forall2 _ _ (pair_for c1 c2) _ _ HF)
      by (intros; by apply raised_for_alert_for).
    etrans; [apply filter_length_mono |].
    apply all_pairs_once, positions_of_callsigns, Hwf.
Qed.

Lemma collision_symmetric_no_duplicates_witness :
  store_wf (redis scenario_world) ∧
  length (filter (alert_for "DLH401" "UAL902")
            (result (checkCollisionRisks new) scenario_world)) ≤ 1.
Proof.
  split; [apply scenario_store_wf |].
  exact (proj2 (collision_symmetric_no_duplicates new scenario_a scenario_b
                  empty_world empty_world scenario_world "DLH401" "UAL902"
                  scenario_store_wf)).
Defined.

(** [C9] The two aircraft of the end-to-end scenario, 500 ft apart in
    altitude, are between 3 km and 5 km from each other: the pair check
    answers with an alert, and its severity is MEDIUM. *)
Theorem scenario_alert_is_MEDIUM (w : World) :
  ∃ alert,
    result (checkPairCollision new scenario_a scenario_b) w = Some alert ∧
    CollisionAlert.severity alert = MEDIUM.
Proof.
  unfold result. rewrite checkPairCollision_run, scenario_unsafe. cbn [fst].
  eexists. split; [done |]. apply scenario_severity.
Qed.

Lemma scenario_alert_is_not_HIGH :
  ¬ ∃ alert,
      result (checkPairCollision new scenario_a scenario_b) empty_world = Some alert ∧
      CollisionAlert.severity alert = HIGH.
Proof.
  intros (alert & Hres & Hsev).
  apply checkPairCollision_Some in Hres as [_ ->].
  unfold pair_alert in Hsev. cbn [CollisionAlert.severity] in Hsev.
  rewrite scenario_severity in Hsev. discriminate.
Qed.

End CollisionClaims.

(** ** The active list *)

Section ActiveList.

Lemma list_range_0_99 {A : Type} (l : list A) : list_range l 0 99 = take 100 l.
Proof. reflexivity. Qed.

Lemma list_range_all {A : Type} (l : list A) : list_range l 0 (-1) = l.
Proof.
  unfold list_range. cbn [Z.ltb Z.compare].
  destruct l as [| x l]; [done |].
  rewrite (proj2 (Z.ltb_ge _ _)) by (cbn [length]; lia).
  rewrite drop_0. apply take_ge. cbn [length]. lia.
Qed.

Lemma take_app_take {A : Type} (n : nat) (l1 l2 : list A) :
  take n (l1 ++ take n l2) = take n (l1 ++ l2).
Proof.
  rewrite !take_app. f_equal. rewrite take_take. f_equal. lia.
Qed.

(** [storeAlert] puts the value in front of the list and keeps the first
    hundred. *)
Lemma list_at_stored (key_prefix list_key id : string) (value : Json) (r : Redis) :
  list_at list_key (stored key_prefix list_key id value r) =
  take 100 (value :: list_at list_key r).
Proof.
  unfold stored, lTrim. rewrite list_range_0_99.
  assert (list_at list_key (lPush list_key value (set (key_prefix +:+ id) value 300 r))
          = value :: list_at list_key r) as ->.
  { unfold list_at at 1. cbn. by rewrite lookup_insert_eq. }
  cbn [take]. unfold list_at at 1. cbn. by rewrite lookup_insert_eq.
Qed.

Lemma list_at_foldl_stored {A : Type} (key_prefix list_key : string)
    (id : A → string) (json : A → Json) (a : A) (alerts : list A) (r : Redis) :
  list_at list_key
    (foldl (λ r a, stored key_prefix list_key (id a) (json a) r) r (a :: alerts)) =
  take 100 (reverse (json <$> a :: alerts) ++ list_at list_key r).
Proof.
  revert a r. induction alerts as [| a' alerts IH]; intros a r.
  - cbn [foldl]. by rewrite list_at_stored.
  - change (foldl ?f r (a :: a' :: alerts))
      with (foldl f (f r a) (a' :: alerts)).
    rewrite IH, list_at_stored.
    rewrite (fmap_cons json a), (reverse_cons _ (json a)), <- app_assoc.
    cbn [app]. apply take_app_take.
Qed.

Lemma redis_store_collision_alerts (alerts : list CollisionAlert.t) (w : World) :
  redis (store_collision_alerts alerts w) = foldl store_collision (redis w) alerts.
Proof.
  unfold store_collision_alerts.
  revert w. induction alerts as [| a alerts IH]; intros w; [done |].
  cbn [foldl]. by rewrite IH.
Qed.

Lemma redis_store_altitude_alerts (alerts : list AltitudeAlert.t) (w : World) :
  redis (store_altitude_alerts alerts w) = foldl store_altitude (redis w) alerts.
Proof.
  unfold store_altitude_alerts.
  revert w. induction alerts as [| a alerts IH]; intros w; [done |].
  cbn [foldl]. by rewrite IH.
Qed.

Lemma hashes_stored (key_prefix list_key id : string) (value : Json) (r : Redis) :
  hashes (stored key_prefix list_key id value r) = hashes r.
Proof. unfold stored, lTrim. by destruct (list_range _ _ _). Qed.

Lemma hashes_foldl_store_altitude (alerts : list AltitudeAlert.t) (r : Redis) :
  hashes (foldl store_altitude r alerts) = hashes r.
Proof.
  revert r. induction alerts as [| a alerts IH]; intros r; [done |].
  cbn [foldl]. rewrite IH. apply hashes_stored.
Qed.

Lemma take_reverse_more {A : Type} (n : nat) (l k : list A) :
  n ≤ length l → take n (reverse l ++ k) = take n (reverse l).
Proof.
  intros Hn. rewrite take_app, length_reverse.
  replace (n - length l) with 0 by lia. by rewrite take_0, app_nil_r.
Qed.

(** [C7] The list of active alerts is kept by putting each stored alert in
    front and cutting after a hundred.  After more than a hundred calls of
    [storeAlert], the collision service's [getActiveAlerts] answers with the
    hundred alerts stored last, the latest first, in the order of the calls.
    The altitude service keeps its list the same way. *)
Theorem active_list_most_recent_100 (collisions : list CollisionAlert.t)
    (altitudes : list AltitudeAlert.t) (w : World) :
  100 < length collisions → 100 < length altitudes →
  result CollisionDetectionService.getActiveAlerts (store_collision_alerts collisions w)
    = take 100 (reverse (JCollision <$> collisions)) ∧
  list_at "alerts:altitude:active" (redis (store_altitude_alerts altitudes w))
    = take 100 (reverse (JAltitude <$> altitudes)).
Proof.
  intros Hc Ha. split.
  - unfold result, CollisionDetectionService.getActiveAlerts. rewrite redis_read_run.
    cbn [fst]. unfold lRange. rewrite list_range_all, redis_store_collision_alerts.
    unfold store_collision.
    destruct collisions as [| a collisions]; [cbn in Hc; lia |].
    rewrite (list_at_foldl_stored _ _ CollisionAlert.id JCollision).
    apply take_reverse_more. rewrite length_fmap. lia.
  - rewrite redis_store_altitude_alerts. unfold store_altitude.
    destruct altitudes as [| a altitudes]; [cbn in Ha; lia |].
    rewrite (list_at_foldl_stored _ _ AltitudeAlert.id JAltitude).
    apply take_reverse_more. rewrite length_fmap. lia.
Qed.

Lemma active_list_most_recent_100_witness :
  result CollisionDetectionService.getActiveAlerts
    (store_collision_alerts (sample_collision_alert <$> seq 0 150) empty_world)
  = JCollision <$> (sample_collision_alert <$> reverse (seq 50 100)).
Proof.
  rewrite (proj1 (active_list_most_recent_100
                    (sample_collision_alert <$> seq 0 150)
                    (sample_altitude_alert <$> seq 0 150) empty_world
                    ltac:(rewrite length_fmap, length_seq; lia)
                    ltac:(rewrite length_fmap, length_seq; lia))).
  reflexivity.
Defined.

End ActiveList.

(** ** Altitude check: one cycle *)

Section AltitudeCycle.

Import AltitudeCheckService.

Lemma getAirportZoneInfo_run (latitude longitude : num) (w : World) :
  getAirportZoneInfo latitude longitude w = (zone_info (neo4j w) latitude longitude, w).
Proof.
  unfold zone_info, result, getAirportZoneInfo, getNeo4j. rewrite !bind_run. cbn [fst snd neo4j].
  destruct (order_by_limit_1 snd (zones_holding _ _ _)) as [[[a z] d] |]; [done |].
  destruct (closed_session_answers _); [| done].
  by destruct (order_by_limit_1 snd (airports_with_distance _ _ _)) as [[a d] |].
Qed.

Lemma altitude_storeAlert_run (alert : AltitudeAlert.t) (w : World) :
  storeAlert alert w = (tt, with_redis (store_altitude (redis w) alert) w).
Proof. reflexivity. Qed.

Lemma airborne_false (h : Hash.t) :
  ¬ airborne h →
  bool_decide (Hash.callsign h = "") || bool_decide (Hash.on_ground h = "true") = true.
Proof.
  intros Hn. apply orb_true_iff.
  destruct (decide (Hash.callsign h = "")) as [He | He];
    [left; by apply bool_decide_eq_true |].
  right. apply bool_decide_eq_true.
  destruct (decide (Hash.on_ground h = "true")) as [Hg | Hg]; [done |].
  by destruct Hn.
Qed.

Lemma airborne_true (h : Hash.t) :
  airborne h →
  bool_decide (Hash.callsign h = "") || bool_decide (Hash.on_ground h = "true") = false.
Proof. intros [Hc Hg]. by rewrite !bool_decide_eq_false_2. Qed.

(** One turn of the loop. *)
Lemma check_key_run this key alerts all w :
  let h := hGetAll key (redis w) in
  check_key this key alerts all w =
  if decide (airborne h) then
    if decide (low this h) then
      let alert := altitude_alert (neo4j w) h (clock w (ticks w)) (clock w (S (ticks w))) in
      ((alerts ++ [alert], all ++ [info_of (neo4j w) h]),
       advance 2 (if decide (is_risk alert)
                  then with_redis (store_altitude (redis w) alert) w else w))
    else ((alerts, all ++ [info_of (neo4j w) h]), w)
  else ((alerts, all), w).
Proof.
  intros h. unfold check_key. rewrite bind_run, redis_read_run. cbn [fst snd]. fold h.
  destruct (decide (airborne h)) as [Ha | Ha];
    [rewrite airborne_true by done | by rewrite airborne_false].
  rewrite bind_run, getAirportZoneInfo_run. cbn [fst snd].
  fold (info_of (neo4j w) h).
  destruct (decide (low this h)) as [Hl | Hl]; unfold low in Hl;
    [rewrite Hl | by rewrite (not_true_is_false _ Hl)].
  unfold altitude_alert.
  destruct (ZoneInfo.inZone (zone_info (neo4j w) (Hash.latitude h) (Hash.longitude h)))
    eqn:Hz; cbn [negb].
  - rewrite decide_False by (unfold is_risk; cbn; congruence).
    run. by rewrite advance_advance.
  - run. rewrite altitude_storeAlert_run. cbn [fst snd].
    destruct (decide (is_risk _)) as [Hr | Hr].
    + unfold advance, with_redis. cbn. done.
    + (* the severity of a risk alert is never SAFE *)
      exfalso. apply Hr. unfold is_risk. cbn. unfold calculateSeverity.
      by repeat case_match.
Qed.

Lemma hGetAll_store_altitude (key : string) (r : Redis) (alert : AltitudeAlert.t) :
  hGetAll key (store_altitude r alert) = hGetAll key r.
Proof. unfold hGetAll, store_altitude. by rewrite hashes_stored. Qed.

Lemma check_keys_run this ks alerts all w :
  let hs := filter airborne (map (λ k, hGetAll k (redis w)) ks) in
  ∃ new,
    (check_keys this ks alerts all w).1 =
      (alerts ++ new, all ++ map (info_of (neo4j w)) hs) ∧
    Forall2 (altitude_raised_for (neo4j w)) new (filter (low this) hs) ∧
    (check_keys this ks alerts all w).2 =
      advance (2 * length new)
        (with_redis (foldl store_altitude (redis w) (filter is_risk new)) w).
Proof.
  revert alerts all w. induction ks as [| k ks IH]; intros alerts all w hs.
  - exists []. cbn. rewrite !app_nil_r. by destruct w.
  - cbn [check_keys]. rewrite bind_run, check_key_run.
    subst hs. cbn [map]. set (h := hGetAll k (redis w)).
    destruct (decide (airborne h)) as [Ha | Ha];
      [rewrite (filter_cons_True airborne) by done
      | rewrite (filter_cons_False airborne) by done; apply IH].
    destruct (decide (low this h)) as [Hl | Hl]; cbn [fst snd];
      [rewrite (filter_cons_True (low this)) by done
      | rewrite (filter_cons_False (low this)) by done].
    + set (alert := altitude_alert _ _ _ _).
      set (w1 := advance 2 _).
      assert (neo4j w1 = neo4j w) as Hdb by (subst w1; by destruct (decide _)).
      assert (∀ k', hGetAll k' (redis w1) = hGetAll k' (redis w)) as Hget.
      { intros k'. subst w1. destruct (decide _); [apply hGetAll_store_altitude | done]. }
      destruct (IH (alerts ++ [alert]) (all ++ [info_of (neo4j w) h]) w1)
        as (new & Hres & HF & Hw).
      assert (map (λ k', hGetAll k' (redis w1)) ks = map (λ k', hGetAll k' (redis w)) ks)
        as Hmap by (apply map_ext; intros; apply Hget).
      cbv zeta in Hres, HF. rewrite Hdb, Hmap in Hres, HF.
      exists (alert :: new). rewrite Hres, Hw, <- !app_assoc. split_and!; [done | |].
      * constructor; [by eexists _, _ | done].
      * subst w1. destruct (decide (is_risk alert)) as [Hr | Hr].
        -- rewrite (filter_cons_True is_risk) by done.
           unfold advance, with_redis. cbn. f_equal. lia.
        -- rewrite (filter_cons_False is_risk) by done.
           unfold advance, with_redis. cbn. f_equal. lia.
    + destruct (IH alerts (all ++ [info_of (neo4j w) h]) w) as (new & Hres & HF & Hw).
      exists new. rewrite Hres, Hw, <- !app_assoc. done.
Qed.

Lemma checkLowAltitudeAircraft_run this w :
  store_wf (redis w) →
  let res := result (checkLowAltitudeAircraft this) w in
  AltitudeResult.monitoredAircraft res = map (info_of (neo4j w)) (monitored (redis w)) ∧
  AltitudeResult.totalAircraft res = length (AltitudeResult.monitoredAircraft res) ∧
  Forall2 (altitude_raised_for (neo4j w)) (AltitudeResult.alerts res)
    (filter (low this) (monitored (redis w))) ∧
  redis (world_after (checkLowAltitudeAircraft this) w) =
    foldl store_altitude (redis w) (filter is_risk (AltitudeResult.alerts res)).
Proof.
  intros Hwf res. subst res.
  unfold result, world_after, checkLowAltitudeAircraft.
  rewrite bind_run, redis_read_run. cbn [fst snd]. rewrite bind_run.
  destruct (check_keys_run this (keys "aircraft:*:position" (redis w)) [] [] w)
    as (new & Hres & HF & Hw).
  cbv zeta in Hres, HF.
  rewrite (keys_all _ Hwf) in Hres, HF, Hw.
  rewrite (hGetAll_keys _ (proj1 Hwf)) in Hres, HF.
  rewrite (keys_all _ Hwf). fold (monitored (redis w)) in Hres, HF.
  rewrite Hw, Hres. cbn. done.
Qed.

End AltitudeCycle.

(** ** The zone lookup *)

Section ZoneLookup.

Import AltitudeCheckService.

Lemma order_by_limit_1_elem {A : Type} (d : A → num) (rows : list A) (x : A) :
  order_by_limit_1 d rows = Some x → x ∈ rows.
Proof.
  revert x. induction rows as [| y rows IH]; intros x; [done |].
  cbn. destruct (order_by_limit_1 d rows) as [z |].
  - destruct (_ || _); intros [= <-]; [right; by apply IH | left].
  - intros [= <-]. left.
Qed.

Lemma order_by_limit_1_None {A : Type} (d : A → num) (rows : list A) :
  order_by_limit_1 d rows = None → rows = [].
Proof.
  destruct rows as [| y rows]; [done |]. cbn.
  destruct (order_by_limit_1 d rows); [by destruct (_ || _) | done].
Qed.

Lemma elem_of_zones_holding (db : Neo4j) (latitude longitude : num)
    (a : Airport.t) (z : Zone.t) (d : num) :
  (a, z, d) ∈ zones_holding db latitude longitude ↔
  inside_zone db latitude longitude (a, z) ∧
  d = point_distance db (latitude, longitude) (Zone.latitude z, Zone.longitude z).
Proof.
  unfold zones_holding, inside_zone. rewrite list_elem_of_filter. cbn.
  change (map ?f ?l) with (f <$> l). rewrite list_elem_of_fmap. split.
  - intros [Hlt ([a' z'] & [= -> -> ->] & Hin)]. done.
  - intros [[Hin Hlt] ->]. split; [done |]. by exists (a, z).
Qed.

Lemma zone_info_inside (db : Neo4j) (latitude longitude : num) (az : Airport.t * Zone.t) :
  inside_zone db latitude longitude az →
  ∃ a z,
    inside_zone db latitude longitude (a, z) ∧
    ZoneInfo.inZone (zone_info db latitude longitude) = true ∧
    ZoneInfo.airportName (zone_info db latitude longitude) = Some (Airport.name a) ∧
    ZoneInfo.zoneName (zone_info db latitude longitude) = Some (Zone.name z).
Proof.
  intros Hin. unfold zone_info, result, getAirportZoneInfo, getNeo4j.
  rewrite bind_run. cbn [fst snd neo4j].
  destruct (order_by_limit_1 snd (zones_holding db latitude longitude))
    as [[[a z] d] |] eqn:Hq.
  - apply order_by_limit_1_elem, elem_of_zones_holding in Hq as [Hq _].
    by exists a, z.
  - apply order_by_limit_1_None in Hq. exfalso.
    destruct az as [a z].
    assert ((a, z, point_distance db (latitude, longitude)
                     (Zone.latitude z, Zone.longitude z))
            ∈ zones_holding db latitude longitude) as Hel
      by by apply elem_of_zones_holding.
    rewrite Hq in Hel. by apply elem_of_nil in Hel.
Qed.

Lemma zone_info_outside (db : Neo4j) (latitude longitude : num) :
  (∀ az, ¬ inside_zone db latitude longitude az) →
  ZoneInfo.inZone (zone_info db latitude longitude) = false.
Proof.
  intros Hout. unfold zone_info, result, getAirportZoneInfo, getNeo4j.
  rewrite bind_run. cbn [fst snd neo4j].
  destruct (order_by_limit_1 snd (zones_holding db latitude longitude))
    as [[[a z] d] |] eqn:Hq.
  - apply order_by_limit_1_elem, elem_of_zones_holding in Hq as [Hq _].
    by destruct (Hout _ Hq).
  - destruct (closed_session_answers db); [| done].
    by destruct (order_by_limit_1 snd (airports_with_distance _ _ _)) as [[a d] |].
Qed.

Lemma zone_info_inZone (db : Neo4j) (latitude longitude : num) :
  ZoneInfo.inZone (zone_info db latitude longitude) = true ↔
  ∃ az, inside_zone db latitude longitude az.
Proof.
  split.
  - intros Hin.
    destruct (order_by_limit_1 snd (zones_holding db latitude longitude))
      as [[[a z] d] |] eqn:Hq.
    + apply order_by_limit_1_elem, elem_of_zones_holding in Hq as [Hq _]. by exists (a, z).
    + rewrite zone_info_outside in Hin; [done |].
      intros [a z] Haz. apply order_by_limit_1_None in Hq.
      assert ((a, z, point_distance db (latitude, longitude)
                       (Zone.latitude z, Zone.longitude z))
              ∈ zones_holding db latitude longitude) as Hel
        by by apply elem_of_zones_holding.
      rewrite Hq in Hel. by apply elem_of_nil in Hel.
  - intros [az Haz]. by destruct (zone_info_inside _ _ _ _ Haz) as (a & z & _ & ? & _).
Qed.

End ZoneLookup.

(** ** Altitude check: main results *)

Section AltitudeClaims.

Import AltitudeCheckService.



Lemma monitored_callsigns (r : Redis) :
  store_wf r → NoDup (Hash.callsign <$> monitored r).
Proof.
  intros Hwf. eapply sublist_NoDup; [apply (store_wf_callsigns r Hwf) |].
  apply (fmap_sublist Hash.callsign), sublist_filter.
Qed.

Lemma elem_of_monitored (r : Redis) (k : string) (h : Hash.t) :
  (k, h) ∈ hashes r → airborne h → h ∈ monitored r.
Proof.
  intros Hin Ha. apply list_elem_of_filter. split; [done |].
  apply list_elem_of_fmap. by exists (k, h).
Qed.

Lemma altitude_alert_callsign (db : Neo4j) (h : Hash.t) (now timestamp : N) :
  AltitudeAlert.callsign (altitude_alert db h now timestamp) = Hash.callsign h.
Proof. unfold altitude_alert. by destruct (ZoneInfo.inZone _). Qed.

Lemma altitude_alert_id (db : Neo4j) (h : Hash.t) (now timestamp : N) :
  AltitudeAlert.id (altitude_alert db h now timestamp) = Hash.callsign h +:+ "-" +:+ pretty now.
Proof. unfold altitude_alert. by destruct (ZoneInfo.inZone _). Qed.

Lemma is_risk_altitude_alert (db : Neo4j) (h : Hash.t) (now timestamp : N) :
  is_risk (altitude_alert db h now timestamp) ↔
  ZoneInfo.inZone (zone_info db (Hash.latitude h) (Hash.longitude h)) = false.
Proof.
  unfold altitude_alert, is_risk.
  destruct (ZoneInfo.inZone _); cbn; [naive_solver |].
  split; [done |]. intros _. unfold calculateSeverity. by repeat case_match.
Qed.

Lemma strings_stored (key_prefix list_key id : string) (value : Json) (r : Redis) :
  strings (stored key_prefix list_key id value r) =
  <[key_prefix +:+ id := (value, 300%N)]> (strings r).
Proof. unfold stored, lTrim. by destruct (list_range _ _ _). Qed.






(** *** The example of Frankfurt *)

Lemma altitude_store_wf : store_wf (redis altitude_world).
Proof.
  split.
  - cbn. apply NoDup_cons. split; [| apply NoDup_cons; split; [| apply NoDup_singleton]].
    + rewrite !elem_of_cons. intros [H | [H | H%elem_of_nil]]; [| | done];
        by vm_compute in H.
    + rewrite list_elem_of_singleton. intros H. by vm_compute in H.
  - intros k h Hin. cbn in Hin.
    repeat (apply elem_of_cons in Hin as [[= -> ->] | Hin]; [done |]).
    by apply elem_of_nil in Hin.
Qed.

Lemma low_out_outside (az : Airport.t * Zone.t) :
  ¬ inside_zone (neo4j altitude_world) (Hash.latitude hash_low_out)
      (Hash.longitude hash_low_out) az.
Proof.
  intros [Hin Hlt]. cbn in Hin. apply list_elem_of_singleton in Hin as ->.
  destruct low_out_distance as [Hfar Hhav].
  cbn [neo4j altitude_world world_of fra_neo4j point_distance haversine_meters
       fst snd fra_approach Zone.latitude Zone.longitude Zone.radiusMeters
       hash_low_out Hash.latitude Hash.longitude] in Hlt.
  unfold haversine_meters in Hlt. cbn [fst snd] in Hlt.
  rewrite (calculateDistance_Fin _ _ _ _ Hhav) in Hlt.
  apply lt_Fin in Hlt. lra.
Qed.

Lemma low_in_inside :
  inside_zone (neo4j altitude_world) (Hash.latitude hash_low_in)
    (Hash.longitude hash_low_in) (fra, fra_approach).
Proof.
  split; [cbn; left |].
  cbn [neo4j altitude_world world_of fra_neo4j point_distance haversine_meters
       fst snd fra_approach Zone.latitude Zone.longitude Zone.radiusMeters
       hash_low_in Hash.latitude Hash.longitude].
  unfold haversine_meters. cbn [fst snd].
  rewrite calculateDistance_Fin by (rewrite hav_same; lra).
  rewrite hav_same, central_distance_0. apply lt_Fin. lra.
Qed.




(** The altitude service answers the query for its active alerts by a new
    check of the aircraft in the air, not from the list it keeps: after
    150 alerts have been stored and with no aircraft in the store, the
    answer has no alert. *)
Lemma altitude_active_query_is_a_new_check :
  let w := store_altitude_alerts (sample_altitude_alert <$> seq 0 150) empty_world in
  100 < length (sample_altitude_alert <$> seq 0 150) ∧
  AltitudeResult.alerts (result (getActiveAlerts new) w) = [] ∧
  JAltitude <$> AltitudeResult.alerts (result (getActiveAlerts new) w)
    ≠ take 100 (reverse (JAltitude <$> (sample_altitude_alert <$> seq 0 150))).
Proof.
  cbv zeta.
  assert (AltitudeResult.alerts
            (result (getActiveAlerts new)
               (store_altitude_alerts (sample_altitude_alert <$> seq 0 150) empty_world))
          = []) as Hempty.
  { unfold result, getActiveAlerts, checkLowAltitudeAircraft.
    rewrite bind_run, redis_read_run. cbn [fst snd].
    unfold keys. rewrite redis_store_altitude_alerts, hashes_foldl_store_altitude.
    reflexivity. }
  split_and!; [rewrite length_fmap, length_seq; lia | exact Hempty |].
  rewrite Hempty. discriminate.
Qed.

End AltitudeClaims.

(** ** Flight monitor *)

Section FlightMonitor.

Import FlightMonitorService.

Lemma getGateAssignment_run (callsign : string) (w : World) :
  (getGateAssignment callsign w).2 = w.
Proof. reflexivity. Qed.

Lemma getFlightSchedule_run (callsign : string) (w : World) :
  (getFlightSchedule callsign w).2 = w.
Proof. reflexivity. Qed.






(** *** Patterns made from a flight number *)

Lemma glob_tokens_plain_cons (c : ascii) (p : list ascii) :
  c ≠ "*"%char ∧ c ≠ "?"%char ∧ c ≠ "["%char ∧ c ≠ "\"%char →
  glob_tokens None (c :: p) = TLit c :: glob_tokens None p.
Proof.
  intros (H1 & H2 & H3 & H4).
  destruct c as [[] [] [] [] [] [] [] []]; try reflexivity; by destruct p.
Qed.

Lemma glob_tokens_plain_app (l p : list ascii) :
  Forall (λ c, c ≠ "*"%char ∧ c ≠ "?"%char ∧ c ≠ "["%char ∧ c ≠ "\"%char) l →
  glob_tokens None (l ++ p) = map TLit l ++ glob_tokens None p.
Proof.
  induction 1 as [| c l Hc _ IH]; [done |].
  cbn [app map]. by rewrite glob_tokens_plain_cons, IH.
Qed.

(** For a flight number without special characters, the pattern of
    [getFlightDetails] matches the keys of the callsigns that start with
    the flight number. *)
Lemma glob_flight_pattern (flightNumber callsign : string) :
  plain flightNumber →
  glob_match ("aircraft:" +:+ flightNumber +:+ "*:position") (key_of callsign) = true ↔
  ∃ rest, callsign = flightNumber +:+ rest.
Proof.
  intros Hplain. unfold glob_match, key_of. rewrite !list_ascii_of_string_app.
  change (String.list_ascii_of_string "aircraft:")
    with ([] ++ String.list_ascii_of_string "aircraft:") at 1.
  rewrite <- !app_assoc, (glob_tokens_plain_app []) by constructor.
  cbn [map app].
  rewrite (glob_tokens_plain_app (String.list_ascii_of_string "aircraft:"))
    by (repeat constructor; done).
  rewrite (glob_tokens_plain_app (String.list_ascii_of_string flightNumber)) by done.
  change (glob_tokens None (String.list_ascii_of_string "*:position"))
    with (TStar :: map TLit (String.list_ascii_of_string ":position")).
  rewrite toks_match_lits_app. split.
  - intros (rest & Hrest & Hstar)%toks_match_lits_inv.
    apply toks_match_star_inv in Hstar as (mid & rest' & -> & Hpost).
    rewrite <- (app_nil_r (map TLit _)) in Hpost.
    apply toks_match_lits_inv in Hpost as (nil & -> & ->%toks_match_nil_inv).
    rewrite app_nil_r, app_assoc in Hrest. apply app_inv_tail in Hrest.
    exists (String.string_of_list_ascii mid). apply list_ascii_of_string_inj.
    by rewrite list_ascii_of_string_app, String.list_ascii_of_string_of_list_ascii.
  - intros [rest ->]. rewrite list_ascii_of_string_app, <- app_assoc.
    rewrite toks_match_lits_app. apply toks_match_star, toks_match_lits.
Qed.

Lemma keys_flight_pattern (r : Redis) (flightNumber : string) :
  store_wf r → plain flightNumber →
  keys ("aircraft:" +:+ flightNumber +:+ "*:position") r = [] ↔
  ∀ k h rest, (k, h) ∈ hashes r → Hash.callsign h ≠ flightNumber +:+ rest.
Proof.
  intros [_ Hkey] Hplain. unfold keys. split.
  - intros Hnil k h rest Hin Hcall.
    assert (k ∈ filter (λ k, glob_match ("aircraft:" +:+ flightNumber +:+ "*:position") k
                             = true) (hashes r).*1) as Hel.
    { apply list_elem_of_filter. split.
      - rewrite (Hkey _ _ Hin). apply glob_flight_pattern; [done |]. by exists rest.
      - apply list_elem_of_fmap. by exists (k, h). }
    rewrite Hnil in Hel. by apply elem_of_nil in Hel.
  - intros Hnone. apply filter_nil_not_elem.
    intros k [[k' h] [-> Hin]]%list_elem_of_fmap. cbn.
    rewrite (Hkey _ _ Hin). intros [rest Hrest]%glob_flight_pattern; [| done].
    by apply (Hnone _ _ rest Hin).
Qed.

(** [C8] When no key of the position store matches the pattern made from
    the identifier (for an identifier without special characters: when no
    live callsign starts with it), [getFlightDetails] answers from the
    schedule alone: with a view without position that carries the status
    of the schedule, or ['scheduled'] when the schedule has none, if there
    is a schedule for the identifier, and with [null] if there is none. *)
Theorem getFlightDetails_not_live (w : World) (flightNumber : string) :
  keys ("aircraft:" +:+ flightNumber +:+ "*:position") (redis w) = [] →
  match result (getFlightSchedule flightNumber) w with
  | Some schedule =>
    ∃ view,
      result (getFlightDetails flightNumber) w = Some view ∧
      Flight.callsign view = flightNumber ∧
      Flight.position view = None ∧
      Flight.schedule view = Some schedule ∧
      Flight.status view = status_or schedule "scheduled"
  | None => result (getFlightDetails flightNumber) w = None
  end.
Proof.
  intros Hkeys. unfold result, getFlightDetails.
  rewrite bind_run, redis_read_run. cbn [fst snd]. rewrite Hkeys, bind_run.
  change (getFlightSchedule flightNumber w).2 with w.
  destruct (getFlightSchedule flightNumber w).1 as [schedule |]; [| done].
  eexists. split; [done |]. cbn. split_and!; try done.
  unfold status_or, truthy_text.
  destruct (Schedule.status schedule) as [s |]; [| done].
  destruct (decide (s = "")) as [-> | Hs]; [done |].
  by rewrite bool_decide_eq_true_2.
Qed.

Lemma getFlightDetails_not_live_witness :
  ∃ view,
    result (getFlightDetails "LH400") scheduled_world = Some view ∧
    Flight.position view = None ∧
    Flight.status view = "active".
Proof.
  destruct (getFlightDetails_not_live scheduled_world "LH400" eq_refl)
    as (view & Hres & _ & Hpos & _ & Hstatus).
  by exists view.
Defined.

(** The two ways in which the answer differs from a schedule-only view of
    status ['scheduled']: the status of the schedule is passed on, and an
    identifier that has no entry of its own is answered from the entry of
    a callsign that starts with it. *)
Lemma getFlightDetails_not_always_scheduled :
  (assoc_lookup (key_of "LH400") (hashes (redis scheduled_world)) = None ∧
   ∃ view, result (getFlightDetails "LH400") scheduled_world = Some view ∧
           Flight.status view ≠ "scheduled") ∧
  (assoc_lookup (key_of "LH400") (hashes (redis prefix_world)) = None ∧
   ∃ view, result (getFlightDetails "LH400") prefix_world = Some view ∧
           Flight.position view ≠ None).
Proof.
  split.
  - split; [done |]. eexists. split; [reflexivity |]. done.
  - split; [done |]. eexists. split; [reflexivity |]. done.
Qed.

End FlightMonitor.

(** ** End-to-end scenarios *)

Section Scenarios.

Lemma round_IZR (z : Z) : round (IZR z) = IZR z.
Proof.
  unfold round. f_equal. symmetry. apply Int_part_spec. lra.
Qed.

(** Two aircraft 3.4 km and 500 ft apart: one alert, of severity MEDIUM,
    which is then the list of active alerts. *)
Example end_to_end_collision :
  ∃ alert,
    result (CollisionDetectionService.checkCollisionRisks CollisionDetectionService.new)
      scenario_world = [alert] ∧
    CollisionAlert.aircraft1 alert = "DLH401" ∧
    CollisionAlert.aircraft2 alert = "UAL902" ∧
    CollisionAlert.altitudeDiff alert = Fin 500 ∧
    CollisionAlert.severity alert = MEDIUM ∧
    result CollisionDetectionService.getActiveAlerts
      (world_after
         (CollisionDetectionService.checkCollisionRisks CollisionDetectionService.new)
         scenario_world)
    = [JCollision alert].
Proof.
  destruct (checkCollisionRisks_run CollisionDetectionService.new scenario_world
              scenario_store_wf) as (alerts & Hres & HF & Hredis).
  change (positions_of (redis scenario_world)) with [scenario_a; scenario_b] in HF.
  cbn [all_pairs map app] in HF.
  rewrite filter_cons_True in HF by apply scenario_unsafe.
  rewrite filter_nil in HF.
  apply Forall2_cons_inv_r in HF as (alert & rest & (now & ts & ->) & ->%Forall2_nil_inv_r & ->).
  cbn [fst snd] in Hres |- *.
  eexists. split; [exact Hres |]. split_and!.
  - reflexivity.
  - reflexivity.
  - unfold pair_alert. cbn [CollisionAlert.altitudeDiff].
    rewrite scenario_altitude_difference. cbn [Math_round lift1]. f_equal.
    apply round_IZR.
  - unfold pair_alert. cbn [CollisionAlert.severity]. apply scenario_severity.
  - unfold result, CollisionDetectionService.getActiveAlerts. rewrite redis_read_run.
    cbn [fst]. rewrite Hredis. cbn [foldl]. unfold lRange.
    rewrite list_range_all. unfold store_collision. by rewrite list_at_stored.
Qed.

(** An aircraft at 450 ft outside the approach zone of Frankfurt, one at
    800 ft above the airport and one at cruising altitude: a CRITICAL
    alert, a SAFE entry, and three monitored aircraft. *)
Example end_to_end_altitude :
  let res :=
    result (AltitudeCheckService.checkLowAltitudeAircraft AltitudeCheckService.new)
      altitude_world in
  AltitudeAlert.callsign <$> AltitudeResult.alerts res = ["EZY8492"; "RYR7384"] ∧
  AltitudeAlert.severity <$> AltitudeResult.alerts res = [CRITICAL; SAFE] ∧
  AltitudeAlert.inAirportZone <$> AltitudeResult.alerts res = [false; true] ∧
  AltitudeResult.totalAircraft res = 3 ∧
  AircraftInfo.callsign <$> AltitudeResult.monitoredAircraft res
    = ["EZY8492"; "RYR7384"; "DLH401"].
Proof.
  intros res.
  destruct (checkLowAltitudeAircraft_run AltitudeCheckService.new altitude_world
              altitude_store_wf) as (Hmon & Htotal & HF & _).
  fold res in Hmon, Htotal, HF.
  change (monitored (redis altitude_world)) with [hash_low_out; hash_low_in; hash_a]
    in Hmon, HF.
  assert (low AltitudeCheckService.new hash_low_out) as Hlow1
    by (apply lt_Fin; lra).
  assert (low AltitudeCheckService.new hash_low_in) as Hlow2
    by (apply lt_Fin; lra).
  assert (¬ low AltitudeCheckService.new hash_a) as Hhigh
    by (intros H%lt_Fin; lra).
  rewrite filter_cons_True, filter_cons_True, filter_cons_False, filter_nil in HF by done.
  apply Forall2_cons_inv_r in HF as (a1 & rest1 & (n1 & t1 & ->) & HF & Heq).
  apply Forall2_cons_inv_r in HF as (a2 & rest2 & (n2 & t2 & ->) & ->%Forall2_nil_inv_r & ->).
  pose proof (zone_info_outside _ _ _ low_out_outside) as Hout.
  destruct (zone_info_inside _ _ _ _ low_in_inside) as (_ & _ & _ & Hin & _).
  rewrite Heq, Htotal, Hmon. unfold altitude_alert. rewrite Hout, Hin.
  split_and!; try done.
  cbn. unfold AltitudeCheckService.calculateSeverity.
  by rewrite (proj2 (lt_Fin 450 500)) by lra.
Qed.

End Scenarios.

(** * Further properties *)

(** ** The distance *)

Section Distance.

Import CollisionDetectionService.

Local Open Scope R_scope.

(** The haversine term is between 0 and 1 for all coordinates. *)
Lemma hav_range (lat1 lon1 lat2 lon2 : R) : 0 <= hav lat1 lon1 lat2 lon2 <= 1.
Proof.
  unfold hav.
  set (A := lat1 * PI / 180). set (B := lat2 * PI / 180).
  set (u := (lat2 - lat1) * PI / 180 / 2). set (v := (lon2 - lon1) * PI / 180 / 2).
  assert (sin u * sin u = (1 - cos (B - A)) / 2) as Hu.
  { replace (B - A) with (2 * u) by (unfold A, B, u; lra).
    rewrite cos_2a_sin. lra. }
  pose proof (COS_bound (B - A)) as Hm. pose proof (COS_bound (B + A)) as Hp.
  rewrite cos_minus in Hu, Hm. rewrite cos_plus in Hp.
  pose proof (sin2_cos2 v) as Hv. unfold Rsqr in Hv.
  assert (0 <= sin v * sin v <= 1) as Hq by nra.
  set (q := sin v * sin v) in *.
  replace (cos A * cos B * sin v * sin v) with (cos A * cos B * q) by (unfold q; ring).
  rewrite Hu.
  set (cc := cos B * cos A) in *. set (ss := sin B * sin A) in *.
  replace (cos A * cos B) with cc by (unfold cc; ring).
  split; nra.
Qed.

(** [X1] For two points with latitudes between -90 and 90 that are at
    most 45 degrees apart in latitude and in longitude, the haversine term
    is at most 1/2 and [calculateDistance] is a number, between 0 and a
    quarter of the circumference of the sphere. *)
Theorem calculateDistance_range (lat1 lon1 lat2 lon2 : R) :
  -90 <= lat1 <= 90 → -90 <= lat2 <= 90 →
  Rabs (lat2 - lat1) <= 45 → Rabs (lon2 - lon1) <= 45 →
  hav lat1 lon1 lat2 lon2 <= 1 / 2 ∧
  ∃ d, calculateDistance (Fin lat1) (Fin lon1) (Fin lat2) (Fin lon2) = Fin d ∧
       0 <= d <= 6371 * PI / 2.
Proof.
  intros Hlat1 Hlat2 Hdlat Hdlon.
  pose proof (hav_range lat1 lon1 lat2 lon2) as [H0 _].
  pose proof (hav_bounds lat1 lon1 lat2 lon2 Hlat1 Hlat2) as [_ Hup]. cbv zeta in Hup.
  pose proof PI_RGT_0 as Hpi0. pose proof PI_4 as Hpi4.
  assert (-45 <= lat2 - lat1 <= 45) as Hdlat'
    by (revert Hdlat; unfold Rabs; destruct (Rcase_abs _); lra).
  assert (-45 <= lon2 - lon1 <= 45) as Hdlon'
    by (revert Hdlon; unfold Rabs; destruct (Rcase_abs _); lra).
  clear Hdlat Hdlon.
  set (u := (lat2 - lat1) * PI / 180 / 2) in *.
  set (v := (lon2 - lon1) * PI / 180 / 2) in *.
  assert (-(1 / 2) <= u <= 1 / 2) as Hu.
  { unfold u. split; nra. }
  assert (-(1 / 2) <= v <= 1 / 2) as Hv.
  { unfold v. split; nra. }
  assert (hav lat1 lon1 lat2 lon2 <= 1 / 2) as Ha by nra.
  split; [exact Ha |].
  set (a := hav lat1 lon1 lat2 lon2) in *.
  rewrite calculateDistance_Fin by (fold a; lra). fold a.
  eexists. split; [done |]. unfold central_distance.
  assert (0 < sqrt (1 - a)) as Hx by (apply sqrt_lt_R0; lra).
  assert (sqrt a <= sqrt (1 - a)) as Hle by (apply sqrt_le_1; lra).
  pose proof (sqrt_pos a) as Hy.
  assert (0 <= sqrt a / sqrt (1 - a) <= 1) as [Hr0 Hr1].
  { unfold Rdiv. pose proof (Rinv_0_lt_compat _ Hx) as Hi.
    pose proof (Rinv_l (sqrt (1 - a))) as Hone.
    rewrite Rmult_comm in Hone. specialize (Hone ltac:(lra)).
    split; nra. }
  assert (0 <= atan (sqrt a / sqrt (1 - a)) <= PI / 4) as Hatan.
  { split.
    - destruct Hr0 as [Hr0 | <-]; [| rewrite atan_0; lra].
      left. rewrite <- atan_0. by apply atan_increasing.
    - destruct Hr1 as [Hr1 | ->]; [| rewrite atan_1; lra].
      left. rewrite <- atan_1. by apply atan_increasing. }
  lra.
Qed.

Lemma calculateDistance_range_witness :
  ∃ d, calculateDistance (Fin lat_a) (Fin lon_a) (Fin lat_b) (Fin lon_b) = Fin d ∧
       0 <= d <= 6371 * PI / 2.
Proof.
  apply (calculateDistance_range lat_a lon_a lat_b lon_b);
    unfold lat_a, lon_a, lat_b, lon_b; try lra;
    unfold Rabs; destruct (Rcase_abs _); lra.
Defined.

(** [X2] The distance from a point to itself is 0. *)
Theorem calculateDistance_same (lat lon : R) :
  calculateDistance (Fin lat) (Fin lon) (Fin lat) (Fin lon) = Fin 0.
Proof.
  rewrite calculateDistance_Fin by (rewrite hav_same; lra).
  by rewrite hav_same, central_distance_0.
Qed.

End Distance.

(** ** Rounding *)

Section Rounding.

Local Open Scope R_scope.

Lemma round_near (x : R) : x - / 2 < round x <= x + / 2.
Proof.
  unfold round. destruct (base_Int_part (x + / 2)) as [H1 H2]. lra.
Qed.

Lemma toFixed2_near (x : R) : Rabs (toFixed2 x - x) <= / 200.
Proof.
  unfold toFixed2. case_bool_decide.
  - pose proof (round_near (- x * 100)) as [H1 H2].
    apply Rabs_le. lra.
  - pose proof (round_near (x * 100)) as [H1 H2].
    apply Rabs_le. lra.
Qed.

Lemma round_diff (x : R) : Rabs (round x - x) <= / 2.
Proof. pose proof (round_near x). apply Rabs_le. lra. Qed.

End Rounding.

(** ** Collision detection: the alert of a pair *)

Section PairAlert.

Import CollisionDetectionService.

(** [X3] The alert of a pair names the two aircraft in the order they were
    given, carries their positions, and reports the distance to within
    0.005 km and the altitude difference, a whole number of feet, to within
    half a foot. *)
Theorem collision_alert_reports_pair (this : t) (a b : Aircraft.t) (w : World)
    (alert : CollisionAlert.t) :
  result (checkPairCollision this a b) w = Some alert →
  CollisionAlert.aircraft1 alert = Aircraft.callsign a ∧
  CollisionAlert.aircraft2 alert = Aircraft.callsign b ∧
  CollisionAlert.positions alert = (snapshot a, snapshot b) ∧
  ∃ d h d' (n : Z),
    distance_between a b = Fin d ∧ altitude_difference a b = Fin h ∧
    CollisionAlert.distance alert = Fin d' ∧
    CollisionAlert.altitudeDiff alert = Fin (IZR n) ∧
    (Rabs (d' - d) <= / 200)%R ∧ (Rabs (IZR n - h) <= / 2)%R.
Proof.
  intros Hres. apply checkPairCollision_Some in Hres as [Hu ->].
  apply unsafe_true in Hu as [Hd Hh].
  apply lt_true_Fin in Hd as (d & ? & Hd & _ & _).
  apply lt_true_Fin in Hh as (h & ? & Hh & _ & _).
  split_and!; try done.
  exists d, h, (toFixed2 d), (Int_part (h + / 2)).
  unfold pair_alert. cbn [CollisionAlert.distance CollisionAlert.altitudeDiff].
  rewrite Hd, Hh. split_and!; try done.
  - apply toFixed2_near.
  - apply (round_diff h).
Qed.

Lemma collision_alert_reports_pair_witness :
  ∃ alert,
    result (checkPairCollision new scenario_a scenario_b) empty_world = Some alert ∧
    CollisionAlert.aircraft1 alert = "DLH401" ∧
    CollisionAlert.aircraft2 alert = "UAL902".
Proof.
  pose proof (checkPairCollision_run new scenario_a scenario_b empty_world) as Hrun.
  rewrite scenario_unsafe in Hrun.
  eexists. split; [unfold result; by rewrite Hrun |].
  destruct (collision_alert_reports_pair new scenario_a scenario_b empty_world _
              (f_equal fst Hrun)) as (H1 & H2 & _).
  done.
Defined.

(** [X4] The severity of a collision risk never falls when the two
    aircraft are closer in both distance and altitude. *)
Theorem collision_severity_monotone (d1 h1 d2 h2 : R) :
  (d1 <= d2)%R → (h1 <= h2)%R →
  severity_rank (calculateSeverity (Fin d2) (Fin h2))
    ≤ severity_rank (calculateSeverity (Fin d1) (Fin h1)).
Proof.
  intros Hd Hh. unfold calculateSeverity, lt.
  repeat case_bool_decide; cbn; try lia; lra.
Qed.

Lemma collision_severity_monotone_witness :
  severity_rank (calculateSeverity (Fin 4) (Fin 600))
    ≤ severity_rank (calculateSeverity (Fin 1) (Fin 100)).
Proof. apply collision_severity_monotone; lra. Defined.

End PairAlert.

(** ** Collision detection: a cycle *)

Section CollisionCycle.

Import CollisionDetectionService.

Lemma with_redis_same (w : World) : with_redis (redis w) w = w.
Proof. by destruct w. Qed.

Lemma advance_0 (w : World) : advance 0 w = w.
Proof. by destruct w. Qed.

Lemma read_hashes_wf (r : Redis) : store_wf r → read_hashes r = (hashes r).*2.
Proof.
  intros Hwf. unfold read_hashes. rewrite (keys_all _ Hwf).
  apply hGetAll_keys, Hwf.
Qed.

(** A cycle on any store: the pairs are those of the airborne entries
    read, and the alerts are stored in their order. *)
Lemma checkCollisionRisks_any this w :
  ∃ alerts,
    result (checkCollisionRisks this) w = alerts ∧
    Forall2 raised_for alerts
      (filter (λ p, unsafe this p.1 p.2 = true)
         (all_pairs (map to_aircraft (filter airborne (read_hashes (redis w)))))) ∧
    world_after (checkCollisionRisks this) w =
      advance (2 * length alerts)
        (with_redis (foldl store_collision (redis w) alerts) w).
Proof.
  unfold result, world_after, checkCollisionRisks, read_hashes. run.
  set (ks := keys "aircraft:*:position" (redis w)).
  destruct (length ks <? 2)%nat eqn:Hlen.
  - exists []. cbn [foldl length Nat.mul]. rewrite with_redis_same, advance_0.
    split_and!; [done | | done].
    apply Nat.ltb_lt in Hlen.
    rewrite all_pairs_short; [constructor |].
    rewrite length_map.
    pose proof (length_filter airborne (map (λ k, hGetAll k (redis w)) ks)) as Hf.
    rewrite length_map in Hf. lia.
  - run. rewrite read_positions_run. cbn [fst snd app].
    destruct (check_pairs_run this
                (map to_aircraft (filter airborne (map (λ k, hGetAll k (redis w)) ks)))
                [] w) as (new & H1 & HF & Hw).
    unfold result, world_after in H1, Hw. exists new. by rewrite H1, Hw.
Qed.

Lemma all_pairs_distinct {A B : Type} (f : A → B) (l : list A) (x y : A) :
  NoDup (f <$> l) → (x, y) ∈ all_pairs l → f x ≠ f y.
Proof.
  induction l as [| z l IH]; cbn [all_pairs]; intros Hnd Hin.
  - by apply elem_of_nil in Hin.
  - rewrite fmap_cons in Hnd. apply NoDup_cons in Hnd as [Hz Hnd].
    apply elem_of_app in Hin as [Hin | Hin]; [| by apply IH].
    apply list_elem_of_fmap in Hin as (y' & [= -> ->] & Hy).
    intros Heq. apply Hz. rewrite Heq. by apply list_elem_of_fmap_2.
Qed.

Lemma hashes_foldl_store_collision (alerts : list CollisionAlert.t) (r : Redis) :
  hashes (foldl store_collision r alerts) = hashes r.
Proof.
  revert r. induction alerts as [| a alerts IH]; intros r; [done |].
  cbn [foldl]. rewrite IH. apply hashes_stored.
Qed.

Lemma summary_store_wf : store_wf (redis summary_world).
Proof.
  split.
  - cbn. apply NoDup_cons. split; [| apply NoDup_singleton].
    rewrite list_elem_of_singleton. by vm_compute.
  - intros k h Hin. cbn in Hin.
    apply elem_of_cons in Hin as [[= -> ->] | Hin]; [done |].
    apply elem_of_cons in Hin as [[= -> ->] | Hin]; [done |].
    by apply elem_of_nil in Hin.
Qed.

(** [X5] Every alert of a cycle is about two different aircraft, both
    airborne entries of the position store, the first before the second,
    and the pair is unsafe. *)
Theorem collision_alerts_between_monitored (this : t) (w : World)
    (alert : CollisionAlert.t) :
  store_wf (redis w) →
  alert ∈ result (checkCollisionRisks this) w →
  ∃ h1 h2,
    h1 ∈ monitored (redis w) ∧ h2 ∈ monitored (redis w) ∧
    CollisionAlert.aircraft1 alert = Hash.callsign h1 ∧
    CollisionAlert.aircraft2 alert = Hash.callsign h2 ∧
    CollisionAlert.aircraft1 alert ≠ CollisionAlert.aircraft2 alert ∧
    unsafe this (to_aircraft h1) (to_aircraft h2) = true.
Proof.
  intros Hwf Hin.
  destruct (checkCollisionRisks_any this w) as (alerts & Hres & HF & _).
  rewrite Hres in Hin. rewrite (read_hashes_wf _ Hwf) in HF.
  destruct (Forall2_elem_l _ _ _ _ HF Hin) as ([a b] & Hp & now & ts & ->).
  apply list_elem_of_filter in Hp as [Hu Hp]. cbn [fst snd] in *.
  pose proof (all_pairs_distinct Aircraft.callsign _ _ _
                (positions_of_callsigns _ Hwf) Hp) as Hne.
  apply elem_of_all_pairs in Hp as [Ha Hb].
  apply list_elem_of_fmap in Ha as (h1 & -> & Hh1).
  apply list_elem_of_fmap in Hb as (h2 & -> & Hh2).
  by exists h1, h2.
Qed.

Lemma collision_alerts_between_monitored_witness :
  ∃ alert, alert ∈ result (checkCollisionRisks new) scenario_world ∧
           CollisionAlert.aircraft1 alert ≠ CollisionAlert.aircraft2 alert.
Proof.
  destruct end_to_end_collision as (alert & Hres & _).
  assert (alert ∈ result (checkCollisionRisks new) scenario_world) as Hin
    by (rewrite Hres; left).
  exists alert. split; [exact Hin |].
  destruct (collision_alerts_between_monitored new scenario_world alert
              scenario_store_wf Hin) as (h1 & h2 & _ & _ & _ & _ & Hne & _).
  exact Hne.
Defined.

(** [X6] A cycle leaves the position store, the graph, the schedules and
    the clock as they are, and reads the clock twice for each alert. *)
Theorem collision_cycle_frame (this : t) (w : World) :
  let w' := world_after (checkCollisionRisks this) w in
  hashes (redis w') = hashes (redis w) ∧
  neo4j w' = neo4j w ∧ mongodb w' = mongodb w ∧ clock w' = clock w ∧
  ticks w' = 2 * length (result (checkCollisionRisks this) w) + ticks w.
Proof.
  destruct (checkCollisionRisks_any this w) as (alerts & Hres & _ & Hw).
  cbn zeta. rewrite Hres, Hw. cbn.
  by rewrite hashes_foldl_store_collision.
Qed.

(** [X7] With fewer than two airborne aircraft among the entries read, a
    cycle gives no alert and changes nothing, whether the early return is
    taken or not. *)
Theorem collision_cycle_needs_two (this : t) (w : World) :
  length (filter airborne (read_hashes (redis w))) < 2 →
  result (checkCollisionRisks this) w = [] ∧
  world_after (checkCollisionRisks this) w = w.
Proof.
  intros Hlen.
  destruct (checkCollisionRisks_any this w) as (alerts & Hres & HF & Hw).
  rewrite all_pairs_short in HF by (by rewrite length_map).
  apply Forall2_nil_inv_r in HF. rewrite HF in Hres, Hw.
  split; [done |]. rewrite Hw. cbn [foldl length Nat.mul].
  by rewrite with_redis_same, advance_0.
Qed.

Lemma collision_cycle_needs_two_witness :
  length (keys "aircraft:*:position" (redis summary_world)) = 2 ∧
  result (checkCollisionRisks new) summary_world = [] ∧
  world_after (checkCollisionRisks new) summary_world = summary_world.
Proof.
  split; [by rewrite (keys_all _ summary_store_wf) |].
  apply collision_cycle_needs_two.
  rewrite (read_hashes_wf _ summary_store_wf). cbn [redis summary_world world_of hashes fmap list_fmap snd].
  rewrite filter_cons_True by (split; by vm_compute).
  rewrite filter_cons_False by (intros [_ H]; by apply H).
  cbn. lia.
Defined.

(** [X8] After a cycle the list of active alerts starts with the alerts of
    the cycle, the last one first, followed by the earlier ones, 100 at
    most; a cycle without alert leaves the list as it is. *)
Theorem collision_active_after_cycle (this : t) (w : World) :
  let alerts := result (checkCollisionRisks this) w in
  result getActiveAlerts (world_after (checkCollisionRisks this) w) =
  match alerts with
  | [] => result getActiveAlerts w
  | _ => take 100 (reverse (JCollision <$> alerts) ++ result getActiveAlerts w)
  end.
Proof.
  destruct (checkCollisionRisks_any this w) as (alerts & Hres & _ & Hw).
  cbn zeta. rewrite Hres, Hw.
  unfold result, getActiveAlerts, lRange. rewrite !redis_read_run. cbn [fst].
  rewrite !list_range_all.
  destruct alerts as [| a alerts]; [done |].
  cbn [redis advance with_redis].
  apply (list_at_foldl_stored "alert:collision:" "alerts:collision:active"
           CollisionAlert.id JCollision).
Qed.

(** [X9] Storing an alert puts it under its key [alert:collision:<id>]
    and at the head of the list of active alerts, which never holds more
    than 100 alerts afterwards; the position store is not touched. *)
Theorem collision_storeAlert_round_trip (alert : CollisionAlert.t) (w : World) :
  let w' := world_after (storeAlert alert) w in
  get ("alert:collision:" +:+ CollisionAlert.id alert) (redis w') = Some (JCollision alert) ∧
  head (result getActiveAlerts w') = Some (JCollision alert) ∧
  length (result getActiveAlerts w') ≤ 100 ∧
  hashes (redis w') = hashes (redis w).
Proof.
  cbn zeta. unfold world_after. rewrite collision_storeAlert_run. cbn [snd].
  unfold result, getActiveAlerts, lRange. rewrite redis_read_run. cbn [fst].
  rewrite list_range_all. cbn [redis with_redis].
  unfold store_collision. rewrite list_at_stored, hashes_stored.
  split_and!; [| done | | done].
  - unfold get. rewrite strings_stored, lookup_insert_eq. done.
  - rewrite length_take. lia.
Qed.

End CollisionCycle.

(** ** The history of alerts *)

Section History.

Lemma read_alerts_run (ks : list string) (acc : list Json) (w : World) :
  read_alerts ks acc w = (acc ++ omap (λ k, get k (redis w)) ks, w).
Proof.
  revert acc. induction ks as [| k ks IH]; intros acc; cbn [read_alerts omap].
  - by rewrite ret_run, app_nil_r.
  - run. unfold list_omap. fold (omap (λ k, get k (redis w)) ks).
    destruct (get k (redis w)) as [data |]; rewrite IH; [| done].
    by rewrite <- app_assoc.
Qed.

Lemma insert_latest_perm (x : Json) (l : list Json) : insert_latest x l ≡ₚ x :: l.
Proof.
  induction l as [| y l IH]; cbn [insert_latest]; [done |].
  destruct (json_timestamp y <=? json_timestamp x)%N; [done |].
  rewrite IH. apply Permutation_swap.
Qed.

Lemma sort_latest_first_perm (l : list Json) : sort_latest_first l ≡ₚ l.
Proof.
  induction l as [| x l IH]; [done |].
  cbn. fold (sort_latest_first l). by rewrite insert_latest_perm, IH.
Qed.

Lemma insert_latest_sorted (x : Json) (l : list Json) :
  StronglySorted latest_first l → StronglySorted latest_first (insert_latest x l).
Proof.
  induction 1 as [| y l Hs IH Hy]; cbn [insert_latest].
  - repeat constructor.
  - destruct (json_timestamp y <=? json_timestamp x)%N eqn:Hle.
    + apply N.leb_le in Hle. constructor; [by constructor |].
      constructor; [done |].
      eapply Forall_impl; [exact Hy |]. unfold latest_first. intros z Hz. lia.
    + apply N.leb_gt in Hle. constructor; [done |].
      rewrite insert_latest_perm. constructor; [| done].
      unfold latest_first. lia.
Qed.

Lemma sort_latest_first_sorted (l : list Json) :
  StronglySorted latest_first (sort_latest_first l).
Proof.
  induction l as [| x l IH]; [constructor |].
  cbn. by apply insert_latest_sorted.
Qed.

Lemma elem_of_string_keys (pattern : string) (r : Redis) (k : string) :
  k ∈ string_keys pattern r ↔ glob_match pattern k = true ∧ is_Some (strings r !! k).
Proof.
  unfold string_keys. rewrite list_elem_of_filter, list_elem_of_fmap.
  split.
  - intros [Hg ([k' v] & -> & Hin)]. split; [done |].
    apply elem_of_map_to_list in Hin. by exists v.
  - intros [Hg [v Hv]]. split; [done |]. exists (k, v). split; [done |].
    by apply elem_of_map_to_list.
Qed.

Lemma slice_0_length {A : Type} (l : list A) (n : Z) :
  (0 <= n)%Z → length (slice_0 l n) ≤ Z.to_nat n.
Proof.
  intros Hn. unfold slice_0.
  destruct (n <? 0)%Z eqn:Hneg; [apply Z.ltb_lt in Hneg; lia |].
  rewrite length_take. lia.
Qed.

Lemma slice_0_all {A : Type} (l : list A) (n : Z) :
  (Z.of_nat (length l) <= n)%Z → slice_0 l n = l.
Proof.
  intros Hn. unfold slice_0.
  destruct (n <? 0)%Z eqn:Hneg; [apply Z.ltb_lt in Hneg; lia |].
  apply take_ge. lia.
Qed.

Lemma elem_of_slice_0 {A : Type} (l : list A) (n : Z) (x : A) : x ∈ slice_0 l n → x ∈ l.
Proof. unfold slice_0. apply subseteq_take. Qed.

Lemma omap_length_le {A B : Type} (f : A → option B) (l : list A) :
  length (omap f l) ≤ length l.
Proof.
  induction l as [| x l IH]; [done |].
  cbn. destruct (f x); cbn; lia.
Qed.

(** The alerts read under the first keys of a pattern. *)
Lemma read_history_run (pattern : string) (limit : Z) (w : World) :
  (keys ← redis_read (string_keys pattern);
   alerts ← read_alerts (slice_0 keys limit) [];
   mret (sort_latest_first alerts)) w =
  (sort_latest_first
     (omap (λ k, get k (redis w)) (slice_0 (string_keys pattern (redis w)) limit)), w).
Proof. run. rewrite read_alerts_run. by run. Qed.

Lemma read_history_stored (pattern : string) (limit : Z) (r : Redis) (a : Json) :
  a ∈ sort_latest_first (omap (λ k, get k r) (slice_0 (string_keys pattern r) limit)) →
  stored_under pattern r a.
Proof.
  rewrite sort_latest_first_perm, list_elem_of_omap.
  intros (k & Hk & Hget). apply elem_of_slice_0, elem_of_string_keys in Hk as [Hg _].
  unfold get in Hget. destruct (strings r !! k) as [[a' ttl] |] eqn:Hs; [| done].
  injection Hget as ->. by exists k, ttl.
Qed.

Lemma read_history_length (pattern : string) (limit : Z) (r : Redis) :
  (0 <= limit)%Z →
  length (sort_latest_first (omap (λ k, get k r) (slice_0 (string_keys pattern r) limit)))
  ≤ Z.to_nat limit.
Proof.
  intros Hl. rewrite sort_latest_first_perm.
  etransitivity; [apply omap_length_le |]. by apply slice_0_length.
Qed.

Lemma read_history_complete (pattern : string) (limit : Z) (r : Redis) (a : Json) :
  (Z.of_nat (length (string_keys pattern r)) <= limit)%Z →
  stored_under pattern r a →
  a ∈ sort_latest_first (omap (λ k, get k r) (slice_0 (string_keys pattern r) limit)).
Proof.
  intros Hl (k & ttl & Hg & Hs).
  rewrite sort_latest_first_perm, slice_0_all, list_elem_of_omap by done.
  exists k. split.
  - apply elem_of_string_keys. split; [done |]. by rewrite Hs.
  - unfold get. by rewrite Hs.
Qed.

Lemma glob_prefix_star (prefix rest : string) :
  plain prefix → glob_match (prefix +:+ "*") (prefix +:+ rest) = true.
Proof.
  intros Hp. unfold glob_match. rewrite !list_ascii_of_string_app.
  rewrite glob_tokens_plain_app by done.
  rewrite toks_match_lits_app. cbn [String.list_ascii_of_string glob_tokens].
  rewrite <- (app_nil_r (String.list_ascii_of_string rest)).
  by apply toks_match_star.
Qed.

Lemma plain_collision_prefix : plain "alert:collision:".
Proof. unfold plain. cbn. repeat (constructor; [done |]). constructor. Qed.

Lemma plain_altitude_prefix : plain "alert:low-altitude:".
Proof. unfold plain. cbn. repeat (constructor; [done |]). constructor. Qed.

(** [X10] Both histories only read the store.  With a limit that is not
    negative (50 when none is given) they hold at most that many alerts,
    the latest first, each of them the value of a key of the service's
    pattern. *)
Theorem alert_history_sorted_bounded (limit : option Z) (w : World) :
  (0 <= default 50 limit)%Z →
  let collisions := result (CollisionDetectionService.getAlertHistory limit) w in
  let altitudes := result (AltitudeCheckService.getAlertHistory limit) w in
  world_after (CollisionDetectionService.getAlertHistory limit) w = w ∧
  world_after (AltitudeCheckService.getAlertHistory limit) w = w ∧
  StronglySorted latest_first collisions ∧ StronglySorted latest_first altitudes ∧
  length collisions ≤ Z.to_nat (default 50%Z limit) ∧
  length altitudes ≤ Z.to_nat (default 50%Z limit) ∧
  (∀ a, a ∈ collisions → stored_under "alert:collision:*" (redis w) a) ∧
  (∀ a, a ∈ altitudes → stored_under "alert:low-altitude:*" (redis w) a).
Proof.
  intros Hl. cbn zeta.
  unfold result, world_after, CollisionDetectionService.getAlertHistory,
    AltitudeCheckService.getAlertHistory.
  rewrite !read_history_run. cbn [fst snd].
  split_and!; try done.
  - apply sort_latest_first_sorted.
  - apply sort_latest_first_sorted.
  - by apply read_history_length.
  - by apply read_history_length.
  - intros a. apply read_history_stored.
  - intros a. apply read_history_stored.
Qed.

Lemma alert_history_sorted_bounded_witness :
  length (result (CollisionDetectionService.getAlertHistory None)
            (store_collision_alerts (sample_collision_alert <$> seq 0 150) empty_world))
  ≤ 50.
Proof.
  refine (proj1 (proj2 (proj2 (proj2 (proj2
    (alert_history_sorted_bounded None
       (store_collision_alerts (sample_collision_alert <$> seq 0 150) empty_world) _)))))).
  cbn. lia.
Defined.

Lemma stored_under_collision (alert : CollisionAlert.t) (w : World) :
  stored_under "alert:collision:*"
    (redis (world_after (CollisionDetectionService.storeAlert alert) w)) (JCollision alert).
Proof.
  unfold world_after. rewrite collision_storeAlert_run. cbn [snd redis with_redis].
  exists ("alert:collision:" +:+ CollisionAlert.id alert), 300%N. split.
  - apply (glob_prefix_star "alert:collision:"), plain_collision_prefix.
  - unfold store_collision. by rewrite strings_stored, lookup_insert_eq.
Qed.

Lemma stored_under_altitude (alert : AltitudeAlert.t) (w : World) :
  stored_under "alert:low-altitude:*"
    (redis (world_after (AltitudeCheckService.storeAlert alert) w)) (JAltitude alert).
Proof.
  unfold world_after. rewrite altitude_storeAlert_run. cbn [snd redis with_redis].
  exists ("alert:low-altitude:" +:+ AltitudeAlert.id alert), 300%N. split.
  - apply (glob_prefix_star "alert:low-altitude:"), plain_altitude_prefix.
  - unfold store_altitude. by rewrite strings_stored, lookup_insert_eq.
Qed.

(** [X11] Each history is complete when the store holds no more keys of
    its own pattern than the limit: it then holds exactly the alerts stored
    under those keys, whatever the store holds under the keys of the other
    service.  In particular an alert is in the history of its service right
    after [storeAlert], when the keys of the pattern are then no more than
    the limit. *)
Theorem alert_history_complete (limit : option Z) (w : World) :
  let within pattern r :=
    (Z.of_nat (length (string_keys pattern r)) <= default 50 limit)%Z in
  (within "alert:collision:*" (redis w) →
   ∀ a, a ∈ result (CollisionDetectionService.getAlertHistory limit) w
        ↔ stored_under "alert:collision:*" (redis w) a) ∧
  (within "alert:low-altitude:*" (redis w) →
   ∀ a, a ∈ result (AltitudeCheckService.getAlertHistory limit) w
        ↔ stored_under "alert:low-altitude:*" (redis w) a) ∧
  (∀ alert,
     let w' := world_after (CollisionDetectionService.storeAlert alert) w in
     within "alert:collision:*" (redis w') →
     JCollision alert ∈ result (CollisionDetectionService.getAlertHistory limit) w') ∧
  (∀ alert,
     let w' := world_after (AltitudeCheckService.storeAlert alert) w in
     within "alert:low-altitude:*" (redis w') →
     JAltitude alert ∈ result (AltitudeCheckService.getAlertHistory limit) w').
Proof.
  cbn zeta.
  unfold result, CollisionDetectionService.getAlertHistory,
    AltitudeCheckService.getAlertHistory.
  split_and!.
  - intros Hc a. rewrite read_history_run. cbn [fst].
    split; [apply read_history_stored | by apply read_history_complete].
  - intros Ha a. rewrite read_history_run. cbn [fst].
    split; [apply read_history_stored | by apply read_history_complete].
  - intros alert Hc. rewrite read_history_run. cbn [fst].
    apply read_history_complete; [done | apply stored_under_collision].
  - intros alert Ha. rewrite read_history_run. cbn [fst].
    apply read_history_complete; [done | apply stored_under_altitude].
Qed.

Lemma alert_history_complete_witness :
  JCollision (sample_collision_alert 7) ∈
    result (CollisionDetectionService.getAlertHistory None)
      (world_after (CollisionDetectionService.storeAlert (sample_collision_alert 7))
         empty_world).
Proof.
  set (alert := sample_collision_alert 7).
  refine (proj1 (proj2 (proj2 (alert_history_complete None empty_world))) alert _).
  cbn zeta.
  set (w := world_after (CollisionDetectionService.storeAlert alert) empty_world).
  assert (strings (redis w) =
          {[ "alert:collision:" +:+ CollisionAlert.id alert := (JCollision alert, 300%N) ]})
    as Hs.
  { unfold w, world_after. rewrite collision_storeAlert_run. cbn [snd redis with_redis].
    unfold store_collision. by rewrite strings_stored. }
  unfold string_keys. rewrite Hs, map_to_list_singleton.
  etransitivity; [apply inj_le, length_filter |]. cbn. lia.
Defined.

End History.

(** ** The zone lookup: the nearest first *)

Section Nearest.

Import AltitudeCheckService.







End Nearest.

(** ** Altitude check: a cycle *)

Section AltitudeCycleAny.

Import AltitudeCheckService.

(** A cycle on any store. *)
Lemma checkLowAltitudeAircraft_any this w :
  let hs := filter airborne (read_hashes (redis w)) in
  let res := result (checkLowAltitudeAircraft this) w in
  AltitudeResult.monitoredAircraft res = map (info_of (neo4j w)) hs ∧
  AltitudeResult.totalAircraft res = length hs ∧
  Forall2 (altitude_raised_for (neo4j w)) (AltitudeResult.alerts res)
    (filter (low this) hs) ∧
  world_after (checkLowAltitudeAircraft this) w =
    advance (2 * length (AltitudeResult.alerts res))
      (with_redis
         (foldl store_altitude (redis w) (filter is_risk (AltitudeResult.alerts res))) w).
Proof.
  intros hs res. subst hs res.
  unfold result, world_after, checkLowAltitudeAircraft, read_hashes.
  rewrite bind_run, redis_read_run. cbn [fst snd]. rewrite bind_run.
  destruct (check_keys_run this (keys "aircraft:*:position" (redis w)) [] [] w)
    as (new & Hres & HF & Hw).
  cbv zeta in Hres, HF.
  rewrite Hw, Hres. cbn. by rewrite length_map.
Qed.

(** [X14] The severity of a low altitude never falls when the aircraft is
    lower. *)
Theorem altitude_severity_monotone (a1 a2 : R) :
  (a1 <= a2)%R →
  severity_rank (calculateSeverity (Fin a2)) ≤ severity_rank (calculateSeverity (Fin a1)).
Proof.
  intros Ha. unfold calculateSeverity, lt.
  repeat case_bool_decide; cbn; try lia; lra.
Qed.

Lemma altitude_severity_monotone_witness :
  severity_rank (calculateSeverity (Fin 800)) ≤ severity_rank (calculateSeverity (Fin 450)).
Proof. apply altitude_severity_monotone. lra. Defined.

(** [X15] Every alert of a cycle is about an aircraft of the monitored
    snapshot, with the same readings and the same zone flag, whose altitude
    is below the floor.  Its severity is SAFE exactly when it is flagged as
    inside a zone, and an alert flagged as outside names no airport and no
    zone.  There are no more alerts than monitored aircraft. *)
Theorem altitude_alerts_of_monitored (this : t) (w : World) (alert : AltitudeAlert.t) :
  let res := result (checkLowAltitudeAircraft this) w in
  alert ∈ AltitudeResult.alerts res →
    length (AltitudeResult.alerts res) ≤ AltitudeResult.totalAircraft res ∧
    (AltitudeAlert.altitude alert <? MIN_SAFE_ALTITUDE_FT this)%num = true ∧
    (AltitudeAlert.severity alert = SAFE ↔ AltitudeAlert.inAirportZone alert = true) ∧
    (AltitudeAlert.inAirportZone alert = true ∨
     AltitudeAlert.airportName alert = None ∧ AltitudeAlert.zoneName alert = None) ∧
    ∃ info, info ∈ AltitudeResult.monitoredAircraft res ∧
      AircraftInfo.callsign info = AltitudeAlert.callsign alert ∧
      AircraftInfo.altitude info = AltitudeAlert.altitude alert ∧
      AircraftInfo.latitude info = AltitudeAlert.latitude alert ∧
      AircraftInfo.longitude info = AltitudeAlert.longitude alert ∧
      AircraftInfo.velocity info = AltitudeAlert.velocity alert ∧
      AircraftInfo.heading info = AltitudeAlert.heading alert ∧
      AircraftInfo.inAirportZone info = AltitudeAlert.inAirportZone alert ∧
      AircraftInfo.distanceToAirport info = AltitudeAlert.distanceToAirport alert.
Proof.
  destruct (checkLowAltitudeAircraft_any this w) as (Hmon & Htot & HF & _).
  cbn zeta. intros Hin. split.
  - rewrite Htot, (Forall2_length _ _ _ HF). apply length_filter.
  - destruct (Forall2_elem_l _ _ _ _ HF Hin) as (h & Hh & now & ts & ->).
    apply list_elem_of_filter in Hh as [Hlow Hh].
    assert (info_of (neo4j w) h ∈
            AltitudeResult.monitoredAircraft (result (checkLowAltitudeAircraft this) w))
      as Hinfo.
    { rewrite Hmon. change (map ?f ?l) with (f <$> l). by apply list_elem_of_fmap_2. }
    unfold altitude_alert.
    destruct (ZoneInfo.inZone (zone_info (neo4j w) (Hash.latitude h) (Hash.longitude h)))
      eqn:Hz; cbn.
    + split_and!; [done | done | by left |].
      exists (info_of (neo4j w) h). split; [exact Hinfo |].
      unfold info_of. cbn. by rewrite Hz.
    + split_and!; [done | | by right |].
      * split; [| done]. unfold calculateSeverity. by repeat case_match.
      * exists (info_of (neo4j w) h). split; [exact Hinfo |].
        unfold info_of. cbn. by rewrite Hz.
Qed.

Lemma altitude_alerts_of_monitored_witness :
  ∃ alert,
    alert ∈ AltitudeResult.alerts (result (checkLowAltitudeAircraft new) altitude_world) ∧
    AltitudeAlert.callsign alert = "EZY8492" ∧
    (AltitudeAlert.altitude alert <? Fin 1000)%num = true.
Proof.
  pose proof end_to_end_altitude as (Hc & _). cbv zeta in Hc.
  destruct (AltitudeResult.alerts (result (checkLowAltitudeAircraft new) altitude_world))
    as [| a l] eqn:E; [done |].
  injection Hc as Hc _. exists a.
  assert (a ∈ AltitudeResult.alerts (result (checkLowAltitudeAircraft new) altitude_world))
    as Hin by (rewrite E; left).
  destruct (altitude_alerts_of_monitored new altitude_world a Hin) as (_ & Hlow & _).
  split_and!; [left | done | exact Hlow].
Defined.

(** [X16] A cycle leaves the position store, the graph, the schedules and
    the clock as they are, and reads the clock twice for each alert. *)
Theorem altitude_cycle_frame (this : t) (w : World) :
  let res := result (checkLowAltitudeAircraft this) w in
  let w' := world_after (checkLowAltitudeAircraft this) w in
  hashes (redis w') = hashes (redis w) ∧
  neo4j w' = neo4j w ∧ mongodb w' = mongodb w ∧ clock w' = clock w ∧
  ticks w' = 2 * length (AltitudeResult.alerts res) + ticks w.
Proof.
  destruct (checkLowAltitudeAircraft_any this w) as (_ & _ & _ & Hw).
  cbn zeta. rewrite Hw. cbn.
  by rewrite hashes_foldl_store_altitude.
Qed.

(** [X17] The query for the active altitude alerts is a cycle of its own:
    it puts the risks it finds on the stored list of active alerts, the
    last one first, in front of the earlier ones, 100 at most. *)
Theorem altitude_active_query_writes (this : t) (w : World) :
  let risks := filter is_risk (AltitudeResult.alerts (result (getActiveAlerts this) w)) in
  list_at "alerts:altitude:active" (redis (world_after (getActiveAlerts this) w)) =
  match risks with
  | [] => list_at "alerts:altitude:active" (redis w)
  | _ => take 100 (reverse (JAltitude <$> risks) ++ list_at "alerts:altitude:active" (redis w))
  end.
Proof.
  unfold getActiveAlerts.
  destruct (checkLowAltitudeAircraft_any this w) as (_ & _ & _ & Hw).
  cbn zeta. rewrite Hw. cbn [redis advance with_redis].
  destruct (filter is_risk _) as [| a risks]; [done |].
  apply (list_at_foldl_stored "alert:low-altitude:" "alerts:altitude:active"
           AltitudeAlert.id JAltitude).
Qed.

End AltitudeCycleAny.

(** ** Altitude check: the status of one aircraft *)

Section AltitudeStatusOf.

Import AltitudeCheckService.

Lemma getAircraftAltitudeStatus_run this callsign w :
  getAircraftAltitudeStatus this callsign w =
  match assoc_lookup (FlightMonitorService.key_of callsign) (hashes (redis w)) with
  | None => (None, w)
  | Some h =>
    let inZone := ZoneInfo.inZone (zone_info (neo4j w) (Hash.latitude h) (Hash.longitude h)) in
    (Some (AltitudeStatus.mk callsign (Hash.altitude h) (Hash.latitude h, Hash.longitude h)
             inZone ((Hash.altitude h >=? MIN_SAFE_ALTITUDE_FT this)%num || inZone)
             (MIN_SAFE_ALTITUDE_FT this) (clock w (ticks w))),
     advance 1 w)
  end.
Proof.
  unfold getAircraftAltitudeStatus. run.
  change ("aircraft:" +:+ callsign +:+ ":position")
    with (FlightMonitorService.key_of callsign).
  destruct (assoc_lookup _ _) as [h |]; [| by run].
  unfold isInAirportZone. run. rewrite getAirportZoneInfo_run. by run.
Qed.

Lemma lt_not_ge (a b : num) : (a <? b)%num = true → (a >=? b)%num = false.
Proof.
  destruct a as [| x], b as [| y]; try done. cbn.
  intros H%bool_decide_eq_true. apply bool_decide_eq_false. tauto.
Qed.

(** [X18] For an airborne entry of the position store whose altitude is a
    number, the status query and the cycle agree: the status has the
    altitude and position of the entry, flags the zone when a zone holds
    the position, and is not safe exactly when the cycle raises a risk
    alert for the aircraft. *)
Theorem altitude_status_agrees_with_cycle (this : t) (w : World) (k : string) (h : Hash.t) :
  store_wf (redis w) → (k, h) ∈ hashes (redis w) → airborne h →
  Hash.altitude h ≠ NaN → MIN_SAFE_ALTITUDE_FT this ≠ NaN →
  ∃ status,
    result (getAircraftAltitudeStatus this (Hash.callsign h)) w = Some status ∧
    AltitudeStatus.altitude status = Hash.altitude h ∧
    AltitudeStatus.position status = (Hash.latitude h, Hash.longitude h) ∧
    (AltitudeStatus.inAirportZone status = true ↔
     ∃ az, inside_zone (neo4j w) (Hash.latitude h) (Hash.longitude h) az) ∧
    (AltitudeStatus.isSafe status = false ↔
     ∃ alert, alert ∈ AltitudeResult.alerts (result (checkLowAltitudeAircraft this) w) ∧
              AltitudeAlert.callsign alert = Hash.callsign h ∧ is_risk alert).
Proof.
  intros Hwf Hin Hair Halt Hmin.
  pose proof (proj2 Hwf _ _ Hin) as Hk. subst k.
  unfold result. rewrite getAircraftAltitudeStatus_run.
  rewrite (assoc_lookup_NoDup _ _ _ (proj1 Hwf) Hin). cbn zeta. cbn [fst].
  eexists. split; [done |]. cbn.
  split_and!; [done | done | apply zone_info_inZone |].
  destruct (checkLowAltitudeAircraft_run this w Hwf) as (_ & _ & HF & _).
  pose proof (elem_of_monitored _ _ _ Hin Hair) as Hmon.
  split.
  - intros [Hge Hz]%orb_false_iff.
    assert (low this h) as Hlow.
    { unfold low. destruct (Hash.altitude h) as [| x]; [done |].
      destruct (MIN_SAFE_ALTITUDE_FT this) as [| m]; [done |].
      cbn in Hge |- *. apply bool_decide_eq_false in Hge. apply bool_decide_eq_true.
      destruct (Rlt_dec x m); tauto. }
    assert (h ∈ filter (low this) (monitored (redis w))) as Hf
      by by apply list_elem_of_filter.
    destruct (Forall2_elem_r _ _ _ _ HF Hf) as (alert & Ha & now & ts & ->).
    exists (altitude_alert (neo4j w) h now ts).
    split_and!; [done | apply altitude_alert_callsign |].
    by apply is_risk_altitude_alert.
  - intros (alert & Ha & Hc & Hr).
    destruct (Forall2_elem_l _ _ _ _ HF Ha) as (h' & Hh' & now & ts & ->).
    apply list_elem_of_filter in Hh' as [Hlow Hh'].
    rewrite altitude_alert_callsign in Hc.
    pose proof (NoDup_fmap_elem_inj Hash.callsign _ _ _
                  (monitored_callsigns _ Hwf) Hh' Hmon Hc) as ->.
    apply is_risk_altitude_alert in Hr. rewrite Hr, orb_false_r.
    by apply lt_not_ge.
Qed.

Lemma altitude_status_agrees_with_cycle_witness :
  ∃ status,
    result (getAircraftAltitudeStatus new "EZY8492") altitude_world = Some status ∧
    AltitudeStatus.altitude status = Fin 450.
Proof.
  destruct (altitude_status_agrees_with_cycle new altitude_world
              (FlightMonitorService.key_of "EZY8492") hash_low_out)
    as (status & Hres & Halt & _).
  - apply altitude_store_wf.
  - cbn. left.
  - split; by vm_compute.
  - done.
  - done.
  - by exists status.
Defined.

(** [X19] The status of an aircraft that has no entry in the position
    store is [null], and asking for it changes nothing. *)
Theorem altitude_status_of_unknown (this : t) (w : World) (callsign : string) :
  FlightMonitorService.key_of callsign ∉ (hashes (redis w)).*1 →
  result (getAircraftAltitudeStatus this callsign) w = None ∧
  world_after (getAircraftAltitudeStatus this callsign) w = w.
Proof.
  intros Hk. unfold result, world_after. rewrite getAircraftAltitudeStatus_run.
  destruct (assoc_lookup _ _) as [h |] eqn:Hl; [| done].
  exfalso. apply Hk. clear Hk.
  induction (hashes (redis w)) as [| [k' h'] l IH]; [done |].
  cbn in Hl |- *. case_bool_decide; [subst; left | right; by apply IH].
Qed.

Lemma altitude_status_of_unknown_witness :
  result (getAircraftAltitudeStatus new "BAW117") altitude_world = None.
Proof.
  refine (proj1 (altitude_status_of_unknown new altitude_world "BAW117" _)).
  cbn. rewrite !elem_of_cons. intros [H | [H | [H | H%elem_of_nil]]]; [| | | done];
    by vm_compute in H.
Defined.

(** ** Altitude check: what the history holds *)

Lemma stored_under_store_altitude (pattern : string) (r : Redis)
    (alert : AltitudeAlert.t) (a : Json) :
  stored_under pattern (store_altitude r alert) a →
  a = JAltitude alert ∨ stored_under pattern r a.
Proof.
  intros (k & ttl & Hg & Hs). unfold store_altitude in Hs.
  rewrite strings_stored in Hs.
  apply lookup_insert_Some in Hs as [[_ [= <- _]] | [_ Hs]]; [by left |].
  right. by exists k, ttl.
Qed.

Lemma stored_under_foldl_store_altitude (pattern : string) (alerts : list AltitudeAlert.t)
    (r : Redis) (a : Json) :
  stored_under pattern (foldl store_altitude r alerts) a →
  (∃ alert, alert ∈ alerts ∧ a = JAltitude alert) ∨ stored_under pattern r a.
Proof.
  revert r. induction alerts as [| alert alerts IH]; intros r; cbn [foldl]; [by right |].
  intros [(alert' & Hin & ->) | Hs]%IH.
  - left. exists alert'. split; [by right | done].
  - apply stored_under_store_altitude in Hs as [-> | Hs]; [| by right].
    left. exists alert. split; [left | done].
Qed.

(** [X20] The cycles never write a SAFE alert: when no SAFE alert is
    stored under the keys of the altitude alerts before a cycle, the
    history holds none after it. *)
Theorem altitude_history_never_SAFE (this : t) (w : World) (limit : option Z) :
  (∀ a, stored_under "alert:low-altitude:*" (redis w) (JAltitude a) → is_risk a) →
  ∀ a, JAltitude a ∈
         result (getAlertHistory limit) (world_after (checkLowAltitudeAircraft this) w) →
       AltitudeAlert.severity a ≠ SAFE.
Proof.
  intros Hinv a Hin.
  unfold result, getAlertHistory in Hin. rewrite read_history_run in Hin. cbn [fst] in Hin.
  apply read_history_stored in Hin.
  destruct (checkLowAltitudeAircraft_any this w) as (_ & _ & _ & Hw).
  rewrite Hw in Hin. cbn [redis advance with_redis] in Hin.
  apply stored_under_foldl_store_altitude in Hin as [(alert & Hr & [= ->]) | Hs].
  - by apply list_elem_of_filter in Hr as [Hr _].
  - by apply Hinv.
Qed.

Lemma altitude_history_never_SAFE_witness :
  Forall (λ j, match j with
               | JAltitude a => AltitudeAlert.severity a ≠ SAFE
               | JCollision _ => True
               end)
    (result (getAlertHistory None)
       (world_after (checkLowAltitudeAircraft new) altitude_world)).
Proof.
  apply Forall_forall. intros [a | a] Hin; [done |].
  apply (altitude_history_never_SAFE new altitude_world None); [| exact Hin].
  intros a' (k & ttl & _ & Hs). cbn in Hs. by rewrite lookup_empty in Hs.
Defined.

End AltitudeStatusOf.

(** ** Flight monitor: the live flights *)

Section LiveFlights.

Import FlightMonitorService.

Lemma read_flights_eq (ks : list string) (flights : list Flight.t) (w : World) :
  read_flights ks flights w =
  (flights ++ map (view_of w)
                (filter (λ h, Hash.callsign h ≠ "") (map (λ k, hGetAll k (redis w)) ks)), w).
Proof.
  revert flights. induction ks as [| k ks IH]; intros flights.
  - cbn. by rewrite app_nil_r.
  - cbn [read_flights map]. rewrite bind_run, redis_read_run. cbn [fst snd].
    destruct (decide (Hash.callsign (hGetAll k (redis w)) ≠ "")) as [Hc | Hc].
    + rewrite bool_decide_eq_true_2 by done.
      rewrite (filter_cons_True (λ h, Hash.callsign h ≠ "")) by done.
      rewrite !bind_run, getGateAssignment_run, getFlightSchedule_run, IH.
      cbn [map]. by rewrite <- app_assoc.
    + rewrite bool_decide_eq_false_2 by done.
      rewrite (filter_cons_False (λ h, Hash.callsign h ≠ "")) by done. apply IH.
Qed.

Lemma getLiveFlights_eq (w : World) :
  getLiveFlights w =
  (map (view_of w) (filter (λ h, Hash.callsign h ≠ "") (read_hashes (redis w))), w).
Proof.
  unfold getLiveFlights, read_hashes. rewrite bind_run, redis_read_run. cbn [fst snd].
  case_bool_decide as Hl; [| apply read_flights_eq].
  apply nil_length_inv in Hl. by rewrite Hl.
Qed.

Lemma getGateStatus_pure (w : World) : (getGateStatus w).2 = w.
Proof. reflexivity. Qed.

Lemma elem_of_live_flights (w : World) (k : string) (h : Hash.t) :
  store_wf (redis w) → (k, h) ∈ hashes (redis w) → Hash.callsign h ≠ "" →
  view_of w h ∈ result getLiveFlights w.
Proof.
  intros Hwf Hin Hc. unfold result. rewrite getLiveFlights_eq. cbn [fst].
  rewrite (read_hashes_wf _ Hwf). change (map ?f ?l) with (f <$> l).
  apply list_elem_of_fmap_2, list_elem_of_filter. split; [done |].
  apply list_elem_of_fmap. by exists (k, h).
Qed.

(** [X21] The list of live flights only reads the stores.  On a position
    store as the ingestion writes it, it has the view of every entry that
    carries a callsign, grounded aircraft included, and nothing else, and
    no callsign twice. *)
Theorem live_flights_complete (w : World) :
  store_wf (redis w) →
  let flights := result getLiveFlights w in
  world_after getLiveFlights w = w ∧
  NoDup (Flight.callsign <$> flights) ∧
  (∀ k h, (k, h) ∈ hashes (redis w) → Hash.callsign h ≠ "" → view_of w h ∈ flights) ∧
  (∀ f, f ∈ flights →
        ∃ k h, (k, h) ∈ hashes (redis w) ∧ Hash.callsign h ≠ "" ∧ f = view_of w h).
Proof.
  intros Hwf. cbn zeta. unfold result, world_after. rewrite getLiveFlights_eq.
  cbn [fst snd]. rewrite (read_hashes_wf _ Hwf).
  change (map ?f ?l) with (f <$> l).
  split_and!; [done | | |].
  - rewrite <- list_fmap_compose.
    change (Flight.callsign ∘ view_of w) with Hash.callsign.
    pose proof (store_wf_callsigns _ Hwf) as Hnd.
    induction ((hashes (redis w)).*2) as [| h l IH]; [constructor |].
    rewrite fmap_cons in Hnd. apply NoDup_cons in Hnd as [Hh Hnd].
    destruct (decide (Hash.callsign h ≠ "")).
    + rewrite filter_cons_True by done. rewrite fmap_cons. apply NoDup_cons.
      split; [| by apply IH].
      intros (h' & Heq & [_ Hin]%list_elem_of_filter)%list_elem_of_fmap.
      apply Hh. rewrite Heq. by apply list_elem_of_fmap_2.
    + rewrite filter_cons_False by done. by apply IH.
  - intros k h Hin Hc. apply list_elem_of_fmap_2, list_elem_of_filter. split; [done |].
    apply list_elem_of_fmap. by exists (k, h).
  - intros f (h & -> & [Hc Hin]%list_elem_of_filter)%list_elem_of_fmap.
    apply list_elem_of_fmap in Hin as ([k h'] & -> & Hin). by exists k, h'.
Qed.

Lemma live_flights_complete_witness :
  view_of summary_world hash_ground ∈ result getLiveFlights summary_world.
Proof.
  refine (proj1 (proj2 (proj2 (live_flights_complete summary_world summary_store_wf)))
            (key_of "BAW117") hash_ground _ _).
  - cbn. right. left.
  - by vm_compute.
Defined.

(** [X22] The flights in flight of the summary are the aircraft the
    altitude check monitors: both count the entries read that carry a
    callsign and are not on the ground. *)
Theorem summary_inFlight_is_monitored (this : AltitudeCheckService.t) (w : World) :
  Summary.inFlight (result getSummary w) =
  AltitudeResult.totalAircraft (result (AltitudeCheckService.checkLowAltitudeAircraft this) w).
Proof.
  destruct (checkLowAltitudeAircraft_any this w) as (_ & -> & _).
  unfold result, getSummary.
  rewrite bind_run, getLiveFlights_eq. cbn [fst snd].
  rewrite bind_run, getGateStatus_pure, bind_run, Date_now_run, ret_run.
  cbn [fst snd Summary.inFlight].
  induction (read_hashes (redis w)) as [| h l IH]; [done |].
  destruct (decide (Hash.callsign h ≠ "")) as [Hc | Hc].
  - rewrite (filter_cons_True (λ h, Hash.callsign h ≠ "")) by done. cbn [map].
    destruct (decide (Hash.on_ground h = "true")) as [Hg | Hg].
    + rewrite filter_cons_False.
      2: { cbn. rewrite bool_decide_eq_true_2 by done. done. }
      rewrite (filter_cons_False airborne) by (intros [_ ?]; done). apply IH.
    + rewrite filter_cons_True.
      2: { cbn. rewrite bool_decide_eq_false_2 by done. done. }
      rewrite (filter_cons_True airborne) by done. cbn [length]. by rewrite IH.
  - rewrite (filter_cons_False (λ h, Hash.callsign h ≠ "")) by done.
    rewrite (filter_cons_False airborne) by (intros [? _]; done). apply IH.
Qed.

(** [X23] A flight listed for a terminal is a live flight whose gate
    assignment names that terminal, and the terminal has a name: for the
    empty name nothing is listed. *)
Theorem flights_by_terminal_assigned (w : World) (terminalName : string) (f : Flight.t) :
  f ∈ result (getFlightsByTerminal terminalName) w →
  f ∈ result getLiveFlights w ∧ terminalName ≠ "" ∧
  ∃ gate, result (getGateAssignment (Flight.callsign f)) w = Some (gate, terminalName).
Proof.
  unfold result, getFlightsByTerminal. rewrite bind_run, ret_run. cbn [fst].
  intros [Ht Hin]%list_elem_of_filter. split; [done |].
  rewrite getLiveFlights_eq in Hin. cbn [fst] in Hin.
  change (map ?f ?l) with (f <$> l) in Hin.
  apply list_elem_of_fmap in Hin as (h & -> & _).
  unfold view_of, live_view in Ht |- *. cbn [Flight.terminal Flight.callsign] in Ht |- *.
  unfold result in *.
  destruct (getGateAssignment (Hash.callsign h) w).1 as [[gate terminal] |]; [| done].
  unfold or_null in Ht. cbn in Ht. case_bool_decide; [| done].
  injection Ht as ->. split; [done |]. by exists gate.
Qed.

Lemma flights_by_terminal_assigned_witness :
  ∃ gate, result (getGateAssignment "DLH401") summary_world = Some (gate, "Terminal 1").
Proof.
  assert (view_of summary_world hash_a ∈ result (getFlightsByTerminal "Terminal 1") summary_world)
    as Hin.
  { unfold result, getFlightsByTerminal. rewrite bind_run, ret_run. cbn [fst].
    apply list_elem_of_filter. split; [reflexivity |].
    apply (elem_of_live_flights summary_world (key_of "DLH401") hash_a summary_store_wf).
    - cbn. left.
    - by vm_compute. }
  exact (proj2 (proj2 (flights_by_terminal_assigned summary_world "Terminal 1" _ Hin))).
Defined.

End LiveFlights.

(** ** Flight monitor: the gates *)

Section Gates.

Import FlightMonitorService.

Lemma gate_row_le_total : Total gate_row_le.
Proof.
  intros r1 r2. unfold gate_row_le.
  rewrite (String.compare_antisym r2.1.2 r1.1.2).
  destruct (String.compare r1.1.2 r2.1.2); cbn; [| by left | by right].
  unfold String.leb.
  rewrite (String.compare_antisym (Gate.gateNumber r2.1.1) (Gate.gateNumber r1.1.1)).
  destruct (String.compare (Gate.gateNumber r1.1.1) (Gate.gateNumber r2.1.1)); cbn;
    [by left | by left | by right].
Qed.

(** The row of the answer for a row of the query. *)
Lemma getGateStatus_eq (w : World) :
  ∃ rows, rows ≡ₚ gate_rows (neo4j w) ∧ Sorted gate_row_le rows ∧
    result getGateStatus w =
    (λ r : Gate.t * string * option string,
       GateRow.mk (Gate.gateNumber r.1.1) r.1.2
         (if truthy_text (Gate.status r.1.1) then default "" (Gate.status r.1.1)
          else "available")
         r.2 (Gate.capacity r.1.1)) <$> rows.
Proof.
  exists (merge_sort gate_row_le (gate_rows (neo4j w))). split_and!.
  - apply merge_sort_Permutation.
  - apply Sorted_merge_sort, gate_row_le_total.
  - done.
Qed.

Lemma elem_of_gate_rows (db : Neo4j) (gt : Gate.t * string) (fa : option string * nat) :
  gt ∈ belongs_to db → fa ∈ assigned_to db → Gate.node gt.1 = fa.2 →
  (gt, fa.1) ∈ gate_rows db.
Proof.
  intros Hgt Hfa Hnode. unfold gate_rows.
  apply list_elem_of_bind. exists gt. split; [| done].
  assert (fa ∈ filter (λ fa, fa.2 = Gate.node gt.1) (assigned_to db)) as Hin
    by by apply list_elem_of_filter.
  destruct (filter _ (assigned_to db)) as [| fa' l]; [by apply elem_of_nil in Hin |].
  change (map ?f ?l) with (f <$> l). by apply (list_elem_of_fmap_2 (λ fa, (gt, fa.1))).
Qed.

(** [X24] The gate list only reads the graph.  It has one entry for each
    row of the query, a gate with each flight assigned to it or with none,
    in the order of terminal name, then gate number, and every entry has a
    status, [available] when the gate has none. *)
Theorem gate_list_sorted (w : World) :
  let gates := result getGateStatus w in
  world_after getGateStatus w = w ∧
  Sorted gate_status_le gates ∧
  length gates = length (gate_rows (neo4j w)) ∧
  (∀ g, g ∈ gates →
        GateRow.status g ≠ "" ∧
        ∃ gate, (gate, GateRow.terminal g) ∈ belongs_to (neo4j w) ∧
                GateRow.gate g = Gate.gateNumber gate ∧
                GateRow.capacity g = Gate.capacity gate ∧
                (Gate.status gate = None → GateRow.status g = "available")).
Proof.
  destruct (getGateStatus_eq w) as (rows & Hperm & Hsorted & Hres).
  cbn zeta. rewrite Hres. split_and!; [done | | |].
  - eapply Sorted_fmap; [| exact Hsorted]. by intros [[g1 t1] f1] [[g2 t2] f2].
  - by rewrite length_fmap, Hperm.
  - intros g ([[gate terminal] f] & -> & Hin)%list_elem_of_fmap. cbn.
    rewrite Hperm in Hin. unfold gate_rows in Hin.
    apply list_elem_of_bind in Hin as (gt & Hrow & Hgt).
    assert (gt = (gate, terminal)) as ->.
    { destruct (filter _ (assigned_to (neo4j w))) as [| fa l].
      - by apply list_elem_of_singleton in Hrow as [= <-].
      - change (map ?f ?l) with (f <$> l) in Hrow.
        by apply list_elem_of_fmap in Hrow as (fa' & [= <-] & _). }
    split.
    + destruct (Gate.status gate) as [s |]; cbn; [| done].
      case_bool_decide; done.
    + exists gate. split_and!; [done | done | done |]. by intros ->.
Qed.

Lemma gate_list_sorted_witness :
  Sorted gate_status_le (result getGateStatus summary_world) ∧
  length (result getGateStatus summary_world) = 2.
Proof.
  split.
  - exact (proj1 (proj2 (gate_list_sorted summary_world))).
  - exact (proj1 (proj2 (proj2 (gate_list_sorted summary_world)))).
Defined.

(** [X25] The gate assignment of a flight is an entry of the gate list:
    the same gate and terminal, occupied by the flight. *)
Theorem gate_assignment_in_status (w : World) (callsign gate terminal : string) :
  result (getGateAssignment callsign) w = Some (gate, terminal) →
  ∃ g, g ∈ result getGateStatus w ∧
       GateRow.gate g = gate ∧ GateRow.terminal g = terminal ∧
       GateRow.occupiedBy g = Some callsign.
Proof.
  intros Hres. unfold result, getGateAssignment, getNeo4j in Hres.
  rewrite bind_run, ret_run in Hres. cbn [fst snd] in Hres.
  apply head_Some_elem_of in Hres. unfold assignment_rows in Hres.
  apply list_elem_of_bind in Hres as (fa & Hrow & [Hc Hfa]%list_elem_of_filter).
  apply list_elem_of_bind in Hrow as (gt & Hrow & [Hnode Hgt]%list_elem_of_filter).
  apply list_elem_of_singleton in Hrow as [= -> ->].
  pose proof (elem_of_gate_rows _ _ _ Hgt Hfa Hnode) as Hin.
  destruct (getGateStatus_eq w) as (rows & Hperm & _ & ->).
  rewrite <- Hperm in Hin.
  eexists. split; [apply list_elem_of_fmap_2, Hin |]. cbn. by rewrite Hc.
Qed.

Lemma gate_assignment_in_status_witness :
  ∃ g, g ∈ result getGateStatus summary_world ∧
       GateRow.gate g = "A1" ∧ GateRow.terminal g = "Terminal 1" ∧
       GateRow.occupiedBy g = Some "DLH401".
Proof.
  apply (gate_assignment_in_status summary_world "DLH401" "A1" "Terminal 1").
  reflexivity.
Defined.

(** ** Flight monitor: the details of a live flight *)

(** [X26] When the position store, written as the ingestion does, has an
    entry whose callsign starts with the flight number asked for, the
    details are the live view of such an entry: they have a position, and
    their callsign starts with the flight number, but need not be it.  The
    stores are only read. *)
Theorem getFlightDetails_live (w : World) (flightNumber rest : string) (k : string)
    (h : Hash.t) :
  store_wf (redis w) → plain flightNumber →
  (k, h) ∈ hashes (redis w) → Hash.callsign h = flightNumber +:+ rest →
  ∃ k' h' rest',
    (k', h') ∈ hashes (redis w) ∧ Hash.callsign h' = flightNumber +:+ rest' ∧
    result (getFlightDetails flightNumber) w = Some (view_of w h') ∧
    is_Some (Flight.position (view_of w h')) ∧
    world_after (getFlightDetails flightNumber) w = w.
Proof.
  intros Hwf Hplain Hin Hc.
  unfold result, world_after, getFlightDetails. rewrite bind_run, redis_read_run.
  cbn [fst snd].
  destruct (keys _ (redis w)) as [| k' ks] eqn:Hkeys.
  { exfalso. apply (proj1 (keys_flight_pattern _ _ Hwf Hplain) Hkeys k h rest Hin Hc). }
  assert (k' ∈ keys ("aircraft:" +:+ flightNumber +:+ "*:position") (redis w)) as Hk'
    by (rewrite Hkeys; left).
  unfold keys in Hk'. apply list_elem_of_filter in Hk' as [Hglob Hk'].
  apply list_elem_of_fmap in Hk' as ([k'' h'] & -> & Hin'). cbn [fst] in *.
  pose proof (proj2 Hwf _ _ Hin') as ->.
  apply (glob_flight_pattern _ _ Hplain) in Hglob as [rest' Hrest'].
  exists (key_of (Hash.callsign h')), h', rest'.
  rewrite !bind_run, redis_read_run. cbn [fst snd].
  unfold hGetAll. rewrite (assoc_lookup_NoDup _ _ _ (proj1 Hwf) Hin'). cbn [default].
  split_and!; [done | done | done | by eexists | done].
Qed.

Lemma getFlightDetails_live_witness :
  ∃ h', Hash.callsign h' ≠ "LH400" ∧
        result (getFlightDetails "LH400") prefix_world = Some (view_of prefix_world h').
Proof.
  destruct (getFlightDetails_live prefix_world "LH400" "1" (key_of "LH4001") hash_LH4001)
    as (k' & h' & rest' & Hin & Hc & Hres & _).
  - split.
    + cbn. apply NoDup_singleton.
    + intros k h Hin. cbn in Hin. by apply list_elem_of_singleton in Hin as [= -> ->].
  - unfold plain. cbn. repeat (constructor; [done |]). constructor.
  - cbn. left.
  - done.
  - exists h'. split; [| done].
    cbn in Hin. by apply list_elem_of_singleton in Hin as [= _ ->].
Defined.

End Gates.

(** ** Flight monitor: the ingestion *)

Section Store.

Import FlightMonitorService.

Lemma stored_prefix_located (positions : list Live.t) :
  Forall located (stored_prefix positions).
Proof.
  induction positions as [| a positions IH]; cbn; [constructor |].
  case_decide; by constructor.
Qed.

Lemma stored_prefix_all (positions : list Live.t) :
  Forall located positions → stored_prefix positions = positions.
Proof.
  induction 1 as [| a positions Ha _ IH]; [done |].
  cbn. by rewrite decide_True, IH by done.
Qed.

Lemma storeLivePositions_run (positions : list Live.t) (w : World) :
  storeLivePositions positions w =
  (if decide (Forall located positions) then Returned tt else Thrown "TypeError",
   with_redis
     (foldl (λ r aircraft, hSet (key_of (Live.callsign aircraft)) (hash_of aircraft) r)
        (redis w) (stored_prefix positions)) w).
Proof.
  revert w. induction positions as [| a positions IH]; intros w.
  - cbn. by rewrite with_redis_same.
  - cbn [storeLivePositions stored_prefix].
    destruct (Live.latitude a) as [latitude |] eqn:Hlat;
      [destruct (Live.longitude a) as [longitude |] eqn:Hlon |].
    + assert (located a) as Ha by (split; [rewrite Hlat | rewrite Hlon]; by eexists).
      rewrite (decide_True (P := located a)) by done.
      assert (Hash.mk (Live.callsign a) latitude longitude (Live.altitude a)
                (Live.velocity a) (Live.heading a) (bool_toString (Live.on_ground a))
                (Live.timestamp a) = hash_of a) as ->
        by (unfold hash_of; by rewrite Hlat, Hlon).
      rewrite bind_run, redis_write_run. cbn [fst snd]. rewrite IH.
      cbn [foldl redis with_redis].
      f_equal. destruct (decide (Forall located positions)) as [Hall | Hall].
      * by rewrite decide_True by (by constructor).
      * rewrite decide_False; [done |]. by intros [_ ?]%Forall_cons.
    + assert (¬ located a) as Ha by (intros [_ [? Hl]]; by rewrite Hlon in Hl).
      rewrite (decide_False (P := located a)) by done.
      rewrite decide_False by (by intros [? _]%Forall_cons).
      cbn. by rewrite with_redis_same.
    + assert (¬ located a) as Ha by (intros [[? Hl] _]; by rewrite Hlat in Hl).
      rewrite (decide_False (P := located a)) by done.
      rewrite decide_False by (by intros [? _]%Forall_cons).
      cbn. by rewrite with_redis_same.
Qed.

Lemma elem_of_assoc_set_same {V : Type} (k : string) (v : V) (l : list (string * V)) :
  (k, v) ∈ assoc_set k v l.
Proof.
  induction l as [| [k' v'] l IH]; cbn; [left |].
  case_bool_decide; [subst; left | by right].
Qed.

Lemma elem_of_assoc_set_other {V : Type} (k : string) (v : V) (l : list (string * V))
    (k' : string) (v' : V) :
  k' ≠ k → (k', v') ∈ l → (k', v') ∈ assoc_set k v l.
Proof.
  intros Hne. induction l as [| [k0 v0] l IH]; cbn; [by intros ?%elem_of_nil |].
  intros [[= <- <-] | Hin]%elem_of_cons.
  - rewrite bool_decide_eq_false_2 by done. left.
  - case_bool_decide; right; [done | by apply IH].
Qed.

Lemma foldl_hSet_frame (positions : list Live.t) (r : Redis) :
  let r' := foldl (λ r aircraft, hSet (key_of (Live.callsign aircraft)) (hash_of aircraft) r)
              r positions in
  strings r' = strings r ∧ lists r' = lists r.
Proof.
  revert r. induction positions as [| a positions IH]; intros r; [done |].
  cbn [foldl]. destruct (IH (hSet (key_of (Live.callsign a)) (hash_of a) r)) as [-> ->].
  done.
Qed.

Lemma foldl_hSet_other (positions : list Live.t) (r : Redis) (k : string) (h : Hash.t) :
  (k, h) ∈ hashes r → k ∉ key_of <$> (Live.callsign <$> positions) →
  (k, h) ∈ hashes (foldl (λ r aircraft,
                             hSet (key_of (Live.callsign aircraft)) (hash_of aircraft) r)
                      r positions).
Proof.
  revert r. induction positions as [| a positions IH]; intros r Hin Hk; [done |].
  cbn [foldl]. rewrite !fmap_cons in Hk. apply not_elem_of_cons in Hk as [Hne Hk].
  apply IH; [| done]. cbn. by apply elem_of_assoc_set_other.
Qed.

Lemma foldl_hSet_last (before after : list Live.t) (a : Live.t) (r : Redis) :
  Live.callsign a ∉ Live.callsign <$> after →
  (key_of (Live.callsign a), hash_of a) ∈
    hashes (foldl (λ r aircraft,
                     hSet (key_of (Live.callsign aircraft)) (hash_of aircraft) r)
              r (before ++ a :: after)).
Proof.
  intros Hlast. rewrite foldl_app. cbn [foldl].
  apply foldl_hSet_other; [cbn; apply elem_of_assoc_set_same |].
  intros (c & Hc%key_of_inj & Hin)%list_elem_of_fmap. by subst c.
Qed.

Lemma foldl_hSet_elem (positions : list Live.t) (r : Redis) (k : string) (h : Hash.t) :
  (k, h) ∈ hashes (foldl (λ r aircraft,
                             hSet (key_of (Live.callsign aircraft)) (hash_of aircraft) r)
                      r positions) →
  (k, h) ∈ hashes r ∨
  ∃ b, b ∈ positions ∧ k = key_of (Live.callsign b) ∧ h = hash_of b.
Proof.
  revert r. induction positions as [| a positions IH]; intros r; [by left |].
  cbn [foldl]. intros [Hin | (b & Hb & ? & ?)]%IH.
  - cbn in Hin. apply elem_of_assoc_set in Hin as [[-> ->] | Hin]; [| by left].
    right. exists a. split; [left | done].
  - right. exists b. split; [by right | done].
Qed.

(** [X27] [storeLivePositions] stores the aircraft of the batch up to the
    first one without a position, where it throws, and returns only when
    every aircraft has a position.  After it, the position store is still
    as the ingestion writes it; an aircraft that was stored, and after
    which no aircraft of the same callsign was stored, reads back under its
    key with its fields; every entry is an earlier one or that of an
    aircraft stored, and the entries of other keys are kept; the stored
    alerts, the graph, the schedules and the clock are untouched. *)
Theorem storeLivePositions_round_trip (positions : list Live.t) (w : World)
    (before : list Live.t) (a : Live.t) (after : list Live.t) :
  store_wf (redis w) →
  stored_prefix positions = before ++ a :: after →
  Live.callsign a ∉ Live.callsign <$> after →
  let w' := world_after (storeLivePositions positions) w in
  store_wf (redis w') ∧
  hGetAll (key_of (Live.callsign a)) (redis w') = hash_of a ∧
  (result (storeLivePositions positions) w = Returned tt ↔ Forall located positions) ∧
  w' = world_after (storeLivePositions (stored_prefix positions)) w ∧
  (∀ k h, (k, h) ∈ hashes (redis w') →
          (k, h) ∈ hashes (redis w) ∨
          ∃ b, b ∈ stored_prefix positions ∧ k = key_of (Live.callsign b) ∧ h = hash_of b) ∧
  (∀ k h, (k, h) ∈ hashes (redis w) →
          k ∉ key_of <$> (Live.callsign <$> stored_prefix positions) →
          (k, h) ∈ hashes (redis w')) ∧
  strings (redis w') = strings (redis w) ∧ lists (redis w') = lists (redis w) ∧
  neo4j w' = neo4j w ∧ mongodb w' = mongodb w ∧ ticks w' = ticks w.
Proof.
  intros Hwf Hprefix Hlast. cbn zeta.
  pose proof (storeLivePositions_wf positions w Hwf) as Hwf'.
  unfold world_after, result in *. rewrite !storeLivePositions_run in *.
  rewrite (stored_prefix_all (stored_prefix positions)) by apply stored_prefix_located.
  cbn [fst snd redis with_redis neo4j mongodb ticks] in *.
  destruct (foldl_hSet_frame (stored_prefix positions) (redis w)) as [Hs Hl].
  cbn zeta in Hs, Hl.
  split_and!; [done | | | done | | | done | done | done | done | done].
  - unfold hGetAll.
    rewrite (assoc_lookup_NoDup _ _ (hash_of a) (proj1 Hwf')); [done |].
    rewrite Hprefix. by apply foldl_hSet_last.
  - case_decide; [done |]. split; [done |]. by intros ?.
  - intros k h. apply foldl_hSet_elem.
  - intros k h Hk Hother. by apply foldl_hSet_other.
Qed.

Lemma storeLivePositions_round_trip_witness :
  stored_prefix live_batch = [live_DLH401] ∧
  hGetAll (key_of "DLH401") (redis (world_after (storeLivePositions live_batch) empty_world))
  = hash_a.
Proof.
  assert (stored_prefix live_batch = [] ++ live_DLH401 :: []) as Hprefix by reflexivity.
  split; [exact Hprefix |].
  refine (proj1 (proj2 (storeLivePositions_round_trip live_batch empty_world
                          [] live_DLH401 [] empty_store_wf Hprefix _))).
  cbn. apply not_elem_of_nil.
Defined.

(** [X28] From the ingestion to the detector: an aircraft that was
    stored (it is before the first aircraft of the batch without a
    position) and after which no aircraft of the same callsign was stored,
    that has a callsign and is not on the ground, is in the monitored
    snapshot of the next altitude check, with its altitude and position,
    and among the live flights. *)
Theorem ingested_aircraft_is_monitored (this : AltitudeCheckService.t)
    (positions : list Live.t) (w : World)
    (before : list Live.t) (a : Live.t) (after : list Live.t) :
  store_wf (redis w) →
  stored_prefix positions = before ++ a :: after →
  Live.callsign a ∉ Live.callsign <$> after →
  Live.callsign a ≠ "" → Live.on_ground a = false →
  let w' := world_after (storeLivePositions positions) w in
  (∃ info,
     info ∈ AltitudeResult.monitoredAircraft
              (result (AltitudeCheckService.checkLowAltitudeAircraft this) w') ∧
     AircraftInfo.callsign info = Live.callsign a ∧
     AircraftInfo.altitude info = Live.altitude a ∧
     Some (AircraftInfo.latitude info) = Live.latitude a ∧
     Some (AircraftInfo.longitude info) = Live.longitude a) ∧
  (∃ f, f ∈ result getLiveFlights w' ∧ Flight.callsign f = Live.callsign a ∧
        Flight.on_ground f = Some false).
Proof.
  intros Hwf Hprefix Hlast Hc Hg. cbn zeta.
  pose proof (storeLivePositions_wf positions w Hwf) as Hwf'.
  set (w' := world_after (storeLivePositions positions) w) in *.
  assert ((key_of (Live.callsign a), hash_of a) ∈ hashes (redis w')) as Hel.
  { unfold w', world_after. rewrite storeLivePositions_run. cbn [snd redis with_redis].
    rewrite Hprefix. by apply foldl_hSet_last. }
  assert (airborne (hash_of a)) as Hair.
  { split; [done |]. cbn. by rewrite Hg. }
  assert (located a) as [[latitude Hlat] [longitude Hlon]].
  { pose proof (stored_prefix_located positions) as Hall. rewrite Hprefix in Hall.
    by apply Forall_app in Hall as [_ [Ha _]%Forall_cons]. }
  split.
  - destruct (checkLowAltitudeAircraft_run this w' Hwf') as (-> & _).
    exists (info_of (neo4j w') (hash_of a)). split.
    + change (map ?f ?l) with (f <$> l).
      apply list_elem_of_fmap_2. by eapply elem_of_monitored.
    + cbn. by rewrite Hlat, Hlon.
  - exists (view_of w' (hash_of a)). split.
    + by eapply elem_of_live_flights.
    + cbn. by rewrite Hg.
Qed.

Lemma ingested_aircraft_is_monitored_witness :
  ∃ f, f ∈ result getLiveFlights (world_after (storeLivePositions live_batch) empty_world) ∧
       Flight.callsign f = "DLH401" ∧ Flight.on_ground f = Some false.
Proof.
  refine (proj2 (ingested_aircraft_is_monitored AltitudeCheckService.new live_batch
                   empty_world [] live_DLH401 [] empty_store_wf _ _ _ _)).
  - reflexivity.
  - cbn. apply not_elem_of_nil.
  - done.
  - done.
Defined.

(** ** Flight monitor: the schedules *)

Lemma schedule_operations_run (schedules : list ScheduleInput.t) (w : World) :
  (schedule_operations schedules w).1.*1 = schedules ∧
  (schedule_operations schedules w).2 = advance (length schedules) w.
Proof.
  revert w. induction schedules as [| f schedules IH]; intros w.
  - cbn. by rewrite advance_0.
  - cbn [schedule_operations]. rewrite bind_run, Date_now_run. cbn [fst snd].
    rewrite bind_run, ret_run. cbn [fst snd]. rewrite fmap_cons. cbn [fst].
    destruct (IH (advance 1 w)) as [-> ->]. rewrite advance_advance.
    split; [done |]. cbn [length]. f_equal. lia.
Qed.

Lemma foldl_upsert_operations (operations : list (ScheduleInput.t * N))
    (docs : list Schedule.t) :
  foldl (λ docs operation, upsert operation.1 docs) docs operations =
  foldl (λ docs flight, upsert flight docs) docs operations.*1.
Proof.
  revert docs. induction operations as [| o operations IH]; intros docs; [done |].
  cbn. apply IH.
Qed.

Lemma storeSchedules_run (schedules : list ScheduleInput.t) (w : World) :
  flight_schedules (mongodb (world_after (storeSchedules schedules) w)) =
    foldl (λ docs flight, upsert flight docs) (flight_schedules (mongodb w)) schedules ∧
  redis (world_after (storeSchedules schedules) w) = redis w ∧
  neo4j (world_after (storeSchedules schedules) w) = neo4j w ∧
  ticks (world_after (storeSchedules schedules) w) = length schedules + ticks w.
Proof.
  unfold world_after, storeSchedules.
  destruct schedules as [| f schedules]; [done |].
  rewrite bool_decide_eq_false_2 by done. rewrite bind_run.
  destruct (schedule_operations_run (f :: schedules) w) as [Hops Hw].
  rewrite Hw.
  rewrite bool_decide_eq_true_2.
  2: { rewrite <- (length_fmap fst), Hops. cbn. lia. }
  unfold mongodb_write, bulkWrite. cbn [snd mongodb flight_schedules advance redis neo4j ticks].
  by rewrite foldl_upsert_operations, Hops.
Qed.

Lemma upsert_numbers (flight : ScheduleInput.t) (docs : list Schedule.t) :
  Schedule.flightNumber <$> upsert flight docs =
  if decide (ScheduleInput.flightNumber flight ∈ Schedule.flightNumber <$> docs)
  then Schedule.flightNumber <$> docs
  else (Schedule.flightNumber <$> docs) ++ [ScheduleInput.flightNumber flight].
Proof.
  induction docs as [| d docs IH]; [done |]. cbn [upsert].
  case_bool_decide as Hd.
  - rewrite !fmap_cons. cbn [set_fields Schedule.flightNumber]. rewrite Hd.
    by rewrite decide_True by left.
  - rewrite !fmap_cons, IH. destruct (decide (_ ∈ Schedule.flightNumber <$> docs)).
    + by rewrite decide_True by (by right).
    + rewrite decide_False; [done |]. intros [? | ?]%elem_of_cons; congruence.
Qed.

Lemma upsert_NoDup (flight : ScheduleInput.t) (docs : list Schedule.t) :
  NoDup (Schedule.flightNumber <$> docs) →
  NoDup (Schedule.flightNumber <$> upsert flight docs).
Proof.
  intros Hnd. rewrite upsert_numbers. case_decide; [done |].
  apply NoDup_app. split_and!; [done | | apply NoDup_singleton].
  by intros n Hn ->%list_elem_of_singleton.
Qed.

Lemma elem_of_upsert (flight : ScheduleInput.t) (d : Schedule.t) (docs : list Schedule.t) :
  NoDup (Schedule.flightNumber <$> docs) →
  d ∈ upsert flight docs ↔
  d = set_fields flight (document_for flight docs) ∨
  (d ∈ docs ∧ Schedule.flightNumber d ≠ ScheduleInput.flightNumber flight).
Proof.
  intros Hnd. unfold document_for.
  induction docs as [| d' docs IH]; cbn [upsert].
  - cbn. rewrite list_elem_of_singleton. split; [by left |].
    intros [? | [?%elem_of_nil _]]; done.
  - rewrite fmap_cons in Hnd. apply NoDup_cons in Hnd as [Hd' Hnd].
    case_bool_decide as Heq.
    + rewrite filter_cons_True by done. cbn [head default]. rewrite !elem_of_cons.
      split.
      * intros [-> | Hin]; [by left |]. right. split; [by right |].
        intros Hd. apply Hd'. rewrite Heq, <- Hd. by apply list_elem_of_fmap_2.
      * intros [-> | [[-> | Hin] Hne]]; [by left | done | by right].
    + rewrite filter_cons_False by done. rewrite !elem_of_cons, (IH Hnd).
      split.
      * intros [-> | [-> | [Hin Hne]]]; [right; split; [by left | done] | by left |].
        right. split; [by right | done].
      * intros [-> | [[-> | Hin] Hne]]; [right; by left | by left |].
        right. right. done.
Qed.

Lemma document_for_upsert (flight flight' : ScheduleInput.t) (docs : list Schedule.t) :
  ScheduleInput.flightNumber flight' ≠ ScheduleInput.flightNumber flight →
  document_for flight' (upsert flight docs) = document_for flight' docs.
Proof.
  intros Hne. unfold document_for. f_equal.
  induction docs as [| d docs IH]; cbn [upsert].
  - by rewrite filter_cons_False by (cbn; congruence).
  - case_bool_decide as Heq.
    + rewrite !filter_cons_False; [done | congruence | cbn; congruence].
    + destruct (decide (Schedule.flightNumber d = ScheduleInput.flightNumber flight')).
      * by rewrite !filter_cons_True by done.
      * by rewrite !filter_cons_False by done.
Qed.

(** [X29] [storeSchedules] upserts by flight number and merges.  On a
    collection with one document for each flight number, and for flights
    of different numbers, the collection still has one document for each
    flight number afterwards.  Its documents are, for each flight given,
    the document of its flight number (a new one when there was none) with
    the properties the flight has written over it and its other fields
    kept, and the documents of the other flight numbers as they were.  The
    clock is read once for each flight, the other stores are not
    touched. *)
Theorem storeSchedules_upserts (schedules : list ScheduleInput.t) (w : World) :
  NoDup (Schedule.flightNumber <$> flight_schedules (mongodb w)) →
  NoDup (ScheduleInput.flightNumber <$> schedules) →
  let w' := world_after (storeSchedules schedules) w in
  let docs := flight_schedules (mongodb w) in
  let docs' := flight_schedules (mongodb w') in
  NoDup (Schedule.flightNumber <$> docs') ∧
  (∀ d, d ∈ docs' ↔
        (∃ flight, flight ∈ schedules ∧ d = set_fields flight (document_for flight docs)) ∨
        (d ∈ docs ∧ Schedule.flightNumber d ∉ ScheduleInput.flightNumber <$> schedules)) ∧
  redis w' = redis w ∧ neo4j w' = neo4j w ∧ ticks w' = length schedules + ticks w.
Proof.
  intros Hdocs Hnd. cbn zeta.
  destruct (storeSchedules_run schedules w) as (-> & -> & -> & ->).
  split_and!; [| | done | done | done].
  - clear Hnd. revert Hdocs. generalize (flight_schedules (mongodb w)).
    induction schedules as [| f schedules IH]; intros docs Hdocs; [done |].
    cbn [foldl]. by apply IH, upsert_NoDup.
  - revert Hdocs. generalize (flight_schedules (mongodb w)).
    induction schedules as [| f schedules IH]; intros docs Hdocs d.
    + cbn. split; [intros ?; right; split; [done | by intros ?%elem_of_nil] |].
      intros [(? & ?%elem_of_nil & _) | [? _]]; done.
    + rewrite fmap_cons in Hnd. apply NoDup_cons in Hnd as [Hf Hnd].
      cbn [foldl]. rewrite (IH Hnd _ (upsert_NoDup f docs Hdocs)).
      rewrite (elem_of_upsert f d docs Hdocs), fmap_cons, not_elem_of_cons.
      split.
      * intros [(f' & Hin & ->) | [[-> | [Hin Hne]] Hnot]].
        -- left. exists f'. split; [by right |].
           rewrite document_for_upsert; [done |].
           intros Heq. apply Hf. rewrite <- Heq. by apply list_elem_of_fmap_2.
        -- left. exists f. split; [left | done].
        -- right. done.
      * intros [(f' & [-> | Hin]%elem_of_cons & ->) | [Hin [Hne Hnot]]].
        -- right. split; [by left | done].
        -- left. exists f'. split; [done |].
           rewrite document_for_upsert; [done |].
           intros Heq. apply Hf. rewrite <- Heq. by apply list_elem_of_fmap_2.
        -- right. split; [right | done]. done.
Qed.

Lemma storeSchedules_upserts_witness :
  Schedule.mk "LH400" (Some "D-AIMA") (Some "landed") ∈
    flight_schedules
      (mongodb (world_after (storeSchedules [update_LH400; input_BA117]) scheduled_world)) ∧
  Schedule.mk "BA117" None (Some "scheduled") ∈
    flight_schedules
      (mongodb (world_after (storeSchedules [update_LH400; input_BA117]) scheduled_world)).
Proof.
  assert (NoDup (ScheduleInput.flightNumber <$> [update_LH400; input_BA117])) as Hnd.
  { cbn. apply NoDup_cons. split; [| apply NoDup_singleton].
    rewrite list_elem_of_singleton. by vm_compute. }
  destruct (storeSchedules_upserts [update_LH400; input_BA117] scheduled_world)
    as (_ & Hdocs & _).
  - cbn. apply NoDup_singleton.
  - exact Hnd.
  - cbn zeta in Hdocs. split; apply Hdocs; left.
    + exists update_LH400. split; [left | reflexivity].
    + exists input_BA117. split; [right; left | reflexivity].
Defined.

End Store.

(** ** Flight monitor: the schedule of a callsign *)

Section Trim.

Import FlightMonitorService.

Lemma list_ascii_of_rev_app (s1 s2 : string) :
  String.list_ascii_of_string (String.rev_app s1 s2) =
  reverse (String.list_ascii_of_string s1) ++ String.list_ascii_of_string s2.
Proof.
  revert s2. induction s1 as [| a s1 IH]; intros s2; [done |].
  cbn [String.rev_app String.list_ascii_of_string]. rewrite IH.
  cbn [String.list_ascii_of_string]. by rewrite reverse_cons, <- app_assoc.
Qed.

Lemma list_ascii_of_rev (s : string) :
  String.list_ascii_of_string (String.rev s) = reverse (String.list_ascii_of_string s).
Proof. unfold String.rev. by rewrite list_ascii_of_rev_app, app_nil_r. Qed.

Lemma list_ascii_of_trim_start (s : string) :
  String.list_ascii_of_string (trim_start s) = drop_spaces (String.list_ascii_of_string s).
Proof.
  induction s as [| a s IH]; [done |]. cbn. by destruct (Ascii.is_space a).
Qed.

Lemma list_ascii_of_trim (s : string) :
  String.list_ascii_of_string (trim s) =
  reverse (drop_spaces (reverse (drop_spaces (String.list_ascii_of_string s)))).
Proof.
  unfold trim.
  by rewrite list_ascii_of_rev, list_ascii_of_trim_start, list_ascii_of_rev,
    list_ascii_of_trim_start.
Qed.

Lemma drop_spaces_suffix (l : list ascii) : ∃ pre, l = pre ++ drop_spaces l.
Proof.
  induction l as [| a l [pre IH]]; [by exists [] |]. cbn.
  destruct (Ascii.is_space a); [| by exists []].
  exists (a :: pre). cbn. by rewrite <- IH.
Qed.

Lemma drop_spaces_head (l : list ascii) :
  match drop_spaces l with [] => True | a :: _ => Ascii.is_space a = false end.
Proof.
  induction l as [| a l IH]; [done |]. cbn.
  by destruct (Ascii.is_space a) eqn:Ha; [| done].
Qed.

Lemma drop_spaces_clean (l : list ascii) :
  match l with [] => True | a :: _ => Ascii.is_space a = false end → drop_spaces l = l.
Proof. destruct l as [| a l]; [done |]. cbn. by intros ->. Qed.

Lemma drop_spaces_idemp (l : list ascii) : drop_spaces (drop_spaces l) = drop_spaces l.
Proof. apply drop_spaces_clean, drop_spaces_head. Qed.

Lemma trim_idemp (s : string) : trim (trim s) = trim s.
Proof.
  apply list_ascii_of_string_inj. rewrite (list_ascii_of_trim (trim s)), list_ascii_of_trim.
  set (l := drop_spaces (String.list_ascii_of_string s)).
  assert (match l with [] => True | a :: _ => Ascii.is_space a = false end) as Hl
    by apply drop_spaces_head.
  destruct (drop_spaces_suffix (reverse l)) as [pre Hpre].
  set (m := drop_spaces (reverse l)) in *.
  assert (l = reverse m ++ reverse pre) as Hlm.
  { rewrite <- reverse_app, <- Hpre. by rewrite reverse_involutive. }
  rewrite (drop_spaces_clean (reverse m)).
  - rewrite reverse_involutive. unfold m. by rewrite drop_spaces_idemp.
  - destruct (reverse m) as [| a t]; [done |]. by rewrite Hlm in Hl.
Qed.

(** [X30] The schedule lookup ignores the white space around the callsign:
    the callsign and its trimmed text have the same answer.  The answer is
    the first document whose flight number or aircraft registration is the
    trimmed callsign, and [null] when there is none; the lookup changes
    nothing. *)
Theorem getFlightSchedule_trims (callsign : string) (w : World) :
  getFlightSchedule (trim callsign) w = getFlightSchedule callsign w ∧
  world_after (getFlightSchedule callsign) w = w ∧
  match result (getFlightSchedule callsign) w with
  | Some schedule =>
    ∃ before after,
      flight_schedules (mongodb w) = before ++ schedule :: after ∧
      (Schedule.flightNumber schedule = trim callsign ∨
       Schedule.registration schedule = Some (trim callsign)) ∧
      Forall (λ s, Schedule.flightNumber s ≠ trim callsign ∧
                   Schedule.registration s ≠ Some (trim callsign)) before
  | None =>
    Forall (λ s, Schedule.flightNumber s ≠ trim callsign ∧
                 Schedule.registration s ≠ Some (trim callsign))
      (flight_schedules (mongodb w))
  end.
Proof.
  split_and!; [| done |].
  - unfold getFlightSchedule. by rewrite trim_idemp.
  - unfold result, getFlightSchedule, getMongoDB. rewrite bind_run, ret_run. cbn [fst snd].
    induction (flight_schedules (mongodb w)) as [| s l IH]; [constructor |].
    destruct (decide (Schedule.flightNumber s = trim callsign
                      ∨ Schedule.registration s = Some (trim callsign))) as [Hs | Hs].
    + rewrite filter_cons_True by done. cbn [head].
      exists [], l. split_and!; [done | done | constructor].
    + rewrite filter_cons_False by done.
      assert (Schedule.flightNumber s ≠ trim callsign
              ∧ Schedule.registration s ≠ Some (trim callsign)) as Hs' by tauto.
      destruct (head (filter _ l)) as [schedule |].
      * destruct IH as (before & after & -> & Hm & Hb).
        exists (s :: before), after. split_and!; [done | done | by constructor].
      * by constructor.
Qed.

End Trim.

(** ** Flight monitor: the summary *)

Section SummaryCounts.

Import FlightMonitorService.






End SummaryCounts.
